(** * Grok adapter: message translation and streaming response assembly

    A shallow embedding of the request/response translation and of the
    server-sent-event assembler of the Grok adapter
    ([src/agent/grok-patch.ts], the streaming client and
    [custom-call-model]), with the properties of its specification.

    Modelling conventions
    - A JavaScript string is the list of its UTF-16 code units
      ([jsstring]); the text chunks handed to the assembler are the
      chunks after [TextDecoder.decode].
    - A JSON number is an exact rational (the IEEE rounding of very
      large or very small literals is not modelled).
    - A JavaScript value read from parsed JSON is a [JValue] or
      [undefined].  Property reads, truthiness, [||], object spread and
      [for .. of] follow ECMAScript on these values.  Three coercions
      are outside the model and make a run [Unmodelled]: string
      concatenation with a non-string, [JSON.parse] of a non-string,
      and an array index that is not a natural number below 2^32 - 1.
      Arrays and strings are unbounded otherwise.
    - [console.warn], the token callback and [fetch] are effects: a
      warning log, a token log (the callback returns normally) and a
      network oracle with a request log.  The constructors of the
      framework messages ([AIMessage], [ToolMessage]) build the record
      of their fields and do not throw. *)

From Stdlib Require Import List String Ascii NArith ZArith QArith Bool Lia.
From stdpp Require Import base option list.
Import ListNotations.

Local Open Scope N_scope.
Local Open Scope list_scope.

(** ** JavaScript strings *)

Definition jsstring := list N.

Definition js (s : string) : jsstring :=
  map N_of_ascii (list_ascii_of_string s).

(** JSON texts are written with an apostrophe where the text has a
    double quote. *)
Definition jq (s : string) : jsstring :=
  map (fun c => if c =? 39 then 34 else c) (js s).

Definition jsstring_eqb (a b : jsstring) : bool :=
  bool_decide (a = b).

Fixpoint startsWith (s prefix : jsstring) : bool :=
  match prefix, s with
  | [], _ => true
  | p :: prefix', c :: s' => (c =? p) && startsWith s' prefix'
  | _ :: _, [] => false
  end.

Definition slice (s : jsstring) (n : nat) : jsstring := drop n s.

(** White space and line terminators of [String.prototype.trim]. *)
Definition is_js_space (c : N) : bool :=
  (c =? 9) || (c =? 10) || (c =? 11) || (c =? 12) || (c =? 13) ||
  (c =? 32) || (c =? 160) || (c =? 5760) ||
  ((8192 <=? c) && (c <=? 8202)) ||
  (c =? 8232) || (c =? 8233) || (c =? 8239) || (c =? 8287) ||
  (c =? 12288) || (c =? 65279).

Fixpoint trimStart (s : jsstring) : jsstring :=
  match s with
  | c :: s' => if is_js_space c then trimStart s' else s
  | [] => []
  end.

Definition trim (s : jsstring) : jsstring :=
  rev (trimStart (rev (trimStart s))).

(** [s.split(sep)] for a one-unit separator: never empty, the last
    element is the text after the last separator. *)
Fixpoint split (sep : N) (s : jsstring) : list jsstring :=
  match s with
  | [] => [[]]
  | c :: s' =>
      if c =? sep then [] :: split sep s'
      else match split sep s' with
           | l :: ls => (c :: l) :: ls
           | [] => [[c]]
           end
  end.

(** ** JSON values *)

#[warnings="-register-all"]
Inductive JValue : Type :=
| JNull
| JBool (b : bool)
| JNum (q : Q)
| JStr (s : jsstring)
| JArr (xs : list JValue)
| JObj (kvs : list (jsstring * JValue)).

(** A JavaScript value as the adapter meets it: a JSON value or
    [undefined]. *)
Definition value := option JValue.
Abbreviation undefined := (@None JValue).

Definition num (z : Z) : JValue := JNum (inject_Z z).
Definition str (s : string) : JValue := JStr (js s).

(** *** Lexer: one code unit at a time *)

Inductive token :=
| TLBrace | TRBrace | TLBracket | TRBracket | TColon | TComma
| TString (s : jsstring) | TNumber (q : Q)
| TTrue | TFalse | TNull.

Definition is_digit (c : N) : bool := (48 <=? c) && (c <=? 57).
Definition is_num_char (c : N) : bool :=
  is_digit c || (c =? 43) || (c =? 45) || (c =? 46) || (c =? 101) || (c =? 69).
Definition is_lower (c : N) : bool := (97 <=? c) && (c <=? 122).
Definition is_json_ws (c : N) : bool :=
  (c =? 32) || (c =? 9) || (c =? 10) || (c =? 13).

Definition hex_digit (c : N) : option N :=
  if is_digit c then Some (c - 48)
  else if (97 <=? c) && (c <=? 102) then Some (c - 87)
  else if (65 <=? c) && (c <=? 70) then Some (c - 55)
  else None.

Fixpoint take_digits (s : jsstring) : jsstring * jsstring :=
  match s with
  | c :: s' =>
      if is_digit c then let '(d, r) := take_digits s' in (c :: d, r)
      else ([], s)
  | [] => ([], [])
  end.

Definition digits_value (d : jsstring) : Z :=
  fold_left (fun acc c => (acc * 10 + Z.of_N (c - 48))%Z) d 0%Z.

(** The value [m * 10^e] of a decimal literal. *)
Definition decimal (m e : Z) : Q :=
  if (0 <=? e)%Z then inject_Z (m * 10 ^ e)
  else Qred (Qmake m (Z.to_pos (10 ^ (- e)))).

(** The JSON number grammar: an optional minus sign, an integer part
    without leading zero, an optional fraction (a dot and at least one
    digit) and an optional exponent ([e] or [E], an optional sign and
    at least one digit). *)
Definition parse_number (lexeme : jsstring) : option Q :=
  let '(neg, s1) :=
    match lexeme with
    | 45 :: r => (true, r)
    | _ => (false, lexeme)
    end in
  let '(ip, s2) := take_digits s1 in
  match ip with
  | [] => None
  | d0 :: ip' =>
      if (d0 =? 48) && negb (bool_decide (ip' = [])) then None
      else
        let fr :=
          match s2 with
          | 46 :: r =>
              let '(fp, s3) := take_digits r in
              match fp with [] => None | _ => Some (fp, s3) end
          | _ => Some ([], s2)
          end in
        match fr with
        | None => None
        | Some (fp, s3) =>
            let ex :=
              match s3 with
              | [] => Some 0%Z
              | c :: r =>
                  if (c =? 101) || (c =? 69) then
                    let '(eneg, r') :=
                      match r with
                      | 43 :: r' => (false, r')
                      | 45 :: r' => (true, r')
                      | _ => (false, r)
                      end in
                    let '(ep, s4) := take_digits r' in
                    match ep, s4 with
                    | _ :: _, [] =>
                        Some (if eneg then (- digits_value ep)%Z
                              else digits_value ep)
                    | _, _ => None
                    end
                  else None
              end in
            match ex with
            | None => None
            | Some e =>
                let m := digits_value (ip ++ fp) in
                Some (decimal (if neg then (- m)%Z else m)
                              (e - Z.of_nat (length fp)))
            end
        end
  end.

Definition parse_word (w : jsstring) : option token :=
  if jsstring_eqb w (js "true") then Some TTrue
  else if jsstring_eqb w (js "false") then Some TFalse
  else if jsstring_eqb w (js "null") then Some TNull
  else None.

Inductive lstate :=
| LStart
| LStr (acc : jsstring)
| LEsc (acc : jsstring)
| LUni (acc : jsstring) (k : nat) (v : N)
| LNum (lexeme : jsstring)
| LWord (lexeme : jsstring).

(** A code unit met between tokens. *)
Definition start_char (c : N) (out : list token) : option (lstate * list token) :=
  if is_json_ws c then Some (LStart, out)
  else if c =? 123 then Some (LStart, TLBrace :: out)
  else if c =? 125 then Some (LStart, TRBrace :: out)
  else if c =? 91 then Some (LStart, TLBracket :: out)
  else if c =? 93 then Some (LStart, TRBracket :: out)
  else if c =? 58 then Some (LStart, TColon :: out)
  else if c =? 44 then Some (LStart, TComma :: out)
  else if c =? 34 then Some (LStr [], out)
  else if (c =? 45) || is_digit c then Some (LNum [c], out)
  else if is_lower c then Some (LWord [c], out)
  else None.

Definition escape_char (c : N) : option N :=
  if c =? 34 then Some 34
  else if c =? 92 then Some 92
  else if c =? 47 then Some 47
  else if c =? 98 then Some 8
  else if c =? 102 then Some 12
  else if c =? 110 then Some 10
  else if c =? 114 then Some 13
  else if c =? 116 then Some 9
  else None.

(** [acc], [lexeme] and [out] are kept in reverse. *)
Fixpoint lex (st : lstate) (out : list token) (s : jsstring) : option (list token) :=
  match s with
  | [] =>
      match st with
      | LStart => Some (rev out)
      | LNum l => q ← parse_number (rev l); Some (rev (TNumber q :: out))
      | LWord l => t ← parse_word (rev l); Some (rev (t :: out))
      | LStr _ | LEsc _ | LUni _ _ _ => None
      end
  | c :: s' =>
      match st with
      | LStart => '(st', out') ← start_char c out; lex st' out' s'
      | LStr acc =>
          if c =? 34 then lex LStart (TString (rev acc) :: out) s'
          else if c =? 92 then lex (LEsc acc) out s'
          else if c <? 32 then None
          else lex (LStr (c :: acc)) out s'
      | LEsc acc =>
          if c =? 117 then lex (LUni acc 0 0) out s'
          else e ← escape_char c; lex (LStr (e :: acc)) out s'
      | LUni acc k v =>
          d ← hex_digit c;
          if bool_decide (k = 3%nat) then lex (LStr ((v * 16 + d) :: acc)) out s'
          else lex (LUni acc (S k) (v * 16 + d)) out s'
      | LNum l =>
          if is_num_char c then lex (LNum (c :: l)) out s'
          else
            q ← parse_number (rev l);
            '(st', out') ← start_char c (TNumber q :: out);
            lex st' out' s'
      | LWord l =>
          if is_lower c then lex (LWord (c :: l)) out s'
          else
            t ← parse_word (rev l);
            '(st', out') ← start_char c (t :: out);
            lex st' out' s'
      end
  end.

(** *** Parser: a pushdown automaton over the tokens *)

Inductive frame :=
| FArr (acc : list JValue)
| FObj (acc : list (jsstring * JValue)) (key : jsstring).

Inductive pstate :=
| PValue (stk : list frame)
| PArrFirst (stk : list frame)
| PArrNext (acc : list JValue) (stk : list frame)
| PObjFirst (stk : list frame)
| PObjKey (acc : list (jsstring * JValue)) (stk : list frame)
| PObjColon (acc : list (jsstring * JValue)) (key : jsstring) (stk : list frame)
| PObjNext (acc : list (jsstring * JValue)) (stk : list frame)
| PDone (v : JValue).

(** A value is complete: hand it to the enclosing container. *)
Definition push_value (v : JValue) (stk : list frame) : pstate :=
  match stk with
  | [] => PDone v
  | FArr acc :: stk' => PArrNext (v :: acc) stk'
  | FObj acc k :: stk' => PObjNext ((k, v) :: acc) stk'
  end.

Definition value_start (t : token) (stk : list frame) : option pstate :=
  match t with
  | TNull => Some (push_value JNull stk)
  | TTrue => Some (push_value (JBool true) stk)
  | TFalse => Some (push_value (JBool false) stk)
  | TNumber q => Some (push_value (JNum q) stk)
  | TString s => Some (push_value (JStr s) stk)
  | TLBracket => Some (PArrFirst stk)
  | TLBrace => Some (PObjFirst stk)
  | TRBrace | TRBracket | TColon | TComma => None
  end.

Definition pstep (st : pstate) (t : token) : option pstate :=
  match st with
  | PValue stk => value_start t stk
  | PArrFirst stk =>
      match t with
      | TRBracket => Some (push_value (JArr []) stk)
      | _ => value_start t (FArr [] :: stk)
      end
  | PArrNext acc stk =>
      match t with
      | TComma => Some (PValue (FArr acc :: stk))
      | TRBracket => Some (push_value (JArr (rev acc)) stk)
      | _ => None
      end
  | PObjFirst stk =>
      match t with
      | TRBrace => Some (push_value (JObj []) stk)
      | TString k => Some (PObjColon [] k stk)
      | _ => None
      end
  | PObjKey acc stk =>
      match t with
      | TString k => Some (PObjColon acc k stk)
      | _ => None
      end
  | PObjColon acc k stk =>
      match t with
      | TColon => Some (PValue (FObj acc k :: stk))
      | _ => None
      end
  | PObjNext acc stk =>
      match t with
      | TComma => Some (PObjKey acc stk)
      | TRBrace => Some (push_value (JObj (rev acc)) stk)
      | _ => None
      end
  | PDone _ => None
  end.

Fixpoint parse_tokens (st : pstate) (ts : list token) : option JValue :=
  match ts with
  | [] => match st with PDone v => Some v | _ => None end
  | t :: ts' => st' ← pstep st t; parse_tokens st' ts'
  end.

(** [JSON.parse]: [None] is the [SyntaxError]. *)
Definition JSON_parse (text : jsstring) : option JValue :=
  ts ← lex LStart [] text; parse_tokens (PValue []) ts.

(** ** JavaScript operations on parsed values *)

Inductive Exn :=
| TypeError
| SyntaxError
| Error (message : jsstring)
| NetworkError.

(** The result of an operation: a value, a thrown exception, or a
    coercion outside the model. *)
Inductive Res (A : Type) :=
| Ok (a : A)
| Throw (e : Exn)
| Unmodelled.
Arguments Ok {A} a.
Arguments Throw {A} e.
Arguments Unmodelled {A}.

Definition truthy (v : value) : bool :=
  match v with
  | None | Some JNull => false
  | Some (JBool b) => b
  | Some (JNum q) => negb (Qnum q =? 0)%Z
  | Some (JStr s) => negb (bool_decide (s = []))
  | Some (JArr _) | Some (JObj _) => true
  end.

(** [a || b] *)
Definition js_or (a b : value) : value := if truthy a then a else b.

(** The own property [k] of an object literal read by [JSON.parse]:
    the last occurrence of a repeated key wins. *)
Definition own (kvs : list (jsstring * JValue)) (k : jsstring) : value :=
  fold_left (fun acc kv => if jsstring_eqb kv.1 k then Some kv.2 else acc)
            kvs undefined.

(** [v.k] for a property name [k] that is neither an array index, nor
    [length], nor defined on a built-in prototype (every name the
    adapter reads is of this kind). *)
Definition get (v : value) (k : jsstring) : Res value :=
  match v with
  | None | Some JNull => Throw TypeError
  | Some (JObj kvs) => Ok (own kvs k)
  | Some _ => Ok undefined
  end.

Fixpoint index_digits (fuel : nat) (n : N) (acc : jsstring) : jsstring :=
  match fuel with
  | O => acc
  | S fuel' =>
      let acc' := (48 + n mod 10) :: acc in
      if n / 10 =? 0 then acc' else index_digits fuel' (n / 10) acc'
  end.

(** The decimal digits of a natural number, as string conversion
    prints it. *)
Definition N_digits (n : N) : jsstring :=
  index_digits (S (N.size_nat n)) n [].

(** The property key of an array index. *)
Definition index_key (i : nat) : jsstring := N_digits (N.of_nat i).

(** [v[i]] *)
Definition get_idx (v : value) (i : nat) : Res value :=
  match v with
  | None | Some JNull => Throw TypeError
  | Some (JObj kvs) => Ok (own kvs (index_key i))
  | Some (JArr xs) => Ok (xs !! i)
  | Some (JStr s) => Ok ((fun c => JStr [c]) <$> s !! i)
  | Some _ => Ok undefined
  end.

Definition is_high_surrogate (c : N) : bool := (55296 <=? c) && (c <=? 56319).
Definition is_low_surrogate (c : N) : bool := (56320 <=? c) && (c <=? 57343).

(** The code points of a string, as [for .. of] yields them. *)
Fixpoint code_points (s : jsstring) : list jsstring :=
  match s with
  | [] => []
  | c :: s' =>
      match s' with
      | d :: s'' =>
          if is_high_surrogate c && is_low_surrogate d
          then match code_points s' with
               | _ :: ps => [c; d] :: ps
               | [] => [[c; d]]
               end
          else [c] :: code_points s'
      | [] => [[c]]
      end
  end.

(** The elements [for (const x of v)] visits; other values are not
    iterable. *)
Definition iterate (v : value) : Res (list value) :=
  match v with
  | Some (JArr xs) => Ok (map Some xs)
  | Some (JStr s) => Ok (map (fun p => Some (JStr p)) (code_points s))
  | _ => Throw TypeError
  end.

(** The own enumerable properties copied by an object spread. *)
Definition own_props (v : JValue) : list (jsstring * JValue) :=
  match v with
  | JObj kvs => kvs
  | JArr xs => imap (fun i x => (index_key i, x)) xs
  | JStr s => imap (fun i c => (index_key i, JStr [c])) s
  | JNull | JBool _ | JNum _ => []
  end.

(** [{ ...a, ...b }] *)
Definition spread (a b : JValue) : JValue := JObj (own_props a ++ own_props b).

(** A value used as a string operand. *)
Definition as_string (v : value) : Res jsstring :=
  match v with
  | Some (JStr s) => Ok s
  | _ => Unmodelled
  end.

(** A value used as an array index: a natural number below the
    largest array length, 2^32 - 1. *)
Definition as_index (v : value) : Res nat :=
  match v with
  | Some (JNum q) =>
      if (Z.pos (Qden q) =? 1)%Z && (0 <=? Qnum q)%Z
         && (Qnum q <? 4294967295)%Z
      then Ok (Z.to_nat (Qnum q)) else Unmodelled
  | _ => Unmodelled
  end.

(** ** A state and exception monad

    The state survives a throw: the catch block sees what the try
    block did before it failed. *)

Section StateExn.
Context {S : Type}.

Definition M (A : Type) : Type := S -> S * Res A.

Definition ret {A} (a : A) : M A := fun s => (s, Ok a).

Definition bind {A B} (m : M A) (k : A -> M B) : M B :=
  fun s =>
    match m s with
    | (s', Ok a) => k a s'
    | (s', Throw e) => (s', Throw e)
    | (s', Unmodelled) => (s', Unmodelled)
    end.

Definition lift {A} (r : Res A) : M A := fun s => (s, r).

Definition gets {A} (f : S -> A) : M A := fun s => (s, Ok (f s)).

Definition modify (f : S -> S) : M unit := fun s => (f s, Ok tt).

Definition when (b : bool) (m : M unit) : M unit :=
  if b then m else ret tt.

Fixpoint for_of {X} (xs : list X) (body : X -> M unit) : M unit :=
  match xs with
  | [] => ret tt
  | x :: xs' => bind (body x) (fun _ => for_of xs' body)
  end.

(** [try { m } catch (e) { handler }] *)
Definition try_catch {A} (m : M A) (handler : Exn -> M A) : M A :=
  fun s =>
    match m s with
    | (s', Throw e) => handler e s'
    | r => r
    end.
End StateExn.
Arguments M : clear implicits.

Notation "'let!' x := m 'in' k" := (bind m (fun x => k))
  (at level 10, x name, m at level 100, k at level 200, only parsing).
Notation "'do!' m 'in' k" := (bind m (fun _ => k))
  (at level 10, m at level 100, k at level 200, only parsing).

(** ** Messages of the agent framework *)

(** A tool invocation as the assembler builds it; [tc_argsString] is
    the raw-argument buffer, absent until a fragment fails to parse. *)
Record ToolCall := {
  tc_id : value;
  tc_name : value;
  tc_args : JValue;
  tc_argsString : option jsstring
}.

Record Metadata := {
  md_id : value;
  md_model : value;
  md_usage : value;
  md_finish_reason : value
}.

(** A message of the framework ([BaseMessage] and its subclasses).
    [getType] is the type tag; a message without tool invocations or
    without extra fields has the empty list there. *)
Record Message := {
  getType : jsstring;
  content : JValue;
  tool_calls : list ToolCall;
  tool_call_id : value;
  additional_kwargs : list (jsstring * JValue);
  response_metadata : Metadata
}.

Definition no_metadata : Metadata :=
  {| md_id := undefined; md_model := undefined;
     md_usage := undefined; md_finish_reason := undefined |}.

(** [new AIMessage({ content, tool_calls, response_metadata })] *)
Definition AIMessage (c : JValue) (calls : list ToolCall) (md : Metadata) : Message :=
  {| getType := js "ai"; content := c; tool_calls := calls;
     tool_call_id := undefined; additional_kwargs := [];
     response_metadata := md |}.

(** The placeholder [{ id: <empty>, name: <empty>, args: {} }] pushed for an
    index that has no invocation yet. *)
Definition empty_tool_call : ToolCall :=
  {| tc_id := Some (JStr []); tc_name := Some (JStr []);
     tc_args := JObj []; tc_argsString := None |}.

Definition with_id (v : value) (tc : ToolCall) : ToolCall :=
  {| tc_id := v; tc_name := tc_name tc;
     tc_args := tc_args tc; tc_argsString := tc_argsString tc |}.

Definition with_name (v : value) (tc : ToolCall) : ToolCall :=
  {| tc_id := tc_id tc; tc_name := v;
     tc_args := tc_args tc; tc_argsString := tc_argsString tc |}.

Definition with_args (a : JValue) (tc : ToolCall) : ToolCall :=
  {| tc_id := tc_id tc; tc_name := tc_name tc;
     tc_args := a; tc_argsString := tc_argsString tc |}.

Definition with_argsString (s : jsstring) (tc : ToolCall) : ToolCall :=
  {| tc_id := tc_id tc; tc_name := tc_name tc;
     tc_args := tc_args tc; tc_argsString := Some s |}.

(** The accumulators of one streaming call and its two outputs:
    [tokens] records the arguments of the token callback, [yielded]
    the messages a generator has yielded, each as the consumer
    receives it. *)
Record Acc := {
  accumulatedContent : jsstring;
  accumulatedToolCalls : list ToolCall;
  responseMetadata : Metadata;
  tokens : list jsstring;
  yielded : list Message
}.

Definition initial_acc : Acc :=
  {| accumulatedContent := []; accumulatedToolCalls := [];
     responseMetadata := no_metadata; tokens := []; yielded := [] |}.

Definition on_content (f : jsstring -> jsstring) (a : Acc) : Acc :=
  {| accumulatedContent := f (accumulatedContent a);
     accumulatedToolCalls := accumulatedToolCalls a;
     responseMetadata := responseMetadata a; tokens := tokens a;
     yielded := yielded a |}.

Definition on_tool_calls (f : list ToolCall -> list ToolCall) (a : Acc) : Acc :=
  {| accumulatedContent := accumulatedContent a;
     accumulatedToolCalls := f (accumulatedToolCalls a);
     responseMetadata := responseMetadata a; tokens := tokens a;
     yielded := yielded a |}.

Definition on_metadata (f : Metadata -> Metadata) (a : Acc) : Acc :=
  {| accumulatedContent := accumulatedContent a;
     accumulatedToolCalls := accumulatedToolCalls a;
     responseMetadata := f (responseMetadata a); tokens := tokens a;
     yielded := yielded a |}.

Definition on_tokens (f : list jsstring -> list jsstring) (a : Acc) : Acc :=
  {| accumulatedContent := accumulatedContent a;
     accumulatedToolCalls := accumulatedToolCalls a;
     responseMetadata := responseMetadata a; tokens := f (tokens a);
     yielded := yielded a |}.

Definition on_yielded (f : list Message -> list Message) (a : Acc) : Acc :=
  {| accumulatedContent := accumulatedContent a;
     accumulatedToolCalls := accumulatedToolCalls a;
     responseMetadata := responseMetadata a; tokens := tokens a;
     yielded := f (yielded a) |}.

Definition set_md_id (v : value) (m : Metadata) : Metadata :=
  {| md_id := v; md_model := md_model m; md_usage := md_usage m;
     md_finish_reason := md_finish_reason m |}.
Definition set_md_model (v : value) (m : Metadata) : Metadata :=
  {| md_id := md_id m; md_model := v; md_usage := md_usage m;
     md_finish_reason := md_finish_reason m |}.
Definition set_md_usage (v : value) (m : Metadata) : Metadata :=
  {| md_id := md_id m; md_model := md_model m; md_usage := v;
     md_finish_reason := md_finish_reason m |}.

(** [while (calls.length <= index) calls.push(placeholder)] *)
Definition grow (index : nat) (calls : list ToolCall) : list ToolCall :=
  calls ++ replicate (S index - length calls) empty_tool_call.

(** A mutation of [accumulatedToolCalls[index]]. *)
Definition update_call (index : nat) (f : ToolCall -> ToolCall) : M Acc unit :=
  modify (on_tool_calls (alter f index)).

(** The three metadata updates shared by both assemblers. *)
Definition update_metadata (jsonData : value) : M Acc unit :=
  let! id := lift (get jsonData (js "id")) in
  do! when (truthy id) (modify (on_metadata (set_md_id id))) in
  let! model := lift (get jsonData (js "model")) in
  do! when (truthy model) (modify (on_metadata (set_md_model model))) in
  let! usage := lift (get jsonData (js "usage")) in
  when (truthy usage) (modify (on_metadata (set_md_usage usage))).

(** A console warning: the payload and the error caught. *)
Definition Warning : Type := jsstring * Exn.

Inductive Control := Continue | Break.

(** ** The streaming assembler of [GrokChatModel._streamGenerate] *)

Module GrokPatch.

(** The body of the loop over [delta.tool_calls]. *)
Definition process_tool_call_delta (toolCallDelta : value) : M Acc unit :=
  let! i := lift (get toolCallDelta (js "index")) in
  let! index := lift (as_index (js_or i (Some (num 0)))) in
  do! modify (on_tool_calls (grow index)) in
  let! id := lift (get toolCallDelta (js "id")) in
  do! when (truthy id) (update_call index (with_id id)) in
  let! fn := lift (get toolCallDelta (js "function")) in
  when (truthy fn) (
    let! name := lift (get fn (js "name")) in
    do! when (truthy name) (update_call index (with_name name)) in
    let! arguments := lift (get fn (js "arguments")) in
    when (truthy arguments) (
      let! fragment := lift (as_string arguments) in
      match JSON_parse fragment with
      | Some args =>
          update_call index (fun tc => with_args (spread (tc_args tc) args) tc)
      | None =>
          (* Partial JSON, accumulate *)
          update_call index (fun tc =>
            let argsString := default [] (tc_argsString tc) ++ fragment in
            let tc' := with_argsString argsString tc in
            match JSON_parse argsString with
            | Some args => with_args args tc'
            | None => tc'
            end)
      end)).

(** The body of the [try] block once the payload is parsed. *)
Definition on_event (onLLMNewToken : bool) (jsonData : value) : M Acc unit :=
  let! choices := lift (get jsonData (js "choices")) in
  let! choice := (if truthy choices then lift (get_idx choices 0) else ret choices) in
  when (truthy choice) (
    let! delta := lift (get choice (js "delta")) in
    do! update_metadata jsonData in
    let! content := lift (get delta (js "content")) in
    do! when (truthy content) (
      let! text := lift (as_string content) in
      do! modify (on_content (fun c => c ++ text)) in
      when onLLMNewToken (modify (on_tokens (fun t => t ++ [text])))) in
    let! calls := lift (get delta (js "tool_calls")) in
    when (truthy calls) (
      let! deltas := lift (iterate calls) in
      for_of deltas process_tool_call_delta)).

(** [try { JSON.parse(dataStr); ... }] *)
Definition try_event (onLLMNewToken : bool) (dataStr : jsstring) : M Acc unit :=
  match JSON_parse dataStr with
  | None => lift (Throw SyntaxError)
  | Some jsonData => on_event onLLMNewToken (Some jsonData)
  end.

(** The state of the read loop; [None] as a result is a run that left
    the model. *)
Record State := { acc : Acc; warnings : list Warning }.

(** One iteration of [for (const line of lines)]. *)
Definition process_line (onLLMNewToken : bool) (line : jsstring) (st : State)
  : option (State * Control) :=
  let trimmedLine := trim line in
  if startsWith trimmedLine (js "data: ") then
    let dataStr := slice trimmedLine 6 in
    if jsstring_eqb dataStr (js "[DONE]") then Some (st, Break)
    else
      match try_event onLLMNewToken dataStr (acc st) with
      | (a, Ok _) => Some ({| acc := a; warnings := warnings st |}, Continue)
      | (a, Throw e) =>
          Some ({| acc := a; warnings := warnings st ++ [(dataStr, e)] |},
                Continue)
      | (_, Unmodelled) => None
      end
  else Some (st, Continue).

Fixpoint for_lines (onLLMNewToken : bool) (lines : list jsstring) (st : State)
  : option State :=
  match lines with
  | [] => Some st
  | line :: lines' =>
      match process_line onLLMNewToken line st with
      | Some (st', Continue) => for_lines onLLMNewToken lines' st'
      | Some (st', Break) => Some st'
      | None => None
      end
  end.

(** [while (true) { read; buffer += chunk; split; pop; for .. }]:
    the sentinel leaves the loop over the lines of the current
    chunk, not the read loop. *)
Fixpoint read_loop (onLLMNewToken : bool) (chunks : list jsstring)
         (buffer : jsstring) (st : State) : option State :=
  match chunks with
  | [] => Some st
  | chunk :: chunks' =>
      let lines := split 10 (buffer ++ chunk) in
      st' ← for_lines onLLMNewToken (removelast lines) st;
      read_loop onLLMNewToken chunks' (List.last lines []) st'
  end.

Definition final_message (a : Acc) : Message :=
  AIMessage (JStr (accumulatedContent a))
    (List.filter (fun tc => truthy (tc_id tc) && truthy (tc_name tc))
                 (accumulatedToolCalls a))
    (responseMetadata a).

(** The assembler on the decoded chunks of a response body. *)
Definition assemble (onLLMNewToken : bool) (chunks : list jsstring)
  : option (Message * State) :=
  st ← read_loop onLLMNewToken chunks []
       {| acc := initial_acc; warnings := [] |};
  Some (final_message (acc st), st).

End GrokPatch.

(** ** The streaming assembler of [GrokStreamingClient.streamChatCompletion] *)

Module StreamingClient.

(** [yield new AIMessage({ content, tool_calls, response_metadata })] *)
Definition yield_snapshot : M Acc unit :=
  modify (fun a =>
    on_yielded (fun ys =>
      ys ++ [AIMessage (JStr (accumulatedContent a))
                       (accumulatedToolCalls a) (responseMetadata a)]) a).

Definition process_tool_call_delta (toolCallDelta : value) : M Acc unit :=
  let! i := lift (get toolCallDelta (js "index")) in
  let! index := lift (as_index (js_or i (Some (num 0)))) in
  do! modify (on_tool_calls (grow index)) in
  let! id := lift (get toolCallDelta (js "id")) in
  do! when (truthy id) (update_call index (with_id id)) in
  let! fn := lift (get toolCallDelta (js "function")) in
  when (truthy fn) (
    let! name := lift (get fn (js "name")) in
    do! when (truthy name) (update_call index (with_name name)) in
    let! arguments := lift (get fn (js "arguments")) in
    when (truthy arguments) (
      let! fragment := lift (as_string arguments) in
      match JSON_parse fragment with
      | Some args =>
          update_call index (fun tc => with_args (spread (tc_args tc) args) tc)
      | None => lift (Throw SyntaxError)
      end)).

Definition on_event (jsonData : value) : M Acc unit :=
  let! choices := lift (get jsonData (js "choices")) in
  let! choice := (if truthy choices then lift (get_idx choices 0) else ret choices) in
  when (truthy choice) (
    let! delta := lift (get choice (js "delta")) in
    do! update_metadata jsonData in
    let! content := lift (get delta (js "content")) in
    do! when (truthy content) (
      let! text := lift (as_string content) in
      do! modify (on_content (fun c => c ++ text)) in
      yield_snapshot) in
    let! calls := lift (get delta (js "tool_calls")) in
    when (truthy calls) (
      let! deltas := lift (iterate calls) in
      do! for_of deltas process_tool_call_delta in
      yield_snapshot)).

Definition try_event (dataStr : jsstring) : M Acc unit :=
  match JSON_parse dataStr with
  | None => lift (Throw SyntaxError)
  | Some jsonData => on_event (Some jsonData)
  end.

Record State := { acc : Acc; warnings : list Warning }.

(** The sentinel yields the final message and returns from the
    generator. *)
Definition process_line (line : jsstring) (st : State)
  : option (State * Control) :=
  let trimmedLine := trim line in
  if startsWith trimmedLine (js "data: ") then
    let dataStr := slice trimmedLine 6 in
    if jsstring_eqb dataStr (js "[DONE]") then
      Some ({| acc := (yield_snapshot (acc st)).1; warnings := warnings st |},
            Break)
    else
      match try_event dataStr (acc st) with
      | (a, Ok _) => Some ({| acc := a; warnings := warnings st |}, Continue)
      | (a, Throw e) =>
          Some ({| acc := a; warnings := warnings st ++ [(dataStr, e)] |},
                Continue)
      | (_, Unmodelled) => None
      end
  else Some (st, Continue).

Fixpoint for_lines (lines : list jsstring) (st : State)
  : option (State * Control) :=
  match lines with
  | [] => Some (st, Continue)
  | line :: lines' =>
      match process_line line st with
      | Some (st', Continue) => for_lines lines' st'
      | r => r
      end
  end.

Fixpoint read_loop (chunks : list jsstring) (buffer : jsstring) (st : State)
  : option State :=
  match chunks with
  | [] =>
      (* Final message if not already yielded *)
      Some {| acc := (yield_snapshot (acc st)).1; warnings := warnings st |}
  | chunk :: chunks' =>
      let lines := split 10 (buffer ++ chunk) in
      match for_lines (removelast lines) st with
      | Some (st', Continue) => read_loop chunks' (List.last lines []) st'
      | Some (st', Break) => Some st'
      | None => None
      end
  end.

(** The messages the generator yields on the decoded chunks of a
    response body; the last one is the final message. *)
Definition streamChatCompletion (chunks : list jsstring) : option (list Message) :=
  st ← read_loop chunks [] {| acc := initial_acc; warnings := [] |};
  Some (yielded (acc st)).

End StreamingClient.

(** ** The wire format of the chat-completions endpoint *)

(** [{ type: "image_url", image_url: { url } }] *)
Inductive ContentPart := ImageUrl (url : jsstring).

(** The content of a wire message: the content of the framework
    message as it is, or a list of typed parts. *)
Inductive WireContent :=
| Plain (c : JValue)
| Parts (ps : list ContentPart).

(** [{ id, type: "function", function: { name, arguments } }];
    [wire_arguments] is sent as its [JSON.stringify] text. *)
Record WireToolCall := {
  wire_id : value;
  wire_name : value;
  wire_arguments : JValue
}.

(** [{ role, content, tool_calls?, tool_call_id? }]: an absent key is
    [None]. *)
Record WireMessage := {
  role : jsstring;
  wire_content : WireContent;
  wire_tool_calls : option (list WireToolCall);
  wire_tool_call_id : option value
}.

Definition wire (r : string) (c : WireContent) : WireMessage :=
  {| role := js r; wire_content := c;
     wire_tool_calls := None; wire_tool_call_id := None |}.

(** The function tool offered to the provider; its description and
    parameter schema are constants of the source. *)
Record Tool := { tool_name : jsstring }.

(** The JSON body of [POST /chat/completions]; an [undefined] field is
    [None]. *)
Record RequestBody := {
  model : jsstring;
  messages : list WireMessage;
  tools : option (list Tool);
  tool_choice : option jsstring;
  temperature : value;
  max_tokens : value;
  stream : bool
}.

Record Request := {
  url : jsstring;
  authorization : jsstring;
  request_body : RequestBody
}.

(** A response body: the decoded chunks the reader delivers, and
    whether the transport fails after them. *)
Record ResponseBody := { chunks : list jsstring; aborted : bool }.

Record Response := {
  ok : bool;
  status : N;
  statusText : jsstring;
  body : option ResponseBody
}.

(** The network: [fetch] of a URL yields the bytes of the resource,
    [fetch] of a request yields a response; [None] is a rejected
    promise. *)
Record Network := {
  http_get : jsstring -> option (list N);
  http_post : Request -> option Response
}.

Inductive NetCall := GET (u : jsstring) | POST (r : Request).

(** Network code runs in the monad over the log of its calls. *)
Definition Net (A : Type) : Type := M (list NetCall) A.

Definition fetch_post (net : Network) (r : Request) : Net Response :=
  fun log =>
    (log ++ [POST r],
     match http_post net r with
     | Some resp => Ok resp
     | None => Throw NetworkError
     end).

Definition fetch_get (net : Network) (u : jsstring) : Net (list N) :=
  fun log =>
    (log ++ [GET u],
     match http_get net u with
     | Some bytes => Ok bytes
     | None => Throw NetworkError
     end).

(** [response.text()] *)
Definition response_text (r : Response) : Res jsstring :=
  match body r with
  | None => Ok []
  | Some b => if aborted b then Throw NetworkError else Ok (concat (chunks b))
  end.

(** [response.json()] *)
Definition response_json (r : Response) : Res JValue :=
  match response_text r with
  | Ok text =>
      match JSON_parse text with
      | Some v => Ok v
      | None => Throw SyntaxError
      end
  | Throw e => Throw e
  | Unmodelled => Unmodelled
  end.

(** [v || d] for a default that is a JSON value. *)
Definition or_default (v : value) (d : JValue) : JValue :=
  if truthy v then default d v else d.

(** [typeof c === "string" && c.startsWith("data:image/")] *)
Definition is_image_data_uri (c : JValue) : bool :=
  match c with
  | JStr s => startsWith s (js "data:image/")
  | _ => false
  end.

(** One element of [message.tool_calls.map(...)] in the response
    decoder. *)
Definition decode_tool_call {S} (tc : value) : M S ToolCall :=
  let! id := lift (get tc (js "id")) in
  let! fn := lift (get tc (js "function")) in
  let! name := lift (get fn (js "name")) in
  let! arguments := lift (get fn (js "arguments")) in
  let! text := lift (as_string (js_or arguments (Some (JStr (js "{}"))))) in
  match JSON_parse text with
  | Some args =>
      ret {| tc_id := id; tc_name := name; tc_args := args;
             tc_argsString := None |}
  | None => lift (Throw SyntaxError)
  end.

Fixpoint map_M {S X Y} (f : X -> M S Y) (xs : list X) : M S (list Y) :=
  match xs with
  | [] => ret []
  | x :: xs' =>
      let! y := f x in
      let! ys := map_M f xs' in
      ret (y :: ys)
  end.

(** [message.tool_calls?.map(...) || []] *)
Definition decode_tool_calls {S} (calls : value) : M S (list ToolCall) :=
  match calls with
  | None | Some JNull => ret []
  | Some (JArr xs) => map_M decode_tool_call (map Some xs)
  | Some _ => lift (Throw TypeError)
  end.

Definition screenshot_args : JValue :=
  JObj [(js "action", JObj [(js "type", str "screenshot")])].

Definition usage (prompt completion total : Z) : JValue :=
  JObj [(js "prompt_tokens", num prompt);
        (js "completion_tokens", num completion);
        (js "total_tokens", num total)].

Definition grok_model : jsstring := js "grok-2-vision-1212".

(** Base64 of a byte sequence, as [Buffer.toString("base64")]. *)
Definition b64_char (n : N) : N :=
  if n <? 26 then 65 + n
  else if n <? 52 then 97 + (n - 26)
  else if n <? 62 then 48 + (n - 52)
  else if n =? 62 then 43 else 47.

Fixpoint base64 (bytes : list N) : jsstring :=
  match bytes with
  | [] => []
  | [a] =>
      let n := a * 65536 in
      [b64_char (n / 262144); b64_char (n / 4096 mod 64); 61; 61]
  | [a; b] =>
      let n := a * 65536 + b * 256 in
      [b64_char (n / 262144); b64_char (n / 4096 mod 64);
       b64_char (n / 64 mod 64); 61]
  | a :: b :: c :: rest =>
      let n := a * 65536 + b * 256 + c in
      b64_char (n / 262144) :: b64_char (n / 4096 mod 64) ::
      b64_char (n / 64 mod 64) :: b64_char (n mod 64) :: base64 rest
  end.

(** [v === s] for a string literal [s] *)
Definition is_string_eq (v : value) (s : jsstring) : bool :=
  match v with
  | Some (JStr t) => jsstring_eqb t s
  | _ => false
  end.

Definition has_type (m : Message) (t : string) : bool :=
  jsstring_eqb (getType m) (js t).

(** ** The custom model call: [callModelCustom] and its helpers *)

Module CustomCallModel.

(** What the adapter reads from [process.env]. *)
Record Env := {
  XAI_API_KEY : option jsstring;
  XAI_BASE_URL : option jsstring
}.

(** [prompt?: string | SystemMessage] *)
Inductive Prompt :=
| PromptString (s : jsstring)
| PromptMessage (m : Message).

(** [config.configurable] *)
Record Configurable := {
  zdrEnabled : option bool;
  environment : option jsstring;
  prompt : option Prompt
}.

Record Configuration := {
  cfg_zdrEnabled : bool;
  cfg_environment : jsstring;
  cfg_prompt : option Prompt
}.

Definition getConfigurationWithDefaults (config : Configurable) : Configuration :=
  {| cfg_zdrEnabled := default false (zdrEnabled config);
     cfg_environment := default (js "web") (environment config);
     cfg_prompt := prompt config |}.

(** [if (configuration.prompt)] *)
Definition prompt_truthy (p : option Prompt) : bool :=
  match p with
  | None => false
  | Some (PromptString s) => negb (bool_decide (s = []))
  | Some (PromptMessage _) => true
  end.

Record GrokClient := { apiKey : jsstring; baseURL : jsstring }.

Definition new_GrokClient (key : jsstring) (base : option jsstring) : GrokClient :=
  {| apiKey := key; baseURL := default (js "https://api.x.ai/v1") base |}.

Definition fallback_message : Message :=
  AIMessage
    (str "I'm having trouble connecting to the Grok API. Let me try a different approach. I'll take a screenshot first to see the current state.")
    [{| tc_id := Some (str "fallback_screenshot");
        tc_name := Some (str "computer_use");
        tc_args := screenshot_args; tc_argsString := None |}]
    {| md_id := Some (str "fallback_response");
       md_model := Some (JStr grok_model);
       md_usage := Some (usage 0 50 50);
       md_finish_reason := undefined |}.

Definition createComputerUseTool (environment : jsstring) : Tool :=
  {| tool_name := js "computer_use" |}.

Definition convertMessageToGrokFormat (message : Message) : WireMessage :=
  if has_type message "system" then wire "system" (Plain (content message))
  else if has_type message "human" then wire "user" (Plain (content message))
  else if has_type message "ai" then
    {| role := js "assistant";
       wire_content := Plain (or_default (Some (content message)) (JStr []));
       wire_tool_calls :=
         if bool_decide (0 < length (tool_calls message))%nat then
           Some (map (fun tc => {| wire_id := tc_id tc; wire_name := tc_name tc;
                                   wire_arguments := tc_args tc |})
                     (tool_calls message))
         else None;
       wire_tool_call_id := None |}
  else if has_type message "tool" then
    (* Handle screenshot content *)
    match content message with
    | JStr s =>
        if startsWith s (js "data:image/")
        then wire "user" (Parts [ImageUrl s])
        else {| role := js "tool"; wire_content := Plain (content message);
                wire_tool_calls := None;
                wire_tool_call_id := Some (tool_call_id message) |}
    | _ => {| role := js "tool"; wire_content := Plain (content message);
              wire_tool_calls := None;
              wire_tool_call_id := Some (tool_call_id message) |}
    end
  else wire "user" (Plain (or_default (Some (content message)) (JStr []))).

(** The request [makeRequest] sends. *)
Definition post_request (client : GrokClient) (endpoint : jsstring)
           (data : RequestBody) : Request :=
  {| url := baseURL client ++ js "/" ++ endpoint;
     authorization := js "Bearer " ++ apiKey client;
     request_body := data |}.

(** [const data = { model, messages, tools, ... }] of
    [createChatCompletion]. *)
Definition chat_data (msgs : list WireMessage) (tls : list Tool) : RequestBody :=
  {| model := grok_model;
     messages := msgs;
     tools := if bool_decide (0 < length tls)%nat then Some tls else None;
     tool_choice :=
       if bool_decide (0 < length tls)%nat then Some (js "auto") else None;
     stream := false;
     temperature := Some (JNum (1 # 10));
     max_tokens := Some (num 4096) |}.

Section Platform.
(** [new URL(value)] succeeds. *)
Variable isUrl : jsstring -> bool.
(** The predicate of the agent library on the last message; it reads
    the type of its argument first, so it throws on [undefined]. *)
Variable isComputerCallToolMessage : Message -> bool.
Variable net : Network.

Definition makeRequest (client : GrokClient) (endpoint : jsstring)
           (data : RequestBody) : Net JValue :=
  let! response := fetch_post net (post_request client endpoint data) in
  if negb (ok response) then
    let! errorText := lift (response_text response) in
    lift (Throw (Error (js "Grok API error: " ++ N_digits (status response)
                        ++ js " - " ++ statusText response
                        ++ [10] ++ errorText)))
  else lift (response_json response).

Definition createChatCompletion (client : GrokClient)
           (msgs : list WireMessage) (tls : list Tool) : Net Message :=
  let data := chat_data msgs tls in
  try_catch
    (let! response := makeRequest client (js "chat/completions") data in
     (* Convert response to LangChain format *)
     let! choices := lift (get (Some response) (js "choices")) in
     let! choice := lift (get_idx choices 0) in
     let! message := lift (get choice (js "message")) in
     let! text := lift (get message (js "content")) in
     let! calls := lift (get message (js "tool_calls")) in
     let! invocations := decode_tool_calls calls in
     let! id := lift (get (Some response) (js "id")) in
     let! mdl := lift (get (Some response) (js "model")) in
     let! usg := lift (get (Some response) (js "usage")) in
     ret (AIMessage (or_default text (JStr [])) invocations
            {| md_id := id; md_model := mdl; md_usage := usg;
               md_finish_reason := undefined |}))
    (fun _ =>
       (* Fallback to a basic response if API fails *)
       ret fallback_message).

Definition imageUrlToBase64 (imageUrl : jsstring) : Net jsstring :=
  let! buffer := fetch_get net imageUrl in
  ret (js "data:image/png;base64," ++ base64 buffer).

Definition with_content (c : JValue) (m : Message) : Message :=
  {| getType := getType m; content := c; tool_calls := tool_calls m;
     tool_call_id := tool_call_id m;
     additional_kwargs := additional_kwargs m;
     response_metadata := response_metadata m |}.

Definition conditionallyUpdateToolMessageContent (message : Message)
  : Net Message :=
  match content message with
  | JStr s =>
      if has_type message "tool"
         && is_string_eq (own (additional_kwargs message) (js "type"))
                         (js "computer_call_output")
         && isUrl s
      then
        let! data := imageUrlToBase64 s in
        ret (with_content (JStr data) message)
      else ret message
  | _ => ret message
  end.

(** [Promise.all(messages.map(invoke))]: every call is started,
    in order; the result is the list of results or a failure. *)
Fixpoint invoke_all (ms : list Message) : Net (list Message) :=
  match ms with
  | [] => ret []
  | m :: ms' =>
      fun log =>
        let '(log1, r) := conditionallyUpdateToolMessageContent m log in
        let '(log2, rs) := invoke_all ms' log1 in
        (log2,
         match r, rs with
         | Ok x, Ok xs => Ok (x :: xs)
         | Ok _, Throw e => Throw e
         | Ok _, Unmodelled => Unmodelled
         | Throw e, _ => Throw e
         | Unmodelled, _ => Unmodelled
         end)
  end.

Definition callModelCustom (env : Env) (state_messages : list Message)
           (config : Configurable) : Net Message :=
  let configuration := getConfigurationWithDefaults config in
  let lastMessage := List.last (map Some state_messages) None in
  match XAI_API_KEY env with
  | None | Some [] =>
      lift (Throw (Error (js "XAI_API_KEY environment variable is required")))
  | Some xaiApiKey =>
      let grokClient := new_GrokClient xaiApiKey (XAI_BASE_URL env) in
      match lastMessage with
      | None =>
          (* isComputerCallToolMessage(undefined) *)
          lift (Throw TypeError)
      | Some lastMessage =>
          let isLastMessageComputerCallOutput :=
            isComputerCallToolMessage lastMessage in
          let tls := [createComputerUseTool (cfg_environment configuration)] in
          if isLastMessageComputerCallOutput
             && negb (cfg_zdrEnabled configuration)
          then
            (* Only pass the formatted last message *)
            let! formattedMessage :=
              conditionallyUpdateToolMessageContent lastMessage in
            let grokMessages := [convertMessageToGrokFormat formattedMessage] in
            createChatCompletion grokClient grokMessages tls
          else
            (* Format all messages *)
            let! formattedMessages := invoke_all state_messages in
            (* Add system prompt if provided *)
            let system :=
              if prompt_truthy (cfg_prompt configuration) then
                match cfg_prompt configuration with
                | Some (PromptString s) => [wire "system" (Plain (JStr s))]
                | Some (PromptMessage m) => [convertMessageToGrokFormat m]
                | None => []
                end
              else [] in
            createChatCompletion grokClient
              (system ++ map convertMessageToGrokFormat formattedMessages) tls
      end
  end.
End Platform.

End CustomCallModel.

(** ** [GrokChatModel]: the patched chat model of [grok-patch.ts] *)

Module GrokChatModel.

Record Self := {
  xaiApiKey : jsstring;
  xaiBaseUrl : jsstring;
  bound_tools : option (list JValue)
}.

(** The fields of [options] the model reads. *)
Record Options := {
  options_tools : option (list JValue);
  options_temperature : value;
  options_max_tokens : value;
  options_stream : value
}.

(** [generations[0]] and [llmOutput] of the result. *)
Record ChatResult := {
  message : Message;
  text : JValue;
  tokenUsage : value;
  llm_model : value
}.

(** Convert LangChain messages to xAI format *)
Definition xaiMessage (msg : Message) : WireMessage :=
  if has_type msg "system" then wire "system" (Plain (content msg))
  else if has_type msg "human" then wire "user" (Plain (content msg))
  else if has_type msg "ai" then wire "assistant" (Plain (content msg))
  else if has_type msg "tool" then
    (* Handle tool messages with screenshots *)
    match content msg with
    | JStr s =>
        if startsWith s (js "data:image/")
        then wire "user" (Parts [ImageUrl s])
        else wire "user" (Plain (or_default (Some (content msg)) (JStr [])))
    | _ => wire "user" (Plain (or_default (Some (content msg)) (JStr [])))
    end
  else wire "user" (Plain (or_default (Some (content msg)) (JStr []))).

Definition computer_use_preview : Tool :=
  {| tool_name := js "computer_use_preview" |}.

(** Extract tools if bound *)
Definition grokTools (self : Self) (options : Options) : list Tool :=
  let tls :=
    match bound_tools self with
    | Some t => t
    | None => default [] (options_tools options)
    end in
  if bool_decide (0 < length tls)%nat then [computer_use_preview] else [].

(** The body both request sites serialise. *)
Definition chat_body (xaiMessages : list WireMessage) (tls : list Tool)
           (options : Options) (streaming : bool) : RequestBody :=
  {| model := grok_model;
     messages := xaiMessages;
     tools := if bool_decide (0 < length tls)%nat then Some tls else None;
     tool_choice :=
       if bool_decide (0 < length tls)%nat then Some (js "auto") else None;
     temperature := js_or (options_temperature options) (Some (JNum (1 # 10)));
     max_tokens := js_or (options_max_tokens options) (Some (num 4096));
     stream := streaming |}.

Definition chat_request (self : Self) (b : RequestBody) : Request :=
  {| url := xaiBaseUrl self ++ js "/chat/completions";
     authorization := js "Bearer " ++ xaiApiKey self;
     request_body := b |}.

Definition api_error (response : Response) : Exn :=
  Error (js "Grok API error: " ++ N_digits (status response)
         ++ js " - " ++ statusText response).

Definition demo_message (now : N) : Message :=
  AIMessage
    (* the text opens with the rocket emoji U+1F680 *)
    (JStr ([55357; 56960] ++ js " Demo Mode: Grok-2-Vision-1212 integration is ready! In production, this would use your xAI API key to process requests. The system now supports computer control, bash commands, and real-time streaming. I'll take a screenshot to show the sandbox environment is working."))
    [{| tc_id := Some (str "demo_screenshot");
        tc_name := Some (str "computer_use_preview");
        tc_args := screenshot_args; tc_argsString := None |}]
    {| md_id := Some (JStr (js "demo_response_" ++ N_digits now));
       md_model := Some (JStr grok_model);
       md_usage := Some (usage 100 150 250);
       md_finish_reason := undefined |}.

Definition fallbackMessage : Message :=
  AIMessage
    (str "I'm having trouble connecting to the Grok API. Let me take a screenshot to see the current state.")
    [{| tc_id := Some (str "fallback_screenshot");
        tc_name := Some (str "computer_use_preview");
        tc_args := screenshot_args; tc_argsString := None |}]
    no_metadata.

Definition fallback_result : ChatResult :=
  {| message := fallbackMessage; text := content fallbackMessage;
     tokenUsage := Some (usage 0 50 50);
     llm_model := Some (JStr grok_model) |}.

(** No real API key: the model answers with the demo message. *)
Definition demo_mode (self : Self) : bool :=
  bool_decide (xaiApiKey self = [])
  || jsstring_eqb (xaiApiKey self) (js "xai-demo-key-placeholder").

(** [options.stream !== false && runManager?.onLLMNewToken] *)
Definition useStreaming (options : Options) (onLLMNewToken : bool) : bool :=
  negb (match options_stream options with
        | Some (JBool false) => true
        | _ => false
        end)
  && onLLMNewToken.

Section Platform.
Variable net : Network.
(** [Date.now()] *)
Variable now : N.

Definition _streamGenerate (self : Self) (xaiMessages : list WireMessage)
           (tls : list Tool) (options : Options) (onLLMNewToken : bool)
  : Net ChatResult :=
  (* Make streaming request to xAI *)
  let! response :=
    fetch_post net (chat_request self (chat_body xaiMessages tls options true)) in
  if negb (ok response) then lift (Throw (api_error response))
  else
    match body response with
    | None =>
        lift (Throw (Error (js "No response body available for streaming")))
    | Some reader =>
        match GrokPatch.read_loop onLLMNewToken (chunks reader) []
                {| GrokPatch.acc := initial_acc; GrokPatch.warnings := [] |} with
        | None => lift Unmodelled
        | Some st =>
            if aborted reader then lift (Throw NetworkError)
            else
              (* Final message *)
              let aiMessage := GrokPatch.final_message (GrokPatch.acc st) in
              ret {| message := aiMessage; text := content aiMessage;
                     tokenUsage :=
                       Some (or_default
                               (md_usage (responseMetadata (GrokPatch.acc st)))
                               (usage 0 0 0));
                     llm_model := Some (JStr grok_model) |}
        end
    end.

(** The request and the decoding of the non-streaming path: the
    part of the [try] block after the streaming decision. *)
Definition generate_once (self : Self) (xaiMessages : list WireMessage)
           (tls : list Tool) (options : Options) : Net ChatResult :=
  (* Make request to xAI (non-streaming) *)
  let! response :=
    fetch_post net (chat_request self (chat_body xaiMessages tls options false)) in
  if negb (ok response) then lift (Throw (api_error response))
  else
    let! data := lift (response_json response) in
    let! choices := lift (get (Some data) (js "choices")) in
    let! choice := lift (get_idx choices 0) in
    let! msg := lift (get choice (js "message")) in
    (* Convert back to LangChain format *)
    let! txt := lift (get msg (js "content")) in
    let! calls := lift (get msg (js "tool_calls")) in
    let! invocations := decode_tool_calls calls in
    let! id := lift (get (Some data) (js "id")) in
    let! mdl := lift (get (Some data) (js "model")) in
    let! usg := lift (get (Some data) (js "usage")) in
    let! finish := lift (get choice (js "finish_reason")) in
    let aiMessage :=
      AIMessage (or_default txt (JStr [])) invocations
        {| md_id := id; md_model := mdl; md_usage := usg;
           md_finish_reason := finish |} in
    ret {| message := aiMessage; text := content aiMessage;
           tokenUsage := usg; llm_model := mdl |}.

(** [_generate] of the first copy of the class.  The translation of
    the messages, the tool list and the demo answer cannot throw;
    the streaming call is returned without being awaited, so its
    failure is not caught by the [catch] block. *)
Definition _generate (self : Self) (msgs : list Message)
           (options : Options) (onLLMNewToken : bool) : Net ChatResult :=
  let xaiMessages := map xaiMessage msgs in
  let tls := grokTools self options in
  if demo_mode self then
    (* For demo purposes, if no real API key is available *)
    let demoMessage := demo_message now in
    ret {| message := demoMessage; text := content demoMessage;
           tokenUsage := Some (usage 100 150 250);
           llm_model := Some (JStr grok_model) |}
  else
    (* Decide whether to use streaming based on options *)
    if useStreaming options onLLMNewToken
    then _streamGenerate self xaiMessages tls options onLLMNewToken
    else try_catch (generate_once self xaiMessages tls options)
                   (fun _ => ret fallback_result).

(** [_generate] of the second copy of the class: no demo answer
    and no streaming. *)
Definition _generate_strict (self : Self) (msgs : list Message)
           (options : Options) : Net ChatResult :=
  let xaiMessages := map xaiMessage msgs in
  let tls := grokTools self options in
  try_catch (generate_once self xaiMessages tls options)
            (fun _ => ret fallback_result).
End Platform.

End GrokChatModel.

(** * Specification vocabulary and test data *)

(** The predicates the properties are stated with, and the concrete
    messages, responses and streams they are run on. *)

(** ** The monad *)

(** A computation that leaves the state alone. *)
Definition stateless {S A} (m : M S A) : Prop := forall s, (m s).1 = s.

(** ** The request log *)

(** The sampling fields of a request body follow [options] with the
    defaults 0.1 and 4096. *)
Definition sampled (options : GrokChatModel.Options) (b : RequestBody) : Prop :=
  temperature b
  = (if truthy (GrokChatModel.options_temperature options)
     then GrokChatModel.options_temperature options
     else Some (JNum (1 # 10)))
  /\ max_tokens b
    = (if truthy (GrokChatModel.options_max_tokens options)
       then GrokChatModel.options_max_tokens options
       else Some (num 4096))
  /\ (GrokChatModel.options_temperature options = Some (num 0) ->
      temperature b = Some (JNum (1 # 10)))
  /\ (GrokChatModel.options_max_tokens options = Some (num 0) ->
      max_tokens b = Some (num 4096)).

(** Test data: a network that is down, a model with a key, a caller
    that asks for temperature 0. *)
Definition network_down : Network :=
  {| http_get := fun _ => None; http_post := fun _ => None |}.

Definition grok_self : GrokChatModel.Self :=
  {| GrokChatModel.xaiApiKey := js "xai-key";
     GrokChatModel.xaiBaseUrl := js "https://api.x.ai/v1";
     GrokChatModel.bound_tools := None |}.

Definition zero_temperature : GrokChatModel.Options :=
  {| GrokChatModel.options_tools := None;
     GrokChatModel.options_temperature := Some (num 0);
     GrokChatModel.options_max_tokens := undefined;
     GrokChatModel.options_stream := undefined |}.

(** ** Tool results on the wire *)

Definition tool_wire (m : Message) : WireMessage :=
  {| role := js "tool"; wire_content := Plain (content m);
     wire_tool_calls := None;
     wire_tool_call_id := Some (tool_call_id m) |}.

Definition click_result : Message :=
  {| getType := js "tool"; content := str "clicked";
     tool_calls := []; tool_call_id := Some (str "call_1");
     additional_kwargs := []; response_metadata := no_metadata |}.

Definition screenshot_result : Message :=
  {| getType := js "tool"; content := str "data:image/png;base64,AAAA";
     tool_calls := []; tool_call_id := Some (str "call_2");
     additional_kwargs := []; response_metadata := no_metadata |}.

(** ** The non-streaming call *)

(** The three failures of a call: the request is rejected, the status
    is not a success, or the body is not a JSON text. *)
Definition call_failed (o : option Response) : bool :=
  match o with
  | None => true
  | Some r =>
      negb (ok r)
      || match response_json r with Ok _ => false | _ => true end
  end.

(** The fallback messages ask for a screenshot and nothing else. *)
Definition asks_for_screenshot (m : Message) : Prop :=
  has_type m "ai" = true
  /\ (exists s, content m = JStr s /\ s <> [])
  /\ map tc_args (tool_calls m)
     = [JObj [(js "action", JObj [(js "type", str "screenshot")])]].

(** Test data: a provider that answers every request with status 500. *)
Definition network_500 : Network :=
  {| http_get := fun _ => None;
     http_post := fun _ =>
       Some {| ok := false; status := 500;
               statusText := js "Internal Server Error"; body := None |} |}.

(** ** Decoding the tool invocations of a response *)

(** [choices[0].message.tool_calls] of a response, when it is an
    array. *)
Definition response_tool_calls (data : JValue) : option (list JValue) :=
  match get (Some data) (js "choices") with
  | Ok choices =>
      match get_idx choices 0 with
      | Ok choice =>
          match get choice (js "message") with
          | Ok msg =>
              match get msg (js "tool_calls") with
              | Ok (Some (JArr calls)) => Some calls
              | _ => None
              end
          | _ => None
          end
      | _ => None
      end
  | _ => None
  end.

(** [tc.function.arguments] *)
Definition call_arguments (tc : JValue) : value :=
  match get (Some tc) (js "function") with
  | Ok fn => match get fn (js "arguments") with Ok a => a | _ => undefined end
  | _ => undefined
  end.

(** A value that is a text, or falsy. *)
Definition text_or_absent (a : value) : bool :=
  match a with
  | Some (JStr _) => true
  | v => negb (truthy v)
  end.

(** The arguments of a call are a text, or absent. *)
Definition arguments_are_text (tc : JValue) : bool :=
  text_or_absent (call_arguments tc).

(** Test data: a response whose tool call has truncated arguments. *)
Definition truncated_arguments_body : jsstring :=
  jq "{'id':'r1','model':'grok-2-vision-1212','choices':[{'message':{'content':'ok','tool_calls':[{'id':'c1','function':{'name':'computer_use','arguments':'{\'action\':'}}]},'finish_reason':'tool_calls'}]}".

Definition truncated_arguments_response : Response :=
  {| ok := true; status := 200; statusText := js "OK";
     body := Some {| chunks := [truncated_arguments_body]; aborted := false |} |}.

Definition network_truncated : Network :=
  {| http_get := fun _ => None;
     http_post := fun _ => Some truncated_arguments_response |}.

Definition truncated_call : JValue :=
  JObj [(js "id", str "c1");
        (js "function",
         JObj [(js "name", str "computer_use");
               (js "arguments", JStr (jq "{'action':"))])].

(** ** Resolving screenshot URLs and selecting the history *)

(** The guard of [conditionallyUpdateToolMessageContent]. *)
Definition computer_call_url (isUrl : jsstring -> bool) (m : Message) : bool :=
  has_type m "tool"
  && is_string_eq (own (additional_kwargs m) (js "type"))
                  (js "computer_call_output")
  && match content m with JStr s => isUrl s | _ => false end.

(** The URLs [invoke_all] fetches. *)
Definition resolved_urls (isUrl : jsstring -> bool) (ms : list Message)
  : list jsstring :=
  omap (fun m =>
          if computer_call_url isUrl m
          then match content m with JStr s => Some s | _ => None end
          else None) ms.

(** Test data: a URL parser that accepts [https] URLs, a network that
    serves four bytes for every URL and status 500 for every request,
    an environment with an API key, the default configuration, and two
    tool results whose content is a screenshot URL. *)
Definition https_url (s : jsstring) : bool := startsWith s (js "https://").

Definition network_images : Network :=
  {| http_get := fun _ => Some [137; 80; 78; 71];
     http_post := http_post network_500 |}.

Definition env_with_key : CustomCallModel.Env :=
  {| CustomCallModel.XAI_API_KEY := Some (js "xai-key");
     CustomCallModel.XAI_BASE_URL := None |}.

Definition default_config : CustomCallModel.Configurable :=
  {| CustomCallModel.zdrEnabled := None;
     CustomCallModel.environment := None;
     CustomCallModel.prompt := None |}.

Definition shot_url : jsstring := js "https://example.com/shot.png".

Definition computer_call_result : Message :=
  {| getType := js "tool"; content := JStr shot_url;
     tool_calls := []; tool_call_id := Some (str "call_3");
     additional_kwargs := [(js "type", str "computer_call_output")];
     response_metadata := no_metadata |}.

Definition plain_url_result : Message :=
  {| getType := js "tool"; content := JStr shot_url;
     tool_calls := []; tool_call_id := Some (str "call_3");
     additional_kwargs := []; response_metadata := no_metadata |}.

Definition test_client : CustomCallModel.GrokClient :=
  CustomCallModel.new_GrokClient (js "xai-key") None.

(** The system messages [callModelCustom] puts before the history. *)
Definition system_messages (p : option CustomCallModel.Prompt) : list WireMessage :=
  match p with
  | Some (CustomCallModel.PromptString s) =>
      if bool_decide (s = []) then [] else [wire "system" (Plain (JStr s))]
  | Some (CustomCallModel.PromptMessage m) =>
      [CustomCallModel.convertMessageToGrokFormat m]
  | None => []
  end.

(** Test data: the library predicate as its documentation describes it,
    and a history that ends with a computer-call result. *)
Definition is_computer_call (m : Message) : bool :=
  has_type m "tool"
  && is_string_eq (own (additional_kwargs m) (js "type"))
                  (js "computer_call_output").

Definition human_request : Message :=
  {| getType := js "human"; content := str "open example.com";
     tool_calls := []; tool_call_id := undefined;
     additional_kwargs := []; response_metadata := no_metadata |}.

(** A download that succeeds. *)
Definition fetched (net : Network) (u : jsstring) : bool :=
  match http_get net u with Some _ => true | None => false end.

(** The message [conditionallyUpdateToolMessageContent] returns when
    the download it makes, if any, succeeds. *)
Definition resolved (isUrl : jsstring -> bool) (net : Network) (m : Message)
  : Message :=
  if computer_call_url isUrl m then
    match content m with
    | JStr s =>
        match http_get net s with
        | Some bytes =>
            CustomCallModel.with_content
              (JStr (js "data:image/png;base64," ++ base64 bytes)) m
        | None => m
        end
    | _ => m
    end
  else m.

(** The retention flag of the caller: on when [zdrEnabled] is given
    and true. *)
Definition retention_on (config : CustomCallModel.Configurable) : bool :=
  match CustomCallModel.zdrEnabled config with
  | Some true => true
  | _ => false
  end.

(** [callModelCustom] sends the last message alone: the library
    predicate accepts it and the retention flag is off. *)
Definition only_last (isCC : Message -> bool)
           (config : CustomCallModel.Configurable) (msgs : list Message) : bool :=
  match last msgs with
  | Some l => isCC l && negb (retention_on config)
  | None => false
  end.

(** The part of the history [callModelCustom] sends, and the system
    messages before it. *)
Definition sent_history (isCC : Message -> bool)
           (config : CustomCallModel.Configurable) (msgs : list Message)
  : list Message :=
  if only_last isCC config msgs
  then match last msgs with Some l => [l] | None => [] end
  else msgs.

Definition sent_prompt (isCC : Message -> bool)
           (config : CustomCallModel.Configurable) (msgs : list Message)
  : list WireMessage :=
  if only_last isCC config msgs then []
  else system_messages (CustomCallModel.prompt config).

(** The chat request of [callModelCustom] for some wire messages. *)
Definition custom_request (env : CustomCallModel.Env) (key : jsstring)
           (ws : list WireMessage) : Request :=
  {| url := default (js "https://api.x.ai/v1") (CustomCallModel.XAI_BASE_URL env)
            ++ js "/chat/completions";
     authorization := js "Bearer " ++ key;
     request_body :=
       {| model := js "grok-2-vision-1212";
          messages := ws;
          tools := Some [{| tool_name := js "computer_use" |}];
          tool_choice := Some (js "auto");
          temperature := Some (JNum (1 # 10));
          max_tokens := Some (num 4096);
          stream := false |} |}.

(** ** Splitting the arguments of a streamed tool call *)

(** An event line that carries the given tool-call fragments. *)
Definition tool_call_line (fragments : string) : jsstring :=
  jq "data: {'choices':[{'delta':{'tool_calls':[" ++ jq fragments
  ++ jq "]}}]}" ++ [10].

(** The arguments [{"a":12}] in one fragment, and split in three. *)
Definition whole_arguments : list jsstring :=
  [tool_call_line "{'index':0,'id':'c1','function':{'name':'computer_use','arguments':'{\'a\':12}'}}"].

Definition split_arguments : list jsstring :=
  [tool_call_line "{'index':0,'id':'c1','function':{'name':'computer_use','arguments':'{\'a\':'}}";
   tool_call_line "{'index':0,'function':{'arguments':'1'}}";
   tool_call_line "{'index':0,'function':{'arguments':'2}'}}"].

Definition final_arguments (r : option (Message * GrokPatch.State))
  : option (list JValue) :=
  (fun ms => map tc_args (tool_calls ms.1)) <$> r.

(** ** The final message *)

(** A stream whose only fragment carries an index and nothing else. *)
Definition index_only_stream : list jsstring :=
  [tool_call_line "{'index':0}"; js "data: [DONE]" ++ [10]].

(** ** A malformed event line *)

(** The payload of a data line. *)
Definition payload (line : jsstring) : jsstring := slice (trim line) 6.


(** The text before a position ends a line (or is empty). *)
Definition at_line_start (before : jsstring) : Prop :=
  List.last (split 10 before) [] = [].

(** The buffer of the read loop after some chunks. *)
Fixpoint buffer_after (buffer : jsstring) (chunks : list jsstring) : jsstring :=
  match chunks with
  | [] => buffer
  | chunk :: chunks' =>
      buffer_after (List.last (split 10 (buffer ++ chunk)) []) chunks'
  end.


(** The read loop without the final yield. *)
Fixpoint read_chunks (chunks : list jsstring) (buffer : jsstring)
    (st : StreamingClient.State) : option (StreamingClient.State * Control) :=
  match chunks with
  | [] => Some (st, Continue)
  | chunk :: chunks' =>
      let lines := split 10 (buffer ++ chunk) in
      match StreamingClient.for_lines (removelast lines) st with
      | Some (st', Continue) => read_chunks chunks' (List.last lines []) st'
      | r => r
      end
  end.

Definition finish (r : StreamingClient.State * Control) : StreamingClient.State :=
  match r.2 with
  | Continue =>
      {| StreamingClient.acc :=
           (StreamingClient.yield_snapshot (StreamingClient.acc r.1)).1;
         StreamingClient.warnings := StreamingClient.warnings r.1 |}
  | Break => r.1
  end.

(** Test data: two content events and a truncated one between them. *)
Definition content_line (text : string) : jsstring :=
  jq "data: {'choices':[{'delta':{'content':'" ++ jq text ++ jq "'}}]}".

Definition truncated_line : jsstring := jq "data: {'choices':[{'delta':{'conte".

(** ** Fragments of one tool call *)

(** The fields of a tool-call fragment as the loop body reads them. *)
Definition field (d : JValue) (k : string) : value :=
  match get (Some d) (js k) with Ok v => v | _ => undefined end.

Definition fragment_index (d : JValue) : Res nat :=
  match get (Some d) (js "index") with
  | Ok i => as_index (js_or i (Some (num 0)))
  | Throw e => Throw e
  | Unmodelled => Unmodelled
  end.

Definition fragment_id (d : JValue) : value := field d "id".

Definition fragment_function (d : JValue) (k : string) : value :=
  match field d "function" with
  | Some fn => if truthy (Some fn) then field fn k else undefined
  | None => undefined
  end.

Definition fragment_name (d : JValue) : value := fragment_function d "name".

Definition fragment_arguments (d : JValue) : value := fragment_function d "arguments".

(** A fragment for the invocation at [i] whose arguments, if any, are a
    text. *)
Definition fragment_at (i : nat) (d : JValue) : Prop :=
  fragment_index d = Ok i /\ text_or_absent (fragment_arguments d) = true.

Section FragmentUpdate.
(** What a fragment does to the invocation it addresses, for any
    update [merge] of one invocation by one fragment. *)
Variable merge : JValue -> ToolCall -> ToolCall.
Variable i : nat.
Variables ID NAME : value.

Definition apply_fragment (calls : list ToolCall) (d : JValue) : list ToolCall :=
  alter (merge d) i (grow i calls).

(** One invocation at [i], placeholders below it, and the id and
    name seen so far. *)
Definition converging (seen_id seen_name : bool) (calls : list ToolCall) : Prop :=
  length calls = S i
  /\ (forall j, (j < i)%nat -> calls !! j = Some empty_tool_call)
  /\ exists tc,
      calls !! i = Some tc
      /\ tc_id tc = (if seen_id then ID else Some (JStr []))
      /\ tc_name tc = (if seen_name then NAME else Some (JStr [])).

End FragmentUpdate.

(** ** The assembler on well-formed fragments *)

(** The update of the addressed invocation by a fragment: the id,
    then the name and the arguments of [function]. *)
Definition id_merge (d : JValue) (tc : ToolCall) : ToolCall :=
  if truthy (fragment_id d) then with_id (fragment_id d) tc else tc.

Definition name_merge (d : JValue) (tc : ToolCall) : ToolCall :=
  if truthy (fragment_name d) then with_name (fragment_name d) tc else tc.

(** The arguments step of [_streamGenerate]. *)
Definition grok_arguments_merge (d : JValue) (tc : ToolCall) : ToolCall :=
  match fragment_arguments d with
  | Some (JStr fragment) =>
      if bool_decide (fragment = []) then tc
      else
        match JSON_parse fragment with
        | Some args => with_args (spread (tc_args tc) args) tc
        | None =>
            let argsString := default [] (tc_argsString tc) ++ fragment in
            let tc' := with_argsString argsString tc in
            match JSON_parse argsString with
            | Some args => with_args args tc'
            | None => tc'
            end
        end
  | _ => tc
  end.

Definition grok_merge (d : JValue) (tc : ToolCall) : ToolCall :=
  grok_arguments_merge d (name_merge d (id_merge d tc)).

(** The fields of a stream event as [on_event] reads them:
    [choices[0]] and [choices[0].delta.k]. *)
Definition event_choice (ev : JValue) : value :=
  match field ev "choices" with
  | Some choices =>
      if truthy (Some choices)
      then match get_idx (Some choices) 0 with Ok c => c | _ => undefined end
      else undefined
  | None => undefined
  end.

Definition event_delta (ev : JValue) (k : string) : value :=
  match event_choice ev with
  | Some choice =>
      if truthy (Some choice)
      then match field choice "delta" with
           | Some delta => field delta k
           | None => undefined
           end
      else undefined
  | None => undefined
  end.

(** A line that carries the event [ev]. *)
Definition event_line (line : jsstring) (ev : JValue) : Prop :=
  (10 ∉ line)
  /\ startsWith (trim line) (js "data: ") = true
  /\ JSON_parse (payload line) = Some ev.

(** The sentinel line. *)
Definition sentinel_line (line : jsstring) : bool :=
  startsWith (trim line) (js "data: ")
  && jsstring_eqb (payload line) (js "[DONE]").

(** Fragments for one index, the first with neither id nor name, the
    later ones bringing the id [ID] and the name [NAME]. *)
Definition one_call_fragments (first : JValue) (rest : list JValue)
           (ID NAME : value) : Prop :=
  truthy (fragment_id first) = false /\ truthy (fragment_name first) = false
  /\ truthy ID = true /\ truthy NAME = true
  /\ Forall (fun d => truthy (fragment_id d) = true -> fragment_id d = ID) rest
  /\ Exists (fun d => fragment_id d = ID) rest
  /\ Forall (fun d => truthy (fragment_name d) = true -> fragment_name d = NAME) rest
  /\ Exists (fun d => fragment_name d = NAME) rest.

(** *** The generator of the streaming client on the same fragments *)

(** The arguments step of [streamChatCompletion] and its outcome. *)
Definition client_arguments_merge (d : JValue) (tc : ToolCall) : ToolCall :=
  match fragment_arguments d with
  | Some (JStr fragment) =>
      if bool_decide (fragment = []) then tc
      else
        match JSON_parse fragment with
        | Some args => with_args (spread (tc_args tc) args) tc
        | None => tc
        end
  | _ => tc
  end.

Definition client_outcome (d : JValue) : Res unit :=
  match fragment_arguments d with
  | Some (JStr fragment) =>
      if bool_decide (fragment = []) then Ok tt
      else
        match JSON_parse fragment with
        | Some _ => Ok tt
        | None => Throw SyntaxError
        end
  | _ => Ok tt
  end.

Definition client_merge (d : JValue) (tc : ToolCall) : ToolCall :=
  client_arguments_merge d (name_merge d (id_merge d tc)).

(** Test data: the fragments of one invocation, the first with the
    index alone, as event lines; the text cut into three chunks. *)
Definition fragment_line (fragment : string) : jsstring :=
  jq "data: {'id':'r1','choices':[{'delta':{'tool_calls':[" ++ jq fragment
  ++ jq "]}}]}".

Definition screenshot_lines : list jsstring :=
  [fragment_line "{'index':0}";
   fragment_line "{'index':0,'id':'c1'}";
   fragment_line "{'index':0,'function':{'name':'computer_use'}}";
   fragment_line "{'index':0,'function':{'arguments':'{\'action\':{\'typ'}}";
   fragment_line "{'index':0,'function':{'arguments':'e\':\'screenshot\'}}'}}"].

Definition screenshot_text : jsstring :=
  concat (map (fun l => l ++ [10]) screenshot_lines).

Definition screenshot_chunks : list jsstring :=
  [take 50 screenshot_text; take 70 (drop 50 screenshot_text);
   drop 120 screenshot_text].

Definition screenshot_events : list JValue :=
  Eval vm_compute in omap (fun l => JSON_parse (payload l)) screenshot_lines.

Definition screenshot_fragments : list JValue :=
  Eval vm_compute in
    omap (fun ev => match event_delta ev "tool_calls" with
                    | Some (JArr [d]) => Some d
                    | _ => None
                    end) screenshot_events.

(** * The rest of the adapter

    The request side of the streaming client, the streaming model
    call, the construction of the chat model with the prototype patch,
    and the agent factory.  Console output of these functions is not
    modelled. *)

(** What a consumer sees of an asynchronous generator: the messages it
    has yielded, and how it ended. *)
Record Generated := { yields : list Message; outcome : Res unit }.

(** ** [GrokStreamingClient]: the request and the reader *)

Module GrokStreamingClient.

Record Self := { apiKey : jsstring; baseURL : jsstring }.

(** [constructor(apiKey, baseURL = <the xAI endpoint>)] *)
Definition new_GrokStreamingClient (key : jsstring) (base : option jsstring) : Self :=
  {| apiKey := key; baseURL := default (js "https://api.x.ai/v1") base |}.

(** [const data = { model, messages, tools, tool_choice, stream: true, ... }] *)
Definition stream_data (msgs : list WireMessage) (tls : list Tool) : RequestBody :=
  {| model := grok_model;
     messages := msgs;
     tools := if bool_decide (0 < length tls)%nat then Some tls else None;
     tool_choice :=
       if bool_decide (0 < length tls)%nat then Some (js "auto") else None;
     stream := true;
     temperature := Some (JNum (1 # 10));
     max_tokens := Some (num 4096) |}.

Definition stream_request (self : Self) (data : RequestBody) : Request :=
  {| url := baseURL self ++ js "/chat/completions";
     authorization := js "Bearer " ++ apiKey self;
     request_body := data |}.

Definition thrown (e : Exn) : Generated := {| yields := []; outcome := Throw e |}.

Section Platform.
Variable net : Network.

(** The generator, from the request to its end.  A rejected read
    leaves through the [finally] block with what was yielded before
    it; a run that leaves the model has no yields recorded. *)
Definition streamChatCompletion (self : Self) (msgs : list WireMessage)
           (tls : list Tool) (log : list NetCall) : list NetCall * Generated :=
  let request := stream_request self (stream_data msgs tls) in
  (log ++ [POST request],
   match http_post net request with
   | None => thrown NetworkError
   | Some response =>
       if negb (ok response) then
         thrown (Error (js "Grok API error: " ++ N_digits (status response)
                        ++ js " - " ++ statusText response))
       else
         match body response with
         | None => thrown (Error (js "No response body available for streaming"))
         | Some reader =>
             match read_chunks (chunks reader) []
                     {| StreamingClient.acc := initial_acc;
                        StreamingClient.warnings := [] |} with
             | None => {| yields := []; outcome := Unmodelled |}
             | Some (st, Break) =>
                 {| yields := yielded (StreamingClient.acc st); outcome := Ok tt |}
             | Some (st, Continue) =>
                 if aborted reader then
                   {| yields := yielded (StreamingClient.acc st);
                      outcome := Throw NetworkError |}
                 else
                   (* Final message if not already yielded *)
                   {| yields :=
                        yielded (StreamingClient.acc (finish (st, Continue)));
                      outcome := Ok tt |}
             end
         end
   end).
End Platform.

End GrokStreamingClient.

(** ** The streaming model call: [callModelStreamingCustom] *)

Module StreamingCallModel.

(** Convert messages to Grok format (simplified for now) *)
Definition streaming_message (msg : Message) : WireMessage :=
  if has_type msg "human" then wire "user" (Plain (content msg))
  else if has_type msg "ai" then wire "assistant" (Plain (content msg))
  else if has_type msg "system" then wire "system" (Plain (content msg))
  else wire "user" (Plain (or_default (Some (content msg)) (JStr []))).

(** [typeof prompt === "string" ? prompt : prompt.content] *)
Definition prompt_content (p : CustomCallModel.Prompt) : JValue :=
  match p with
  | CustomCallModel.PromptString s => JStr s
  | CustomCallModel.PromptMessage m => content m
  end.

(** The tool literal of the call; its name is [computer_use]. *)
Definition computer_use : Tool := {| tool_name := js "computer_use" |}.

(** [messages.unshift(<system prompt>)] when a prompt is configured. *)
Definition with_prompt (p : option CustomCallModel.Prompt)
           (msgs : list WireMessage) : list WireMessage :=
  match p with
  | Some q =>
      if CustomCallModel.prompt_truthy p
      then wire "system" (Plain (prompt_content q)) :: msgs
      else msgs
  | None => msgs
  end.

Section Platform.
Variable net : Network.

(** [config?.configurable] is spread over the defaults; the prompt is
    the only field read.  Each message of the client is yielded as
    the [messages] field of an update. *)
Definition callModelStreamingCustom (env : CustomCallModel.Env)
           (state_messages : list Message)
           (config : option CustomCallModel.Configurable)
           (log : list NetCall) : list NetCall * Generated :=
  let prompt := config ≫= CustomCallModel.prompt in
  match CustomCallModel.XAI_API_KEY env with
  | None | Some [] =>
      (log,
       GrokStreamingClient.thrown
         (Error (js "XAI_API_KEY environment variable is required")))
  | Some xaiApiKey =>
      let grokClient :=
        GrokStreamingClient.new_GrokStreamingClient xaiApiKey
          (CustomCallModel.XAI_BASE_URL env) in
      let messages := map streaming_message state_messages in
      (* Add system prompt if provided *)
      let messages := with_prompt prompt messages in
      GrokStreamingClient.streamChatCompletion net grokClient messages
        [computer_use] log
  end.
End Platform.

End StreamingCallModel.

(** ** The construction of [GrokChatModel] and [patchOpenAIWithGrok] *)

Module OpenAIPatch.

(** The field of the constructor's [config] the model reads. *)
Record Config := { config_xaiApiKey : option jsstring }.

(** [config = {}] *)
Definition no_config : Config := {| config_xaiApiKey := None |}.

(** [a || b] for a string [a] that may be absent. *)
Definition string_or (a : option jsstring) (b : jsstring) : jsstring :=
  match a with
  | Some (c :: s) => c :: s
  | _ => b
  end.

(** The constructor of the first copy of the class; the constructor
    of the base class is taken to return normally, and [bound] is the
    field of that name the framework holds for the instance. *)
Definition new_GrokChatModel (env : CustomCallModel.Env) (config : Config)
           (bound : option (list JValue)) : GrokChatModel.Self :=
  {| GrokChatModel.xaiApiKey :=
       string_or (CustomCallModel.XAI_API_KEY env)
                 (string_or (config_xaiApiKey config) []);
     GrokChatModel.xaiBaseUrl :=
       string_or (CustomCallModel.XAI_BASE_URL env) (js "https://api.x.ai/v1");
     GrokChatModel.bound_tools := bound |}.

(** The constructor of the second copy: no key is an error. *)
Definition new_GrokChatModel_strict (env : CustomCallModel.Env) (config : Config)
           (bound : option (list JValue)) : Res GrokChatModel.Self :=
  let self := new_GrokChatModel env config bound in
  if bool_decide (GrokChatModel.xaiApiKey self = [])
  then Throw (Error (js "XAI_API_KEY is required for Grok model"))
  else Ok self.

Definition _llmType : jsstring := js "grok-2-vision-1212".

Section Platform.
Variable net : Network.
Variable now : N.

(** [ChatOpenAI.prototype._generate] once [patchOpenAIWithGrok] (first
    copy) has run: a fresh model, built without a configuration,
    handles the call; the instance the method is called on is not
    read. *)
Definition patched_generate (env : CustomCallModel.Env)
           (bound : option (list JValue)) (msgs : list Message)
           (options : GrokChatModel.Options) (onLLMNewToken : bool)
  : Net GrokChatModel.ChatResult :=
  let grokModel := new_GrokChatModel env no_config bound in
  GrokChatModel._generate net now grokModel msgs options onLLMNewToken.
End Platform.

End OpenAIPatch.

(** ** The agent factory: [createCustomCua] *)

Module CustomCua.

(** The parameters that are data; the two node callbacks, the
    screenshot uploader and the state modifier are handed to the
    framework and are not modelled. *)
Record CreateCustomCuaParams := {
  xaiApiKey : option jsstring;
  scrapybaraApiKey : option jsstring;
  timeoutHours : option Q;
  zdrEnabled : option bool;
  recursionLimit : option N;
  authStateId : option jsstring;
  environment : option jsstring;
  prompt : option CustomCallModel.Prompt
}.

(** What [createCua] is called with. *)
Record CuaArguments := {
  cua_scrapybaraApiKey : option jsstring;
  cua_timeoutHours : Q;
  cua_zdrEnabled : bool;
  cua_recursionLimit : N;
  cua_authStateId : option jsstring;
  cua_environment : jsstring;
  cua_prompt : option CustomCallModel.Prompt
}.

(** The factory up to the call of the framework's [createCua]: the
    environment it leaves, and the arguments of that call. *)
Definition createCustomCua (params : CreateCustomCuaParams)
           (env : CustomCallModel.Env) : CustomCallModel.Env * CuaArguments :=
  (match xaiApiKey params with
   | Some (c :: key) =>
       (* Set environment variables if provided *)
       {| CustomCallModel.XAI_API_KEY := Some (c :: key);
          CustomCallModel.XAI_BASE_URL := CustomCallModel.XAI_BASE_URL env |}
   | _ => env
   end,
   {| cua_scrapybaraApiKey := scrapybaraApiKey params;
      cua_timeoutHours := default 1%Q (timeoutHours params);
      cua_zdrEnabled := default false (zdrEnabled params);
      cua_recursionLimit := default 100 (recursionLimit params);
      cua_authStateId := authStateId params;
      cua_environment := default (js "web") (environment params);
      cua_prompt := prompt params |}).

End CustomCua.

(** ** Vocabulary of the further properties *)

(** The state a read loop starts from. *)
Definition grok_start : GrokPatch.State :=
  {| GrokPatch.acc := initial_acc; GrokPatch.warnings := [] |}.

Definition client_start : StreamingClient.State :=
  {| StreamingClient.acc := initial_acc; StreamingClient.warnings := [] |}.

(** Test data: an event that carries an id and the usage but no
    choice, as a provider sends it at the end of a stream. *)
Definition usage_only_line : jsstring :=
  jq "data: {'id':'r9','choices':[],'usage':{'total_tokens':7}}".

Definition usage_only_event : JValue :=
  Eval vm_compute in default JNull (JSON_parse (payload usage_only_line)).

(** Test data: the sentinel line. *)
Definition done_line : jsstring := js "data: [DONE]".

(** A computation on the accumulators that keeps an invariant,
    whether it returns or throws. *)
Definition keeps {A} (I : Acc -> Prop) (m : M Acc A) : Prop :=
  forall a, I a -> I (m a).1.

(** The tokens handed to the callback so far: none of them empty,
    and together the accumulated content; none at all without a
    callback. *)
Definition tokens_match (onLLMNewToken : bool) (a : Acc) : Prop :=
  if onLLMNewToken
  then concat (tokens a) = accumulatedContent a /\ Forall (fun t => t <> []) (tokens a)
  else tokens a = [].

(** A message extends another: its content continues the other's and
    it holds at least as many invocations. *)
Definition extends (m1 m2 : Message) : Prop :=
  exists p q,
    content m1 = JStr p /\ content m2 = JStr q /\ p `prefix_of` q
    /\ (length (tool_calls m1) <= length (tool_calls m2))%nat.

(** The snapshot [yield] makes of the accumulators. *)
Definition snapshot (a : Acc) : Message :=
  AIMessage (JStr (accumulatedContent a)) (accumulatedToolCalls a)
            (responseMetadata a).

(** Every message of the list extends the ones before it. *)
Definition growing (ms : list Message) : Prop :=
  forall i j m1 m2,
    (i <= j)%nat -> ms !! i = Some m1 -> ms !! j = Some m2 -> extends m1 m2.

(** The messages yielded so far grow, and a snapshot taken now would
    extend them all. *)
Definition yields_grow (a : Acc) : Prop :=
  growing (yielded a) /\ Forall (fun m => extends m (snapshot a)) (yielded a).

(** A loop result of the generator that respects [I]: the
    accumulators satisfy it, or, when the loop was left at the
    sentinel, did so before the last message was yielded. *)
Definition ended (I : Acc -> Prop) (r : StreamingClient.State * Control) : Prop :=
  match r.2 with
  | Continue => I (StreamingClient.acc r.1)
  | Break =>
      exists a, I a /\ StreamingClient.acc r.1 = (StreamingClient.yield_snapshot a).1
  end.

(** The arguments text of a tool-call fragment; empty when it has
    none. *)
Definition fragment_text (d : JValue) : jsstring :=
  match fragment_arguments d with
  | Some (JStr s) => s
  | _ => []
  end.

(** The own properties a fragment brings when its text is JSON by
    itself; nothing otherwise. *)
Definition fragment_props (d : JValue) : list (jsstring * JValue) :=
  match JSON_parse (fragment_text d) with
  | Some v => own_props v
  | None => []
  end.

(** The raw-argument buffer of an invocation; empty before the first
    fragment that fails to parse. *)
Definition args_buffer (tc : ToolCall) : jsstring := default [] (tc_argsString tc).

(** The arguments of an invocation are the parse of its buffer, once
    the buffer is valid JSON. *)
Definition buffer_parsed (tc : ToolCall) : Prop :=
  forall v, JSON_parse (args_buffer tc) = Some v -> tc_args tc = v.

(** Test data: an invocation whose arguments arrive as two fragments
    that are JSON objects by themselves. *)
Definition merge_lines : list jsstring :=
  [fragment_line "{'index':0,'id':'c1','function':{'name':'computer_use','arguments':'{\'a\':1}'}}";
   fragment_line "{'index':0,'function':{'arguments':'{\'b\':2}'}}"].

(** [tc.function.name] *)
Definition call_name (tc : JValue) : value :=
  match get (Some tc) (js "function") with
  | Ok fn => match get fn (js "name") with Ok n => n | _ => undefined end
  | _ => undefined
  end.

(** The text the response decoder parses for a tool call: its
    arguments, or the empty object when they are absent or empty. *)
Definition arguments_text (tc : JValue) : jsstring :=
  match call_arguments tc with
  | Some (JStr (c :: s)) => c :: s
  | _ => js "{}"
  end.

(** A tool call of a response the decoder accepts: it has a
    [function], and its arguments are absent or a JSON text. *)
Definition decodable (tc : JValue) : Prop :=
  (exists fn, get (Some tc) (js "function") = Ok (Some fn) /\ fn <> JNull)
  /\ arguments_are_text tc = true
  /\ is_Some (JSON_parse (arguments_text tc)).

(** The invocation decoded from a tool call of a response. *)
Definition decoded (tc : JValue) (inv : ToolCall) : Prop :=
  tc_id inv = field tc "id"
  /\ tc_name inv = call_name tc
  /\ JSON_parse (arguments_text tc) = Some (tc_args inv).

(** A wire message with one of the three conversational roles and
    without tool fields. *)
Definition plain_turn (w : WireMessage) : Prop :=
  role w ∈ [js "system"; js "user"; js "assistant"]
  /\ wire_tool_calls w = None
  /\ wire_tool_call_id w = None.

(** Test data: options that leave everything to the defaults, and a
    provider that answers with one tool call. *)
Definition default_options : GrokChatModel.Options :=
  {| GrokChatModel.options_tools := None;
     GrokChatModel.options_temperature := undefined;
     GrokChatModel.options_max_tokens := undefined;
     GrokChatModel.options_stream := undefined |}.

Definition tool_call_body : jsstring :=
  jq "{'id':'r1','model':'grok-2-vision-1212','choices':[{'message':{'content':'ok','tool_calls':[{'id':'c1','function':{'name':'computer_use','arguments':'{\'action\':{\'type\':\'screenshot\'}}'}},{'id':'c2','function':{'name':'computer_use'}}]},'finish_reason':'tool_calls'}],'usage':{'total_tokens':9}}".

Definition tool_call_response : Response :=
  {| ok := true; status := 200; statusText := js "OK";
     body := Some {| chunks := [tool_call_body]; aborted := false |} |}.

Definition network_tool_call : Network :=
  {| http_get := fun _ => None;
     http_post := fun _ => Some tool_call_response |}.

Definition tool_call_data : JValue :=
  Eval vm_compute in default JNull (JSON_parse tool_call_body).

Definition tool_call_calls : list JValue :=
  Eval vm_compute in default [] (response_tool_calls tool_call_data).

(** Test data: an environment without a key, and one with a key and a
    blank base URL. *)
Definition env_without_key : CustomCallModel.Env :=
  {| CustomCallModel.XAI_API_KEY := None;
     CustomCallModel.XAI_BASE_URL := None |}.

Definition env_blank_url : CustomCallModel.Env :=
  {| CustomCallModel.XAI_API_KEY := Some (js "xai-key");
     CustomCallModel.XAI_BASE_URL := Some [] |}.

(** Test data: parameters of the factory that carry a key. *)
Definition factory_params : CustomCua.CreateCustomCuaParams :=
  {| CustomCua.xaiApiKey := Some (js "new-key");
     CustomCua.scrapybaraApiKey := None;
     CustomCua.timeoutHours := None;
     CustomCua.zdrEnabled := None;
     CustomCua.recursionLimit := None;
     CustomCua.authStateId := None;
     CustomCua.environment := None;
     CustomCua.prompt := None |}.

(** A fragment with the index it addresses: the update it makes. *)
Definition apply_indexed (merge : JValue -> ToolCall -> ToolCall)
           (calls : list ToolCall) (p : nat * JValue) : list ToolCall :=
  apply_fragment merge p.1 calls p.2.

(** The fragments addressed to the invocation at [j], in order. *)
Definition fragments_for (j : nat) (ids : list (nat * JValue)) : list JValue :=
  map snd (List.filter (fun p => bool_decide (p.1 = j)) ids).

(** The invocation at an index, or the placeholder where the list has
    none yet. *)
Definition call_at (j : nat) (calls : list ToolCall) : ToolCall :=
  default empty_tool_call (calls !! j).

(** Test data: the fragments of two invocations, interleaved. *)
Definition interleaved_lines : list jsstring :=
  [fragment_line "{'index':0,'id':'c1','function':{'name':'computer_use'}}";
   fragment_line "{'index':1,'id':'c2','function':{'name':'computer_use'}}";
   fragment_line "{'index':0,'function':{'arguments':'{\'a\':1}'}}";
   fragment_line "{'index':1,'function':{'arguments':'{\'b\':2}'}}"].

(** [choices[0].delta] of a stream event. *)
Definition event_delta_object (ev : JValue) : value :=
  match event_choice ev with
  | Some choice => if truthy (Some choice) then field choice "delta" else undefined
  | None => undefined
  end.

(** The token a text makes: itself, or none when it is empty. *)
Definition token_of (text : jsstring) : list jsstring :=
  if bool_decide (text = []) then [] else [text].

(** The contents of the messages yielded for some texts, after
    [start]: one per non-empty text, each with all the text so far. *)
Fixpoint running (start : jsstring) (texts : list jsstring) : list JValue :=
  match texts with
  | [] => []
  | t :: ts => map (fun _ => JStr (start ++ t)) (token_of t) ++ running (start ++ t) ts
  end.

(** Test data: a role event, two content events as parsed values. *)
Definition hello_lines : list jsstring :=
  [jq "data: {'choices':[{'delta':{'role':'assistant'}}]}";
   content_line "Hel"; content_line "lo"].

Definition hello_text : jsstring :=
  concat (map (fun l => l ++ [10]) hello_lines).

(** Test data: a model whose bound tool list is empty, and options
    that carry a tool. *)
Definition bound_nothing : GrokChatModel.Self :=
  {| GrokChatModel.xaiApiKey := js "xai-key";
     GrokChatModel.xaiBaseUrl := js "https://api.x.ai/v1";
     GrokChatModel.bound_tools := Some [] |}.

Definition options_with_tool : GrokChatModel.Options :=
  {| GrokChatModel.options_tools := Some [JObj [(js "type", str "function")]];
     GrokChatModel.options_temperature := undefined;
     GrokChatModel.options_max_tokens := undefined;
     GrokChatModel.options_stream := undefined |}.

(** Test data: the lines of [hello_lines] indented by a blank and
    closed by a carriage return. *)
Definition hello_lines_crlf : list jsstring :=
  map (fun l => [32] ++ l ++ [13]) hello_lines.

Definition hello_text_crlf : jsstring :=
  concat (map (fun l => l ++ [10]) hello_lines_crlf).

(** The event a line carries: the parsed payload of a data line. *)
Definition line_event (line : jsstring) : option JValue :=
  if startsWith (trim line) (js "data: ") then JSON_parse (payload line) else None.

(** The metadata after the three updates an event makes: its id,
    its model and its usage, each where it is truthy. *)
Definition event_metadata (ev : JValue) (md : Metadata) : Metadata :=
  let md1 := if truthy (field ev "id") then set_md_id (field ev "id") md else md in
  let md2 :=
    if truthy (field ev "model") then set_md_model (field ev "model") md1 else md1 in
  if truthy (field ev "usage") then set_md_usage (field ev "usage") md2 else md2.

(** What an event leaves in the metadata: only an event with a first
    choice is looked at. *)
Definition record_event (md : Metadata) (ev : JValue) : Metadata :=
  if truthy (event_choice ev) then event_metadata ev md else md.

(** The metadata recorded from the events of some lines. *)
Definition stream_metadata (lines : list jsstring) : Metadata :=
  fold_left record_event (omap line_event lines) no_metadata.

(** The lines before the first sentinel line. *)
Fixpoint until_sentinel (lines : list jsstring) : list jsstring :=
  match lines with
  | [] => []
  | l :: ls => if sentinel_line l then [] else l :: until_sentinel ls
  end.

(** Test data: an event with an id, a model and some text; then one
    with another id and the usage, whose delta is null. *)
Definition metadata_lines : list jsstring :=
  [jq "data: {'id':'r1','model':'grok-2','choices':[{'delta':{'content':'Hi'}}]}";
   jq "data: {'id':'r2','usage':{'total_tokens':5},'choices':[{'delta':null}]}"].

Definition metadata_text : jsstring :=
  concat (map (fun l => l ++ [10]) metadata_lines).

(** The arguments of a fragment are absent or empty, or a JSON text
    by themselves; or they are a text that is not. *)
Definition arguments_alone (d : JValue) : Prop :=
  fragment_text d = [] \/ is_Some (JSON_parse (fragment_text d)).

(** Test data: one event with the first fragments of two invocations;
    the arguments of the first one are cut. *)
Definition two_calls_line : jsstring :=
  jq "data: {'choices':[{'delta':{'tool_calls':[{'index':0,'id':'c1','function':{'name':'computer_use','arguments':'{\'a\':'}},{'index':1,'id':'c2','function':{'name':'computer_use'}}]}}]}".

Definition two_calls_event : JValue :=
  Eval vm_compute in default JNull (JSON_parse (payload two_calls_line)).

(** ** Streams in general *)

(** The complete lines of a body: the text before its last newline,
    split at the newlines. *)
Definition complete_lines (chunks : list jsstring) : list jsstring :=
  removelast (split 10 (concat chunks)).

(** The events of some lines: the parsed payloads of the data lines
    before the first sentinel line. *)
Definition stream_events (lines : list jsstring) : list JValue :=
  omap line_event (until_sentinel lines).

(** The text of a content and the fragments of a [tool_calls]
    field: nothing when the field is not a text, or not an array. *)
Definition text_of (v : value) : jsstring :=
  match v with Some (JStr s) => s | _ => [] end.

Definition fragments_of (v : value) : list JValue :=
  match v with Some (JArr ds) => ds | _ => [] end.

(** The text and the tool-call fragments an event carries. *)
Definition event_text (ev : JValue) : jsstring :=
  text_of (event_delta ev "content").

Definition event_fragments (ev : JValue) : list JValue :=
  fragments_of (event_delta ev "tool_calls").

(** A fragment with the index it addresses. *)
Definition addressed (d : JValue) : nat * JValue :=
  (match fragment_index d with Ok i => i | _ => 0%nat end, d).

(** A fragment the loop body reads without a coercion: its index is
    absent or a natural number, its arguments are a text or absent. *)
Definition fragment_ok (d : JValue) : bool :=
  match fragment_index d with
  | Ok _ => text_or_absent (fragment_arguments d)
  | _ => false
  end.

Definition is_null (v : JValue) : bool :=
  match v with JNull => true | _ => false end.

(** The first choice of the event has a [delta]. *)
Definition has_delta (ev : JValue) : bool :=
  match event_delta_object ev with
  | Some delta => negb (is_null delta)
  | None => false
  end.

(** An event the assemblers read without a coercion: it has no first
    choice, or its first choice has no [delta], or the content of the
    delta is a text or absent and its [tool_calls] are absent or an
    array of fragments as above. *)
Definition calls_ok (v : value) : bool :=
  match v with
  | Some (JArr ds) => forallb fragment_ok ds
  | _ => negb (truthy v)
  end.

Definition event_ok (ev : JValue) : bool :=
  negb (truthy (event_choice ev)) || negb (has_delta ev)
  || (text_or_absent (event_delta ev "content")
      && calls_ok (event_delta ev "tool_calls")).

(** The event is given up with a [TypeError]: the payload is [null],
    or the first choice has no [delta]. *)
Definition event_rejected (ev : JValue) : bool :=
  is_null ev || (truthy (event_choice ev) && negb (has_delta ev)).

(** The arguments of a fragment are a text that is not JSON by
    itself. *)
Definition arguments_fail (d : JValue) : bool :=
  match JSON_parse (fragment_text d) with
  | Some _ => false
  | None => negb (bool_decide (fragment_text d = []))
  end.

(** The fragments of an event the streaming client applies: those up
    to and including the first whose arguments fail. *)
Fixpoint applied (ds : list JValue) : list JValue :=
  match ds with
  | [] => []
  | d :: ds' => if arguments_fail d then [d] else d :: applied ds'
  end.

(** What an event does to the accumulators of [_streamGenerate], and
    how its [try] block ends. *)
Definition grok_event (cb : bool) (a : Acc) (ev : JValue) : Acc :=
  if truthy (event_choice ev) then
    {| accumulatedContent := accumulatedContent a ++ event_text ev;
       accumulatedToolCalls :=
         fold_left (apply_indexed grok_merge)
                   (map addressed (event_fragments ev)) (accumulatedToolCalls a);
       responseMetadata := event_metadata ev (responseMetadata a);
       tokens := tokens a ++ (if cb then token_of (event_text ev) else []);
       yielded := yielded a |}
  else a.

Definition grok_outcome (ev : JValue) : Res unit :=
  if event_rejected ev then Throw TypeError else Ok tt.

(** The same for the streaming client: a message is yielded for a
    text that is not empty, and one for the tool calls when no
    fragment fails. *)
Definition client_event (a : Acc) (ev : JValue) : Acc :=
  if truthy (event_choice ev) then
    let c := accumulatedContent a ++ event_text ev in
    let md := event_metadata ev (responseMetadata a) in
    let calls :=
      fold_left (apply_indexed client_merge)
                (map addressed (applied (event_fragments ev)))
                (accumulatedToolCalls a) in
    {| accumulatedContent := c;
       accumulatedToolCalls := calls;
       responseMetadata := md;
       tokens := tokens a;
       yielded :=
         yielded a
         ++ (if bool_decide (event_text ev = []) then []
             else [AIMessage (JStr c) (accumulatedToolCalls a) md])
         ++ (if truthy (event_delta ev "tool_calls")
                && negb (existsb arguments_fail (event_fragments ev))
             then [AIMessage (JStr c) calls md] else []) |}
  else a.

Definition client_event_outcome (ev : JValue) : Res unit :=
  if event_rejected ev then Throw TypeError
  else if existsb arguments_fail (event_fragments ev) then Throw SyntaxError
  else Ok tt.

(** The warnings a line leaves, for the way [outcome] an event
    ends. *)
Definition line_warnings (outcome : JValue -> Res unit) (line : jsstring)
  : list Warning :=
  if startsWith (trim line) (js "data: ") then
    match JSON_parse (payload line) with
    | Some ev =>
        match outcome ev with
        | Throw e => [(payload line, e)]
        | _ => []
        end
    | None => [(payload line, SyntaxError)]
    end
  else [].

Definition stream_warnings (outcome : JValue -> Res unit) (lines : list jsstring)
  : list Warning :=
  concat (map (line_warnings outcome) (until_sentinel lines)).

(** The fragments of a stream, in order, each with its index; and
    those of them the streaming client applies. *)
Definition stream_fragments (lines : list jsstring) : list (nat * JValue) :=
  concat (map (fun ev => map addressed (event_fragments ev)) (stream_events lines)).

Definition client_fragments (lines : list jsstring) : list (nat * JValue) :=
  concat (map (fun ev => map addressed (applied (event_fragments ev)))
              (stream_events lines)).

(** A body the assemblers read without a coercion. *)
Definition stream_ok (lines : list jsstring) : Prop :=
  Forall (fun ev => event_ok ev = true) (stream_events lines).

(** A line that changes nothing in a read loop: it is not a data
    line, or it is the sentinel. *)
Definition inert_line (line : jsstring) : bool :=
  negb (startsWith (trim line) (js "data: ")) || sentinel_line line.

(** Only such lines follow the first sentinel line. *)
Fixpoint quiet_after_sentinel (lines : list jsstring) : bool :=
  match lines with
  | [] => true
  | l :: ls =>
      if sentinel_line l then forallb inert_line ls else quiet_after_sentinel ls
  end.

(** The number of invocations after some fragments: one for every
    index up to the largest index addressed. *)
Definition slots (ids : list (nat * JValue)) : nat :=
  fold_left (fun n p => Nat.max n (S p.1)) ids 0%nat.

(** The tool calls of the event are all applied by the streaming
    client, which then yields a message for them. *)
Definition calls_yielded (ev : JValue) : bool :=
  truthy (event_delta ev "tool_calls")
  && negb (existsb arguments_fail (event_fragments ev)).

(** The contents of the messages the streaming client yields for
    some events, after the text [start]: for every event one message
    when its text is not empty and one when its tool calls are
    applied, each with all the text so far. *)
Fixpoint yield_contents (start : jsstring) (evs : list JValue) : list JValue :=
  match evs with
  | [] => []
  | ev :: evs' =>
      let c := start ++ event_text ev in
      (if bool_decide (event_text ev = []) then [] else [JStr c])
      ++ (if calls_yielded ev then [JStr c] else [])
      ++ yield_contents c evs'
  end.

(** Test data: a body as a provider sends it, every event followed by
    a blank line and the sentinel at the end, and a cut of it into
    three chunks. *)
Definition sse_body (lines : list jsstring) : jsstring :=
  concat (map (fun l => l ++ [10; 10]) lines) ++ js "data: [DONE]" ++ [10; 10].

Definition sse_chunks (lines : list jsstring) : list jsstring :=
  [take 50 (sse_body lines); take 70 (drop 50 (sse_body lines));
   drop 120 (sse_body lines)].

(** Test data: the index alone, then, in one event, a fragment with
    the beginning of the arguments and the fragment with the id and
    the name. *)
Definition late_id_lines : list jsstring :=
  [fragment_line "{'index':0}";
   fragment_line "{'index':0,'function':{'arguments':'{\'a\':'}},{'index':0,'id':'c1','function':{'name':'computer_use'}}"].

(** Test data: text, then the fragments of one invocation. *)
Definition mixed_lines : list jsstring :=
  hello_lines ++ screenshot_lines.

(** * Properties *)

(** ** The monad *)

Lemma stateless_ret {S A} (a : A) : stateless (S := S) (ret a).
Proof. by intros s. Qed.

Lemma stateless_lift {S A} (r : Res A) : stateless (S := S) (lift r).
Proof. by intros s. Qed.

Lemma stateless_bind {S A B} (m : M S A) (k : A -> M S B) :
  stateless m -> (forall a, stateless (k a)) -> stateless (bind m k).
Proof.
  intros Hm Hk s. unfold bind. specialize (Hm s).
  destruct (m s) as [s' [a| |]]; simpl in *; subst; try done. apply Hk.
Qed.

Lemma stateless_try_catch {S A} (m : M S A) (h : Exn -> M S A) :
  stateless m -> (forall e, stateless (h e)) -> stateless (try_catch m h).
Proof.
  intros Hm Hh s. unfold try_catch. specialize (Hm s).
  destruct (m s) as [s' [a| |]]; simpl in *; subst; try done. apply Hh.
Qed.

Lemma stateless_map_M {S X Y} (f : X -> M S Y) (xs : list X) :
  (forall x, stateless (f x)) -> stateless (map_M f xs).
Proof.
  intros Hf. induction xs as [|x xs IH]; simpl.
  - apply stateless_ret.
  - apply stateless_bind; [apply Hf|]. intros y.
    apply stateless_bind; [apply IH|]. intros ys. apply stateless_ret.
Qed.

Lemma stateless_decode_tool_call {S} (tc : value) :
  stateless (S := S) (decode_tool_call tc).
Proof.
  unfold decode_tool_call.
  repeat (apply stateless_bind; [apply stateless_lift|intros ?]).
  case_match; [apply stateless_ret|apply stateless_lift].
Qed.

Lemma stateless_decode_tool_calls {S} (calls : value) :
  stateless (S := S) (decode_tool_calls calls).
Proof.
  destruct calls as [[]|]; simpl;
    try apply stateless_ret; try apply stateless_lift.
  apply stateless_map_M. intros x. apply stateless_decode_tool_call.
Qed.

(** A [try] whose handler returns a value never throws. *)
Lemma try_catch_ret_no_throw {S A} (m : M S A) (a : A) (s : S) (e : Exn) :
  (try_catch m (fun _ => ret a) s).2 <> Throw e.
Proof. unfold try_catch. by destruct (m s) as [s' [x|e'|]]. Qed.

Lemma try_catch_throw {S A} (m : M S A) (h : Exn -> M S A) (s s' : S) (e : Exn) :
  m s = (s', Throw e) -> try_catch m h s = h e s'.
Proof. intros H. unfold try_catch. by rewrite H. Qed.

(** ** The JSON reader on the texts the properties use *)

Lemma JSON_parse_sentinel : JSON_parse (js "[DONE]") = None.
Proof. reflexivity. Qed.

Lemma JSON_parse_empty_object : JSON_parse (js "{}") = Some (JObj []).
Proof. reflexivity. Qed.

Lemma JSON_parse_empty : JSON_parse [] = None.
Proof. reflexivity. Qed.

(** ** The request log *)

Lemma fetch_post_log {A} (net : Network) (r : Request) (k : Response -> Net A)
      (log : list NetCall) :
  (forall resp, stateless (k resp)) ->
  (bind (fetch_post net r) k log).1 = log ++ [POST r].
Proof.
  intros Hk. unfold bind, fetch_post.
  destruct (http_post net r); [apply Hk|done].
Qed.

Lemma try_catch_log {S A} (m : M S A) (h : Exn -> M S A) (s : S) :
  (forall e, stateless (h e)) -> (try_catch m h s).1 = (m s).1.
Proof.
  intros Hh. unfold try_catch. destruct (m s) as [s' [a|e|]]; try done. apply Hh.
Qed.

Ltac stateless_steps :=
  repeat first
    [ apply stateless_ret
    | apply stateless_lift
    | apply stateless_decode_tool_calls
    | apply stateless_bind; [|intros ?]
    | case_match ].

Lemma streamGenerate_log net self msgs tls options cb log :
  (GrokChatModel._streamGenerate net self msgs tls options cb log).1
  = log ++ [POST (GrokChatModel.chat_request self
                    (GrokChatModel.chat_body msgs tls options true))].
Proof.
  unfold GrokChatModel._streamGenerate. apply fetch_post_log.
  intros resp. stateless_steps.
Qed.

Lemma generate_once_log net self msgs tls options log :
  (GrokChatModel.generate_once net self msgs tls options log).1
  = log ++ [POST (GrokChatModel.chat_request self
                    (GrokChatModel.chat_body msgs tls options false))].
Proof.
  unfold GrokChatModel.generate_once. apply fetch_post_log.
  intros resp. stateless_steps.
Qed.

(** C10: the request body of [_generate] and of [_streamGenerate]
    carries [options.temperature] when it is truthy and 0.1
    otherwise, and [options.max_tokens] when it is truthy and 4096
    otherwise; a temperature or a token limit of 0 is replaced by the
    default. *)
Theorem request_sampling_defaults net now self msgs tls options cb log :
  GrokChatModel.demo_mode self = false ->
  (exists r,
      (GrokChatModel._generate net now self msgs options cb log).1
      = log ++ [POST r] /\ sampled options (request_body r))
  /\ (exists r,
      (GrokChatModel._streamGenerate net self
         (map GrokChatModel.xaiMessage msgs) tls options cb log).1
      = log ++ [POST r] /\ sampled options (request_body r)).
Proof.
  intros Hdemo.
  assert (Hbody : forall ms ts st,
             sampled options (GrokChatModel.chat_body ms ts options st)).
  { intros ms ts st. unfold sampled, GrokChatModel.chat_body, js_or; simpl.
    repeat split; try done; by intros ->. }
  split.
  - unfold GrokChatModel._generate. rewrite Hdemo.
    destruct (GrokChatModel.useStreaming options cb).
    + eexists. split; [apply streamGenerate_log|]. apply Hbody.
    + eexists. split; [|].
      * rewrite try_catch_log; [apply generate_once_log|].
        intros e. apply stateless_ret.
      * apply Hbody.
  - eexists. split; [apply streamGenerate_log|]. apply Hbody.
Qed.

Lemma request_sampling_defaults_witness :
  GrokChatModel.demo_mode grok_self = false
  /\ ((exists r,
         (GrokChatModel._generate network_down 0 grok_self [] zero_temperature
            false []).1 = [] ++ [POST r]
         /\ sampled zero_temperature (request_body r))
      /\ (exists r,
         (GrokChatModel._streamGenerate network_down grok_self
            (map GrokChatModel.xaiMessage []) [] zero_temperature false []).1
         = [] ++ [POST r]
         /\ sampled zero_temperature (request_body r))).
Proof.
  split; [reflexivity|].
  apply (request_sampling_defaults network_down 0 grok_self [] []
           zero_temperature false []).
  reflexivity.
Defined.

(** ** Tool results on the wire *)

Lemma has_type_tool (m : Message) :
  has_type m "tool" = true ->
  has_type m "system" = false /\ has_type m "human" = false
  /\ has_type m "ai" = false.
Proof.
  unfold has_type, jsstring_eqb. intros H%bool_decide_eq_true.
  rewrite H. by vm_compute.
Qed.

(** C4, as the code has it: for a tool-result message,
    [convertMessageToGrokFormat] emits a user-role message with one
    [image_url] part when the content is a [data:image/] URI and
    otherwise [{ role: tool, tool_call_id, content }] with the
    original id and content; the translation inside
    [GrokChatModel._generate] emits the same image message and
    otherwise a user-role message with the content (the empty string
    when the content is falsy). *)
Theorem tool_result_translation (m : Message) :
  has_type m "tool" = true ->
  (forall s, content m = JStr s -> startsWith s (js "data:image/") = true ->
     CustomCallModel.convertMessageToGrokFormat m = wire "user" (Parts [ImageUrl s])
     /\ GrokChatModel.xaiMessage m = wire "user" (Parts [ImageUrl s]))
  /\ (is_image_data_uri (content m) = false ->
     CustomCallModel.convertMessageToGrokFormat m = tool_wire m
     /\ GrokChatModel.xaiMessage m
       = wire "user" (Plain (or_default (Some (content m)) (JStr [])))).
Proof.
  intros Htool. destruct (has_type_tool m Htool) as (Hs & Hh & Ha).
  unfold CustomCallModel.convertMessageToGrokFormat, GrokChatModel.xaiMessage.
  rewrite Hs, Hh, Ha, Htool. split.
  - intros s -> ->. done.
  - unfold is_image_data_uri, tool_wire.
    destruct (content m) as [| | |s| |]; try done.
    intros Hs'. by rewrite Hs'.
Qed.

Lemma tool_result_translation_witness :
  has_type click_result "tool" = true
  /\ ((forall s, content click_result = JStr s ->
        startsWith s (js "data:image/") = true ->
        CustomCallModel.convertMessageToGrokFormat click_result
        = wire "user" (Parts [ImageUrl s])
        /\ GrokChatModel.xaiMessage click_result = wire "user" (Parts [ImageUrl s]))
      /\ (is_image_data_uri (content click_result) = false ->
         CustomCallModel.convertMessageToGrokFormat click_result
         = tool_wire click_result
         /\ GrokChatModel.xaiMessage click_result
           = wire "user"
               (Plain (or_default (Some (content click_result)) (JStr []))))).
Proof.
  split; [reflexivity|]. apply (tool_result_translation click_result). reflexivity.
Defined.

(** C4 as stated fails on the translation inside
    [GrokChatModel._generate]: a tool result that is not an image is
    sent with role [user], not as [{ role: tool, tool_call_id,
    content }]. *)
Lemma tool_result_sent_as_user_turn :
  has_type click_result "tool" = true
  /\ is_image_data_uri (content click_result) = false
  /\ role (GrokChatModel.xaiMessage click_result) = js "user"
  /\ GrokChatModel.xaiMessage click_result <> tool_wire click_result.
Proof. repeat split; try reflexivity. by vm_compute. Qed.

Example screenshot_result_wire :
  CustomCallModel.convertMessageToGrokFormat screenshot_result
  = wire "user" (Parts [ImageUrl (js "data:image/png;base64,AAAA")]).
Proof. reflexivity. Qed.

(** ** The non-streaming call *)

Lemma response_json_modelled (r : Response) : response_json r <> Unmodelled.
Proof.
  unfold response_json, response_text.
  destruct (body r) as [b|]; [destruct (aborted b)|]; try done;
    by case_match.
Qed.

Lemma generate_once_failed net self msgs tls options log :
  call_failed
    (http_post net (GrokChatModel.chat_request self
                      (GrokChatModel.chat_body msgs tls options false))) = true ->
  exists e, (GrokChatModel.generate_once net self msgs tls options log).2 = Throw e.
Proof.
  unfold call_failed, GrokChatModel.generate_once, bind, fetch_post, lift.
  destruct (http_post net _) as [r|]; [|by eexists].
  destruct (ok r); simpl; [|by eexists].
  pose proof (response_json_modelled r).
  destruct (response_json r); try done. by eexists.
Qed.

Lemma makeRequest_failed net client data log :
  call_failed
    (http_post net (CustomCallModel.post_request client (js "chat/completions")
                      data)) = true ->
  exists e,
    (CustomCallModel.makeRequest net client (js "chat/completions") data log).2
    = Throw e.
Proof.
  unfold call_failed, CustomCallModel.makeRequest, bind, fetch_post, lift.
  destruct (http_post net _) as [r|]; [|by eexists].
  destruct (ok r); simpl.
  - pose proof (response_json_modelled r).
    destruct (response_json r); try done. by eexists.
  - intros _. unfold response_text.
    destruct (body r) as [b|]; [destruct (aborted b)|]; by eexists.
Qed.

Lemma try_catch_fallback {S A} (m : M S A) (a : A) (s : S) :
  (exists e, (m s).2 = Throw e) -> (try_catch m (fun _ => ret a) s).2 = Ok a.
Proof.
  intros [e He]. unfold try_catch.
  destruct (m s) as [s' r]; simpl in *. by subst.
Qed.

(** C5: when the request of the non-streaming path is rejected,
    answered with a non-success status or answered with a body that is
    not JSON, [_generate] (both copies) and [createChatCompletion]
    return their fixed fallback message, whose only tool invocation
    asks for a screenshot; these calls never throw. *)
Theorem non_streaming_failure_falls_back
        net now self msgs options cb client wmsgs tls log :
  GrokChatModel.demo_mode self = false ->
  GrokChatModel.useStreaming options cb = false ->
  let request :=
    GrokChatModel.chat_request self
      (GrokChatModel.chat_body (map GrokChatModel.xaiMessage msgs)
         (GrokChatModel.grokTools self options) options false) in
  let request' :=
    CustomCallModel.post_request client (js "chat/completions")
      (CustomCallModel.chat_data wmsgs tls) in
  (call_failed (http_post net request) = true ->
     (GrokChatModel._generate net now self msgs options cb log).2
     = Ok GrokChatModel.fallback_result
     /\ (GrokChatModel._generate_strict net self msgs options log).2
       = Ok GrokChatModel.fallback_result)
  /\ (call_failed (http_post net request') = true ->
     (CustomCallModel.createChatCompletion net client wmsgs tls log).2
     = Ok CustomCallModel.fallback_message)
  /\ (forall e,
       (GrokChatModel._generate net now self msgs options cb log).2 <> Throw e
       /\ (GrokChatModel._generate_strict net self msgs options log).2 <> Throw e
       /\ (CustomCallModel.createChatCompletion net client wmsgs tls log).2
          <> Throw e)
  /\ asks_for_screenshot (GrokChatModel.message GrokChatModel.fallback_result)
  /\ asks_for_screenshot CustomCallModel.fallback_message.
Proof.
  intros Hdemo Hstream request request'.
  unfold GrokChatModel._generate, GrokChatModel._generate_strict,
    CustomCallModel.createChatCompletion.
  rewrite Hdemo, Hstream. repeat split.
  - by apply try_catch_fallback, generate_once_failed.
  - by apply try_catch_fallback, generate_once_failed.
  - intros Hf. apply try_catch_fallback.
    destruct (makeRequest_failed net client _ log Hf) as [e He].
    exists e. unfold bind at 1.
    destruct (CustomCallModel.makeRequest _ _ _ _ _) as [log' r].
    simpl in He. by subst.
  - apply try_catch_ret_no_throw.
  - apply try_catch_ret_no_throw.
  - apply try_catch_ret_no_throw.
  - eexists. split; [reflexivity|done].
  - eexists. split; [reflexivity|done].
Qed.

Lemma non_streaming_failure_falls_back_witness :
  GrokChatModel.demo_mode grok_self = false
  /\ GrokChatModel.useStreaming zero_temperature false = false
  /\ (GrokChatModel._generate network_500 0 grok_self [click_result]
        zero_temperature false []).2
     = Ok GrokChatModel.fallback_result.
Proof.
  split; [reflexivity|]. split; [reflexivity|].
  pose proof (non_streaming_failure_falls_back network_500 0 grok_self
                [click_result] zero_temperature false
                (CustomCallModel.new_GrokClient (js "xai-key") None) [] [] []
                eq_refl eq_refl) as H.
  simpl in H. destruct H as [H _]. apply H. reflexivity.
Defined.

(** ** Decoding the tool invocations of a response *)

Lemma as_string_or_text (a : value) :
  text_or_absent a = true ->
  exists t, as_string (js_or a (Some (JStr (js "{}")))) = Ok t.
Proof.
  unfold js_or, text_or_absent.
  destruct a as [[| b | q | t | |]|]; simpl; try done; eauto.
  - destruct b; simpl; [done|eauto].
  - destruct (Qnum q =? 0)%Z; simpl; [eauto|done].
  - destruct (bool_decide (t = [])); simpl; eauto.
Qed.

Lemma decode_tool_call_modelled {S} (tc : JValue) (s : S) :
  arguments_are_text tc = true ->
  (decode_tool_call (Some tc) s).2 <> Unmodelled.
Proof.
  unfold arguments_are_text, call_arguments, decode_tool_call, bind, lift, ret.
  destruct tc as [| | | | |kvs]; simpl; try done.
  destruct (own kvs (js "function")) as [[| | | | |fkvs]|]; simpl; try done;
    try (intros _; rewrite JSON_parse_empty_object; done).
  intros [t Ht]%as_string_or_text. rewrite Ht. by destruct (JSON_parse t).
Qed.

Lemma decode_tool_call_unparsable {S} (tc : JValue) (text : jsstring) (s : S) :
  call_arguments tc = Some (JStr text) -> text <> [] ->
  JSON_parse text = None ->
  (decode_tool_call (Some tc) s).2 = Throw SyntaxError.
Proof.
  unfold call_arguments, decode_tool_call, bind, lift, ret.
  intros Ha Hne Hparse.
  destruct tc as [| | | | |kvs]; simpl in *; try done.
  destruct (own kvs (js "function")) as [[| | | | |fkvs]|]; simpl in *; try done.
  rewrite Ha. unfold js_or. simpl.
  rewrite bool_decide_eq_false_2 by done. simpl. by rewrite Hparse.
Qed.

Lemma map_M_throws {S X Y} (f : X -> M S Y) (xs : list X) (i : nat) (x : X)
      (e : Exn) (s : S) :
  (forall x', stateless (f x')) ->
  Forall (fun x' => (f x' s).2 <> Unmodelled) xs ->
  xs !! i = Some x -> (f x s).2 = Throw e ->
  exists e', (map_M f xs s).2 = Throw e'.
Proof.
  intros Hst Hall. revert i. induction Hall as [|y ys Hy Hys IH]; intros i Hi Hx.
  - done.
  - simpl. unfold bind at 1. pose proof (Hst y s) as Hs.
    destruct (f y s) as [s' r] eqn:Hfy. simpl in *. subst s'.
    destruct r as [v|e'|]; [|by eexists|done].
    destruct i as [|i]; simpl in Hi.
    + simplify_eq. rewrite Hfy in Hx. done.
    + destruct (IH i Hi Hx) as [e' He']. exists e'.
      unfold bind at 1. destruct (map_M f ys s) as [s'' r']. simpl in *.
      by subst.
Qed.

Lemma decode_tool_calls_unparsable {S} (calls : list JValue) (i : nat)
      (tc : JValue) (text : jsstring) (s : S) :
  Forall (fun c => arguments_are_text c = true) calls ->
  calls !! i = Some tc ->
  call_arguments tc = Some (JStr text) -> text <> [] ->
  JSON_parse text = None ->
  exists e, (decode_tool_calls (Some (JArr calls)) s).2 = Throw e.
Proof.
  intros Hall Hi Ha Hne Hparse. simpl.
  apply (map_M_throws decode_tool_call (map Some calls) i (Some tc) SyntaxError).
  - intros x. apply stateless_decode_tool_call.
  - apply Forall_map. eapply Forall_impl; [exact Hall|].
    intros c Hc. by apply decode_tool_call_modelled.
  - by rewrite list_lookup_fmap, Hi.
  - by eapply decode_tool_call_unparsable.
Qed.

(** The steps of a response decoder up to the tool invocations, for a
    response whose [choices[0].message.tool_calls] is the array
    [calls]. *)
Ltac walk_to_tool_calls Hpath :=
  unfold response_tool_calls in Hpath;
  unfold bind at 1; unfold lift at 1;
  destruct (get (Some _) (js "choices")) as [choices| |]; try done;
  unfold bind at 1; unfold lift at 1;
  destruct (get_idx choices 0) as [choice| |]; try done;
  unfold bind at 1; unfold lift at 1;
  destruct (get choice (js "message")) as [msg| |]; try done;
  destruct msg as [[| | | | |mkvs]|]; try done;
  unfold bind at 1; unfold lift at 1; simpl get; cbv iota beta;
  unfold bind at 1; unfold lift at 1; simpl get in *; cbv iota beta;
  destruct (own mkvs (js "tool_calls")) as [[| | | |calls'|]|]; try done;
  injection Hpath as ->.

Lemma generate_once_unparsable net self msgs tls options log r data calls i tc text :
  http_post net (GrokChatModel.chat_request self
                   (GrokChatModel.chat_body msgs tls options false)) = Some r ->
  ok r = true -> response_json r = Ok data ->
  response_tool_calls data = Some calls ->
  Forall (fun c => arguments_are_text c = true) calls ->
  calls !! i = Some tc ->
  call_arguments tc = Some (JStr text) -> text <> [] ->
  JSON_parse text = None ->
  exists e, (GrokChatModel.generate_once net self msgs tls options log).2 = Throw e.
Proof.
  intros Hpost Hok Hjson Hpath Hall Hi Ha Hne Hparse.
  unfold GrokChatModel.generate_once.
  unfold bind at 1. unfold fetch_post. rewrite Hpost, Hok. cbn [negb].
  unfold bind at 1. unfold lift at 1. rewrite Hjson.
  walk_to_tool_calls Hpath.
  unfold bind at 1.
  destruct (decode_tool_calls_unparsable calls i tc text
              (log ++ [POST (GrokChatModel.chat_request self
                               (GrokChatModel.chat_body msgs tls options false))])
              Hall Hi Ha Hne Hparse) as [e He].
  destruct (decode_tool_calls _ _) as [log' res]. simpl in He. subst res.
  by exists e.
Qed.

Lemma createChatCompletion_unparsable net client msgs tls log r data calls i tc text :
  http_post net (CustomCallModel.post_request client (js "chat/completions")
                   (CustomCallModel.chat_data msgs tls)) = Some r ->
  ok r = true -> response_json r = Ok data ->
  response_tool_calls data = Some calls ->
  Forall (fun c => arguments_are_text c = true) calls ->
  calls !! i = Some tc ->
  call_arguments tc = Some (JStr text) -> text <> [] ->
  JSON_parse text = None ->
  (CustomCallModel.createChatCompletion net client msgs tls log).2
  = Ok CustomCallModel.fallback_message.
Proof.
  intros Hpost Hok Hjson Hpath Hall Hi Ha Hne Hparse.
  unfold CustomCallModel.createChatCompletion. apply try_catch_fallback.
  unfold bind at 1. unfold CustomCallModel.makeRequest.
  unfold bind at 1. unfold fetch_post. rewrite Hpost, Hok. cbn [negb].
  unfold lift at 1. rewrite Hjson.
  walk_to_tool_calls Hpath.
  unfold bind at 1.
  destruct (decode_tool_calls_unparsable calls i tc text
              (log ++ [POST (CustomCallModel.post_request client
                               (js "chat/completions")
                               (CustomCallModel.chat_data msgs tls))])
              Hall Hi Ha Hne Hparse) as [e He].
  destruct (decode_tool_calls _ _) as [log' res]. simpl in He. subst res.
  by exists e.
Qed.

Lemma decode_tool_call_without_arguments {S} kvs fkvs (s : S) :
  own kvs (js "function") = Some (JObj fkvs) ->
  truthy (own fkvs (js "arguments")) = false ->
  (decode_tool_call (Some (JObj kvs)) s).2
  = Ok {| tc_id := own kvs (js "id"); tc_name := own fkvs (js "name");
          tc_args := JObj []; tc_argsString := None |}.
Proof.
  intros Hfn Ha. unfold decode_tool_call, bind, lift, ret. simpl.
  rewrite Hfn. simpl. unfold js_or. rewrite Ha. reflexivity.
Qed.

(** C3, as the code has it: when [function.arguments] of a tool call
    of the response is a non-empty string that does not parse as JSON,
    the decoders give up the whole response and return their fallback
    message, whose single invocation asks for a screenshot; no
    exception escapes.  Only an absent or empty arguments string is
    read as the empty object. *)
Theorem unparsable_arguments_fall_back
        net now self msgs options cb client wmsgs tls log r data calls i tc text :
  GrokChatModel.demo_mode self = false ->
  GrokChatModel.useStreaming options cb = false ->
  ok r = true -> response_json r = Ok data ->
  response_tool_calls data = Some calls ->
  Forall (fun c => arguments_are_text c = true) calls ->
  calls !! i = Some tc ->
  call_arguments tc = Some (JStr text) -> text <> [] ->
  JSON_parse text = None ->
  (http_post net
     (GrokChatModel.chat_request self
        (GrokChatModel.chat_body (map GrokChatModel.xaiMessage msgs)
           (GrokChatModel.grokTools self options) options false)) = Some r ->
   (GrokChatModel._generate net now self msgs options cb log).2
   = Ok GrokChatModel.fallback_result)
  /\ (http_post net
        (CustomCallModel.post_request client (js "chat/completions")
           (CustomCallModel.chat_data wmsgs tls)) = Some r ->
      (CustomCallModel.createChatCompletion net client wmsgs tls log).2
      = Ok CustomCallModel.fallback_message)
  /\ (forall kvs fkvs,
        own kvs (js "function") = Some (JObj fkvs) ->
        truthy (own fkvs (js "arguments")) = false ->
        (decode_tool_call (Some (JObj kvs)) log).2
        = Ok {| tc_id := own kvs (js "id"); tc_name := own fkvs (js "name");
                tc_args := JObj []; tc_argsString := None |}).
Proof.
  intros Hdemo Hstream Hok Hjson Hpath Hall Hi Ha Hne Hparse.
  split; [|split].
  - intros Hpost. unfold GrokChatModel._generate. rewrite Hdemo, Hstream.
    apply try_catch_fallback. by eapply generate_once_unparsable.
  - intros Hpost. by eapply createChatCompletion_unparsable.
  - intros kvs fkvs. apply decode_tool_call_without_arguments.
Qed.

Lemma truncated_arguments_decoded :
  exists data,
    response_json truncated_arguments_response = Ok data
    /\ response_tool_calls data = Some [truncated_call].
Proof. eexists. split; reflexivity. Qed.

Lemma unparsable_arguments_fall_back_witness :
  (GrokChatModel._generate network_truncated 0 grok_self [] zero_temperature
     false []).2 = Ok GrokChatModel.fallback_result.
Proof.
  destruct truncated_arguments_decoded as (data & Hjson & Hpath).
  refine (proj1 (unparsable_arguments_fall_back network_truncated 0 grok_self []
                   zero_temperature false
                   (CustomCallModel.new_GrokClient (js "xai-key") None) [] [] []
                   truncated_arguments_response data [truncated_call] 0%nat
                   truncated_call (jq "{'action':")
                   eq_refl eq_refl eq_refl Hjson Hpath _ eq_refl eq_refl _ eq_refl)
                eq_refl).
  - repeat constructor.
  - done.
Defined.

(** C3 as stated fails: the call [c1] with the truncated arguments is
    not returned with empty arguments; the result carries the
    fallback invocation in its place. *)
Lemma unparsable_arguments_not_emptied :
  call_arguments truncated_call = Some (JStr (jq "{'action':"))
  /\ JSON_parse (jq "{'action':") = None
  /\ match (GrokChatModel._generate network_truncated 0 grok_self []
              zero_temperature false []).2 with
     | Ok result =>
         map (fun c => (tc_id c, tc_args c))
             (tool_calls (GrokChatModel.message result))
         = [(Some (str "fallback_screenshot"), screenshot_args)]
     | _ => False
     end
  /\ match (CustomCallModel.createChatCompletion network_truncated
              (CustomCallModel.new_GrokClient (js "xai-key") None) [] [] []).2 with
     | Ok result =>
         map (fun c => (tc_id c, tc_args c)) (tool_calls result)
         = [(Some (str "fallback_screenshot"), screenshot_args)]
     | _ => False
     end
  /\ screenshot_args <> JObj [].
Proof. repeat split; try reflexivity. done. Qed.

(** ** Resolving screenshot URLs and selecting the history *)

Lemma bind_stateless_log {S A B} (m : M S A) (k : A -> M S B) (s : S) :
  (forall a, stateless (k a)) -> (bind m k s).1 = (m s).1.
Proof.
  intros Hk. unfold bind. destruct (m s) as [s' [a| |]]; try done. apply Hk.
Qed.

Lemma createChatCompletion_log net client msgs tls log :
  (CustomCallModel.createChatCompletion net client msgs tls log).1
  = log ++ [POST (CustomCallModel.post_request client (js "chat/completions")
                    (CustomCallModel.chat_data msgs tls))].
Proof.
  unfold CustomCallModel.createChatCompletion.
  rewrite try_catch_log by (intros e; apply stateless_ret).
  rewrite bind_stateless_log by (intros a; stateless_steps).
  unfold CustomCallModel.makeRequest. apply fetch_post_log.
  intros resp. stateless_steps.
Qed.

Lemma update_resolves isUrl net (m : Message) (s : jsstring) log :
  computer_call_url isUrl m = true -> content m = JStr s ->
  CustomCallModel.conditionallyUpdateToolMessageContent isUrl net m log
  = (log ++ [GET s],
     match http_get net s with
     | Some bytes =>
         Ok (CustomCallModel.with_content
               (JStr (js "data:image/png;base64," ++ base64 bytes)) m)
     | None => Throw NetworkError
     end).
Proof.
  unfold computer_call_url, CustomCallModel.conditionallyUpdateToolMessageContent.
  intros Hg Hc. rewrite Hc in *. rewrite Hg.
  unfold CustomCallModel.imageUrlToBase64, bind, fetch_get, ret.
  by destruct (http_get net s).
Qed.

Lemma update_keeps isUrl net (m : Message) log :
  computer_call_url isUrl m = false ->
  CustomCallModel.conditionallyUpdateToolMessageContent isUrl net m log
  = (log, Ok m).
Proof.
  unfold computer_call_url, CustomCallModel.conditionallyUpdateToolMessageContent.
  intros Hg. destruct (content m); try done. by rewrite Hg.
Qed.

Lemma update_result isUrl net (m : Message) log :
  (exists fm,
      (CustomCallModel.conditionallyUpdateToolMessageContent isUrl net m log).2
      = Ok fm)
  \/ (CustomCallModel.conditionallyUpdateToolMessageContent isUrl net m log).2
     = Throw NetworkError.
Proof.
  destruct (computer_call_url isUrl m) eqn:Hg.
  - unfold computer_call_url in Hg. destruct (content m) as [| | |s| |] eqn:Hc;
      try by rewrite andb_false_r in Hg.
    rewrite (update_resolves isUrl net m s log); [|by unfold computer_call_url; rewrite Hc|done].
    simpl. destruct (http_get net s); eauto.
  - rewrite update_keeps by done. eauto.
Qed.

Lemma invoke_all_log isUrl net (ms : list Message) log :
  (CustomCallModel.invoke_all isUrl net ms log).1
  = log ++ map GET (resolved_urls isUrl ms).
Proof.
  revert log. induction ms as [|x ms IH]; intros log; simpl.
  - by rewrite app_nil_r.
  - destruct (CustomCallModel.conditionallyUpdateToolMessageContent isUrl net x log)
      as [log1 r] eqn:Hx.
    specialize (IH log1).
    destruct (CustomCallModel.invoke_all isUrl net ms log1) as [log2 rs].
    simpl in *. subst log2. unfold resolved_urls. simpl.
    fold (resolved_urls isUrl ms).
    destruct (computer_call_url isUrl x) eqn:Hg.
    + unfold computer_call_url in Hg.
      destruct (content x) as [| | |s| |] eqn:Hc;
        try by rewrite andb_false_r in Hg.
      rewrite (update_resolves isUrl net x s log) in Hx;
        [|by unfold computer_call_url; rewrite Hc|done].
      simplify_eq. simpl. by rewrite <- app_assoc.
    + rewrite update_keeps in Hx by done. by simplify_eq.
Qed.

Lemma convert_tool_data_uri (m : Message) (s : jsstring) :
  has_type m "tool" = true -> content m = JStr s ->
  startsWith s (js "data:image/") = true ->
  CustomCallModel.convertMessageToGrokFormat m = wire "user" (Parts [ImageUrl s]).
Proof.
  intros Htool Hc Hs. destruct (has_type_tool m Htool) as (H1 & H2 & H3).
  unfold CustomCallModel.convertMessageToGrokFormat.
  by rewrite H1, H2, H3, Htool, Hc, Hs.
Qed.

Lemma resolved_urls_cons isUrl (m : Message) ms :
  resolved_urls isUrl (m :: ms) = resolved_urls isUrl [m] ++ resolved_urls isUrl ms.
Proof.
  unfold resolved_urls. simpl.
  destruct (computer_call_url isUrl m); [|done]. by destruct (content m).
Qed.

Lemma update_run isUrl net (m : Message) log :
  CustomCallModel.conditionallyUpdateToolMessageContent isUrl net m log
  = (log ++ map GET (resolved_urls isUrl [m]),
     if forallb (fetched net) (resolved_urls isUrl [m])
     then Ok (resolved isUrl net m) else Throw NetworkError).
Proof.
  unfold resolved_urls, resolved, fetched. simpl.
  destruct (computer_call_url isUrl m) eqn:Hg.
  - pose proof Hg as Hg'. unfold computer_call_url in Hg'.
    destruct (content m) as [| | |s| |] eqn:Hc; try by rewrite andb_false_r in Hg'.
    rewrite (update_resolves isUrl net m s log Hg Hc). simpl.
    by destruct (http_get net s).
  - rewrite update_keeps by done. simpl. by rewrite app_nil_r.
Qed.

Lemma invoke_all_run isUrl net (ms : list Message) log :
  CustomCallModel.invoke_all isUrl net ms log
  = (log ++ map GET (resolved_urls isUrl ms),
     if forallb (fetched net) (resolved_urls isUrl ms)
     then Ok (map (resolved isUrl net) ms) else Throw NetworkError).
Proof.
  revert log. induction ms as [|m ms IH]; intros log.
  - simpl. by rewrite app_nil_r.
  - cbn [CustomCallModel.invoke_all].
    rewrite (resolved_urls_cons isUrl m ms), update_run, IH.
    rewrite map_app, forallb_app, app_assoc.
    by destruct (forallb _ (resolved_urls isUrl [m])),
         (forallb _ (resolved_urls isUrl ms)).
Qed.

Lemma last_map_Some {A} (l : list A) : List.last (map Some l) None = last l.
Proof. induction l as [|x [|y l] IH]; done. Qed.

Lemma fetched_all net urls :
  forallb (fetched net) urls = true
  <-> Forall (fun u => is_Some (http_get net u)) urls.
Proof.
  rewrite forallb_forall, Forall_forall. unfold fetched.
  split; intros H u Hu; specialize (H u).
  - apply list_elem_of_In in Hu. specialize (H Hu).
    by destruct (http_get net u).
  - apply list_elem_of_In in Hu. specialize (H Hu).
    by destruct H as [? ->].
Qed.

Lemma fetched_some net urls :
  Exists (fun u => http_get net u = None) urls ->
  forallb (fetched net) urls = false.
Proof.
  intros H. apply not_true_is_false. intros Hall%fetched_all.
  apply Exists_exists in H as (u & Hu & Hget).
  rewrite Forall_forall in Hall. specialize (Hall u Hu).
  rewrite Hget in Hall. by destruct Hall.
Qed.

(** What [callModelCustom] does on a history that is not empty: the
    downloads of the part it sends, then, when they all succeed, one
    chat request with the system messages and the translations of the
    resolved messages. *)
Lemma callModelCustom_run isUrl isCC net env msgs config c key (l : Message) log :
  CustomCallModel.XAI_API_KEY env = Some (c :: key) ->
  last msgs = Some l ->
  let run := CustomCallModel.callModelCustom isUrl isCC net env msgs config log in
  let sent := sent_history isCC config msgs in
  let urls := resolved_urls isUrl sent in
  let request :=
    custom_request env (c :: key)
      (sent_prompt isCC config msgs
       ++ map (fun m => CustomCallModel.convertMessageToGrokFormat
                          (resolved isUrl net m)) sent) in
  run.1 = log ++ map GET urls
          ++ (if forallb (fetched net) urls then [POST request] else [])
  /\ (forallb (fetched net) urls = false -> run.2 = Throw NetworkError).
Proof.
  intros Hkey Hlast run sent urls request.
  subst run sent urls request.
  unfold sent_history, sent_prompt, only_last, retention_on.
  unfold CustomCallModel.callModelCustom.
  rewrite Hkey, last_map_Some, Hlast.
  unfold CustomCallModel.getConfigurationWithDefaults.
  cbn [CustomCallModel.cfg_zdrEnabled CustomCallModel.cfg_prompt
       CustomCallModel.cfg_environment].
  assert (default false (CustomCallModel.zdrEnabled config)
          = match CustomCallModel.zdrEnabled config with
            | Some true => true
            | _ => false
            end) as -> by by destruct (CustomCallModel.zdrEnabled config) as [[|]|].
  destruct (isCC l && negb _).
  - unfold bind. rewrite update_run.
    destruct (forallb _ _).
    + rewrite createChatCompletion_log, <- app_assoc. done.
    + by rewrite app_nil_r.
  - unfold bind. rewrite invoke_all_run.
    destruct (forallb _ _).
    + rewrite createChatCompletion_log, <- app_assoc, map_map. split; [|done].
      do 3 f_equal. unfold custom_request, CustomCallModel.post_request,
        CustomCallModel.chat_data. simpl. do 4 f_equal.
      unfold system_messages.
      by destruct (CustomCallModel.prompt config) as [[[|]|]|].
    + by rewrite app_nil_r.
Qed.

(** C6, as the code has it.  Of the part of the history it sends,
    [callModelCustom] resolves every tool result whose
    [additional_kwargs.type] is [computer_call_output] and whose
    content is a string the URL parser accepts: it fetches these
    resources and no others; when all fetches succeed it posts one
    request in which each such message is an image part holding the
    [data:image/png;base64,] URI of the bytes, and every other message
    is translated as it is; when a fetch fails it throws that failure
    and posts nothing. *)
Theorem computer_call_url_is_inlined
        isUrl isCC net env config msgs c key log :
  CustomCallModel.XAI_API_KEY env = Some (c :: key) ->
  msgs <> [] ->
  let run := CustomCallModel.callModelCustom isUrl isCC net env msgs config log in
  let sent := sent_history isCC config msgs in
  let urls := resolved_urls isUrl sent in
  let inline bytes := js "data:image/png;base64," ++ base64 bytes in
  let wire_of m :=
    CustomCallModel.convertMessageToGrokFormat (resolved isUrl net m) in
  (forall u,
      u ∈ urls
      <-> exists m, m ∈ sent /\ computer_call_url isUrl m = true
                    /\ content m = JStr u)
  /\ (Forall (fun u => is_Some (http_get net u)) urls ->
      exists r prefix,
        run.1 = log ++ map GET urls ++ [POST r]
        /\ messages (request_body r) = prefix ++ map wire_of sent)
  /\ (forall m u bytes,
        computer_call_url isUrl m = true -> content m = JStr u ->
        http_get net u = Some bytes ->
        wire_of m = wire "user" (Parts [ImageUrl (inline bytes)]))
  /\ (forall m,
        computer_call_url isUrl m = false ->
        wire_of m = CustomCallModel.convertMessageToGrokFormat m)
  /\ (Exists (fun u => http_get net u = None) urls ->
      run.2 = Throw NetworkError /\ run.1 = log ++ map GET urls).
Proof.
  intros Hkey Hne run sent urls inline wire_of.
  destruct (last msgs) as [l|] eqn:Hlast;
    [|by apply last_None in Hlast].
  destruct (callModelCustom_run isUrl isCC net env msgs config c key l log
              Hkey Hlast) as [Hlog Hfail].
  fold run sent urls in Hlog, Hfail.
  split; [|split; [|split; [|split]]].
  - intros u. subst urls. unfold resolved_urls. rewrite list_elem_of_omap.
    split.
    + intros (m & Hm & Hu). exists m. split; [done|].
      destruct (computer_call_url isUrl m); [|done].
      destruct (content m); try done. by simplify_eq.
    + intros (m & Hm & Hg & Hc). exists m. split; [done|]. by rewrite Hg, Hc.
  - intros Hall%fetched_all. rewrite Hall in Hlog. by eexists _, _.
  - intros m u bytes Hg Hc Hget. subst wire_of. simpl. unfold resolved.
    assert (Htool : has_type m "tool" = true).
    { unfold computer_call_url in Hg. by destruct (has_type m "tool"). }
    rewrite Hg, Hc, Hget. apply convert_tool_data_uri; done.
  - intros m Hg. subst wire_of. simpl. unfold resolved. by rewrite Hg.
  - intros Hsome%fetched_some. rewrite Hsome, app_nil_r in Hlog.
    split; [by apply Hfail|done].
Qed.

Lemma computer_call_url_is_inlined_witness :
  exists r,
    (CustomCallModel.callModelCustom https_url is_computer_call network_images
       env_with_key [human_request; plain_url_result; computer_call_result]
       {| CustomCallModel.zdrEnabled := Some true;
          CustomCallModel.environment := None;
          CustomCallModel.prompt := None |} []).1
    = [GET shot_url; POST r]
    /\ map wire_content (messages (request_body r))
       = [Plain (str "open example.com"); Plain (JStr shot_url);
          Parts [ImageUrl (js "data:image/png;base64,iVBORw==")]].
Proof.
  destruct (computer_call_url_is_inlined https_url is_computer_call network_images
              env_with_key
              {| CustomCallModel.zdrEnabled := Some true;
                 CustomCallModel.environment := None;
                 CustomCallModel.prompt := None |}
              [human_request; plain_url_result; computer_call_result]
              120%N (js "ai-key") [] eq_refl ltac:(done))
    as (_ & H & _).
  destruct H as (r & prefix & Hlog & Hmsgs); [by repeat constructor|].
  exists r. split; [exact Hlog|].
  simpl in Hlog. injection Hlog as <-. reflexivity.
Defined.

(** C6 as stated fails: a tool result whose content is a URL but whose
    [additional_kwargs.type] is not [computer_call_output] is not
    fetched, and its bare URL is posted to the provider. *)
Lemma bare_url_forwarded :
  content plain_url_result = JStr shot_url
  /\ https_url shot_url = true
  /\ is_image_data_uri (content plain_url_result) = false
  /\ (CustomCallModel.callModelCustom https_url (fun _ => true) network_images
        env_with_key [plain_url_result] default_config []).1
     = [POST (CustomCallModel.post_request test_client (js "chat/completions")
                (CustomCallModel.chat_data
                   [{| role := js "tool";
                       wire_content := Plain (JStr shot_url);
                       wire_tool_calls := None;
                       wire_tool_call_id := Some (Some (str "call_3")) |}]
                   [CustomCallModel.createComputerUseTool (js "web")]))].
Proof. repeat split; reflexivity. Qed.

(** C7, as the code has it.  On a history that is not empty:
    when the retention flag is not on and the library predicate
    accepts the last message, [callModelCustom] posts that message
    alone, resolved, with no system message; in every other case it
    posts the whole resolved history after the system prompt of the
    caller, which is one message when a prompt is given and is not
    the empty string, and none otherwise.  On an empty history it
    throws before it sends anything. *)
Theorem history_selection isUrl isCC net env config msgs c key log :
  CustomCallModel.XAI_API_KEY env = Some (c :: key) ->
  let run := CustomCallModel.callModelCustom isUrl isCC net env msgs config log in
  let wire_of m :=
    CustomCallModel.convertMessageToGrokFormat (resolved isUrl net m) in
  let p := CustomCallModel.prompt config in
  (msgs = [] -> run = (log, Throw TypeError))
  /\ (forall l,
        last msgs = Some l ->
        (isCC l = true -> CustomCallModel.zdrEnabled config <> Some true ->
         Forall (fun u => is_Some (http_get net u)) (resolved_urls isUrl [l]) ->
         exists r,
           run.1 = log ++ map GET (resolved_urls isUrl [l]) ++ [POST r]
           /\ messages (request_body r) = [wire_of l])
        /\ (isCC l = false \/ CustomCallModel.zdrEnabled config = Some true ->
            Forall (fun u => is_Some (http_get net u)) (resolved_urls isUrl msgs) ->
            exists r,
              run.1 = log ++ map GET (resolved_urls isUrl msgs) ++ [POST r]
              /\ messages (request_body r)
                 = system_messages p ++ map wire_of msgs))
  /\ (length (system_messages p) <= 1)%nat
  /\ (system_messages p = []
      <-> p = None \/ p = Some (CustomCallModel.PromptString [])).
Proof.
  intros Hkey run wire_of p. split; [|split; [|split]].
  - intros ->. subst run. unfold CustomCallModel.callModelCustom.
    by rewrite Hkey.
  - intros l Hlast.
    destruct (callModelCustom_run isUrl isCC net env msgs config c key l log
                Hkey Hlast) as [Hlog _].
    fold run in Hlog.
    unfold sent_history, sent_prompt, only_last, retention_on in Hlog.
    rewrite Hlast in Hlog. split.
    + intros Hcc Hzdr Hall%fetched_all. rewrite Hcc in Hlog.
      destruct (CustomCallModel.zdrEnabled config) as [[|]|]; [done| |];
        cbn [andb negb] in Hlog; rewrite Hall in Hlog; by eexists.
    + intros Hother Hall%fetched_all.
      assert (isCC l
              && negb match CustomCallModel.zdrEnabled config with
                      | Some true => true
                      | _ => false
                      end = false) as Hsel.
      { destruct Hother as [->| ->]; [done|apply andb_false_r]. }
      rewrite Hsel, Hall in Hlog. by eexists.
  - subst p. unfold system_messages.
    destruct (CustomCallModel.prompt config) as [[s|m]|]; simpl; try lia.
    case_bool_decide; simpl; lia.
  - subst p. unfold system_messages.
    destruct (CustomCallModel.prompt config) as [[s|m]|]; simpl.
    + case_bool_decide as Hs.
      * subst. split; [by right|done].
      * split; [done|]. intros [H|H]; [done|]. by injection H.
    + split; [done|]. by intros [H|H].
    + split; [by left|done].
Qed.

Lemma history_selection_witness :
  exists r,
    (CustomCallModel.callModelCustom https_url is_computer_call network_images
       env_with_key [human_request; computer_call_result] default_config []).1
    = [GET shot_url; POST r]
    /\ messages (request_body r)
       = [wire "user" (Parts [ImageUrl (js "data:image/png;base64,iVBORw==")])].
Proof.
  destruct (history_selection https_url is_computer_call network_images
              env_with_key default_config [human_request; computer_call_result]
              120%N (js "ai-key") [] eq_refl) as (_ & H & _).
  destruct (H computer_call_result eq_refl) as [Hlast _].
  destruct Hlast as (r & Hlog & Hmsgs);
    [reflexivity|discriminate|by repeat constructor|].
  exists r. split; [exact Hlog|exact Hmsgs].
Defined.

(** C7 as stated fails: with the retention flag off and a plain tool
    result (one the library predicate does not accept) as the last
    message, the whole history is posted, not that message alone. *)
Lemma plain_tool_result_posts_history :
  has_type click_result "tool" = true
  /\ CustomCallModel.zdrEnabled default_config = None
  /\ exists r,
      (CustomCallModel.callModelCustom https_url is_computer_call network_images
         env_with_key [human_request; click_result] default_config []).1
      = [POST r]
      /\ map role (messages (request_body r)) = [js "user"; js "tool"].
Proof. split; [reflexivity|]. split; [reflexivity|]. by eexists. Qed.

(** ** Splitting the arguments of a streamed tool call *)

(** C1 at a failing input: the fragment [1] parses on its own, so it
    is merged as an object and never reaches the raw buffer; the
    assembler ends with [{a: 2}] where the unsplit text gives
    [{a: 12}]. *)
Theorem split_arguments_differ :
  final_arguments (GrokPatch.assemble true whole_arguments)
  = Some [JObj [(js "a", num 12)]]
  /\ final_arguments (GrokPatch.assemble true split_arguments)
     = Some [JObj [(js "a", num 2)]].
Proof. split; reflexivity. Qed.

(** The generator of the streaming client parses every fragment on
    its own: a split anywhere loses the arguments. *)
Example split_arguments_lost :
  (fun ms => map (fun m => map tc_args (tool_calls m)) ms)
    <$> StreamingClient.streamChatCompletion
          [tool_call_line "{'index':0,'id':'c1','function':{'name':'computer_use','arguments':'{\'a\':'}}";
           tool_call_line "{'index':0,'function':{'arguments':'12}'}}"]
  = Some [[JObj []]].
Proof. reflexivity. Qed.

(** ** The final message *)

(** The final message of [_streamGenerate] keeps the invocations
    whose id and name are truthy. *)
Lemma final_message_filtered (a : Acc) :
  Forall (fun tc => truthy (tc_id tc) = true /\ truthy (tc_name tc) = true)
         (tool_calls (GrokPatch.final_message a)).
Proof.
  unfold GrokPatch.final_message. simpl. apply Forall_forall.
  intros tc Hin%list_elem_of_In. apply filter_In in Hin as [_ Hin].
  by apply andb_true_iff in Hin.
Qed.

Lemma assemble_filtered cb chunks m st :
  GrokPatch.assemble cb chunks = Some (m, st) ->
  Forall (fun tc => truthy (tc_id tc) = true /\ truthy (tc_name tc) = true)
         (tool_calls m).
Proof.
  unfold GrokPatch.assemble. intros H.
  destruct (GrokPatch.read_loop _ _ _ _) as [st'|]; simpl in H; [|done].
  simplify_eq. apply final_message_filtered.
Qed.

(** C2 at a failing input: the generator of the streaming client
    yields its final message with the unfiltered list, here the
    placeholder invocation with empty id and name; the assembler of
    [_streamGenerate] drops it. *)
Theorem final_yield_keeps_placeholder :
  (fun ms => tool_calls <$> last ms)
    <$> StreamingClient.streamChatCompletion index_only_stream
  = Some (Some [empty_tool_call])
  /\ (fun ms => tool_calls <$> last ms)
       <$> StreamingClient.streamChatCompletion [tool_call_line "{'index':0}"]
     = Some (Some [empty_tool_call])
  /\ (fun r => tool_calls r.1) <$> GrokPatch.assemble true index_only_stream
     = Some [].
Proof. repeat split; reflexivity. Qed.

(** ** Lines and chunks *)

Lemma split_nonempty sep s : split sep s <> [].
Proof.
  destruct s as [|c s]; simpl; [done|].
  destruct (c =? sep); [done|]. by destruct (split sep s).
Qed.

Lemma split_cons_sep sep s : split sep (sep :: s) = [] :: split sep s.
Proof. simpl. by rewrite N.eqb_refl. Qed.

Lemma split_cons_other sep c s l ls :
  c <> sep -> split sep s = l :: ls -> split sep (c :: s) = (c :: l) :: ls.
Proof.
  intros Hc Hs. simpl. apply N.eqb_neq in Hc. by rewrite Hc, Hs.
Qed.

Lemma removelast_cons2 {A} (x y : A) (l : list A) :
  removelast (x :: y :: l) = x :: removelast (y :: l).
Proof. done. Qed.

Lemma last_cons2 {A} (x y d : A) (l : list A) :
  List.last (x :: y :: l) d = List.last (y :: l) d.
Proof. done. Qed.

(** Splitting a concatenation: the lines of the first text but the
    last, then the lines of the last one followed by the second text. *)
Lemma split_app sep x y :
  split sep (x ++ y)
  = removelast (split sep x) ++ split sep (List.last (split sep x) [] ++ y).
Proof.
  induction x as [|c x IH]; [done|].
  destruct (N.eq_dec c sep) as [->|Hc].
  - rewrite <- app_comm_cons, !split_cons_sep, IH.
    pose proof (split_nonempty sep x) as Hne.
    destruct (split sep x) as [|l ls]; [done|].
    by rewrite removelast_cons2, last_cons2.
  - pose proof (split_nonempty sep x) as Hne.
    destruct (split sep x) as [|l [|l2 ls]] eqn:Hx; [done| |].
    + rewrite (split_cons_other sep c x l []) by done. simpl in IH |- *.
      apply N.eqb_neq in Hc. rewrite Hc, IH. done.
    + rewrite (split_cons_other sep c x l (l2 :: ls)) by done.
      rewrite removelast_cons2, last_cons2 in *.
      rewrite <- !app_comm_cons.
      apply (split_cons_other sep c (x ++ y)); [done|]. by rewrite IH.
Qed.

Lemma split_line sep l : sep ∉ l -> split sep l = [l].
Proof.
  induction l as [|c l IH]; [done|].
  intros Hnot. apply not_elem_of_cons in Hnot as [Hc Hl].
  apply (split_cons_other sep c l l []); [done|]. by apply IH.
Qed.

Lemma split_line_app sep l y :
  sep ∉ l -> split sep (l ++ sep :: y) = l :: split sep y.
Proof.
  intros Hl. rewrite split_app, split_line by done. simpl.
  induction l as [|c l IH]; simpl.
  - by rewrite N.eqb_refl.
  - apply not_elem_of_cons in Hl as [Hc Hl]. apply N.eqb_neq in Hc.
    rewrite N.eqb_sym in Hc. rewrite Hc.
    assert (split sep (l ++ sep :: y) = l :: split sep y) as ->; [|done].
    rewrite split_app, split_line by done. simpl. by apply IH.
Qed.

Lemma removelast_app_nonempty {A} (l1 l2 : list A) :
  l2 <> [] -> removelast (l1 ++ l2) = l1 ++ removelast l2.
Proof. intros H. by apply removelast_app. Qed.

Lemma last_app_nonempty {A} (l1 l2 : list A) (d : A) :
  l2 <> [] -> List.last (l1 ++ l2) d = List.last l2 d.
Proof.
  intros H. induction l1 as [|x l1 IH]; [done|].
  rewrite <- app_comm_cons. destruct (l1 ++ l2) eqn:E; [|done].
  by apply app_eq_nil in E as [_ ?].
Qed.

(** ** A malformed event line *)

Lemma at_line_start_app x y :
  at_line_start (x ++ y) -> at_line_start (List.last (split 10 x) [] ++ y).
Proof.
  unfold at_line_start. rewrite (split_app 10 x y).
  by rewrite last_app_nonempty by apply split_nonempty.
Qed.

(** The lines of a chunk that holds a whole line [line] at a line
    start. *)
Lemma split_insert_line buf a line b :
  10 ∉ line -> at_line_start (buf ++ a) ->
  removelast (split 10 (buf ++ a ++ line ++ [10] ++ b))
  = removelast (split 10 (buf ++ a)) ++ line :: removelast (split 10 b)
  /\ removelast (split 10 (buf ++ a ++ b))
     = removelast (split 10 (buf ++ a)) ++ removelast (split 10 b)
  /\ List.last (split 10 (buf ++ a ++ line ++ [10] ++ b)) []
     = List.last (split 10 b) []
  /\ List.last (split 10 (buf ++ a ++ b)) [] = List.last (split 10 b) [].
Proof.
  intros Hline Hstart. unfold at_line_start in Hstart.
  assert (H1 : split 10 (buf ++ a ++ line ++ [10] ++ b)
               = removelast (split 10 (buf ++ a)) ++ line :: split 10 b).
  { rewrite (app_assoc buf a), split_app, Hstart. simpl.
    by rewrite split_line_app. }
  assert (H2 : split 10 (buf ++ a ++ b)
               = removelast (split 10 (buf ++ a)) ++ split 10 b).
  { by rewrite (app_assoc buf a), split_app, Hstart. }
  pose proof (split_nonempty 10 b) as Hb.
  rewrite H1, H2. repeat split.
  - rewrite removelast_app_nonempty by done.
    destruct (split 10 b); [done|]. by rewrite removelast_cons2.
  - by rewrite removelast_app_nonempty.
  - rewrite last_app_nonempty by done. destruct (split 10 b); done.
  - by rewrite last_app_nonempty.
Qed.

Lemma buffer_after_last buffer chunks y :
  List.last (split 10 (buffer_after buffer chunks ++ y)) []
  = List.last (split 10 (buffer ++ concat chunks ++ y)) [].
Proof.
  revert buffer. induction chunks as [|c cs IH]; intros buffer; simpl; [done|].
  rewrite IH. rewrite <- (app_assoc c), (app_assoc buffer c).
  rewrite (split_app 10 (buffer ++ c)).
  by rewrite last_app_nonempty by apply split_nonempty.
Qed.

Lemma at_line_start_buffer chunks a :
  at_line_start (concat chunks ++ a) ->
  at_line_start (buffer_after [] chunks ++ a).
Proof. unfold at_line_start. by rewrite buffer_after_last. Qed.

Module GrokPatchFacts.
Import GrokPatch.







Lemma read_loop_app cb cs1 cs2 buffer st :
  read_loop cb (cs1 ++ cs2) buffer st
  = read_loop cb cs1 buffer st ≫= read_loop cb cs2 (buffer_after buffer cs1).
Proof.
  revert buffer st. induction cs1 as [|c cs IH]; intros buffer st; simpl; [done|].
  destruct (for_lines cb _ st) as [st'|]; simpl; [apply IH|done].
Qed.


End GrokPatchFacts.

Module StreamingClientFacts.
Import StreamingClient.





Lemma read_loop_chunks chunks buffer st :
  read_loop chunks buffer st = finish <$> read_chunks chunks buffer st.
Proof.
  revert buffer st. induction chunks as [|c cs IH]; intros buffer st; simpl; [done|].
  destruct (for_lines _ st) as [[st' [|]]|]; [apply IH|done|done].
Qed.



Lemma read_chunks_app cs1 cs2 buffer st :
  read_chunks (cs1 ++ cs2) buffer st
  = match read_chunks cs1 buffer st with
    | Some (st', Continue) => read_chunks cs2 (buffer_after buffer cs1) st'
    | r => r
    end.
Proof.
  revert buffer st. induction cs1 as [|c cs IH]; intros buffer st; simpl; [done|].
  destruct (for_lines _ st) as [[st' [|]]|]; [apply IH|done|done].
Qed.



End StreamingClientFacts.




Example truncated_line_logged :
  (fun r => (content r.1, GrokPatch.warnings r.2))
    <$> GrokPatch.assemble true
          [content_line "Hel" ++ [10] ++ truncated_line ++ [10];
           content_line "lo" ++ [10]]
  = Some (str "Hello", [(payload truncated_line, SyntaxError)]).
Proof. reflexivity. Qed.

(** ** Fragments of one tool call *)

Lemma grow_length i calls : (i < length (grow i calls))%nat.
Proof. unfold grow. rewrite length_app, length_replicate. lia. Qed.

Lemma grow_full i calls : (i < length calls)%nat -> grow i calls = calls.
Proof.
  intros H. unfold grow. replace (S i - length calls)%nat with 0%nat by lia.
  apply app_nil_r.
Qed.

Lemma grow_empty i : grow i [] = replicate (S i) empty_tool_call.
Proof. done. Qed.

Section Converge.

(** What a fragment does to the invocation it addresses: any update
    that sets the id and the name when the fragment has them. *)
Variable merge : JValue -> ToolCall -> ToolCall.
Hypothesis merge_id : forall d tc,
    tc_id (merge d tc)
    = if truthy (fragment_id d) then fragment_id d else tc_id tc.
Hypothesis merge_name : forall d tc,
    tc_name (merge d tc)
    = if truthy (fragment_name d) then fragment_name d else tc_name tc.

Variable i : nat.
Variables ID NAME : value.

Lemma converging_first (d : JValue) :
  truthy (fragment_id d) = false -> truthy (fragment_name d) = false ->
  converging i ID NAME false false (apply_fragment merge i [] d).
Proof.
intros Hid Hname. unfold apply_fragment. rewrite grow_empty.
split; [by rewrite length_alter, length_replicate|]. split.
- intros j Hj. rewrite list_lookup_alter_ne by lia.
  apply lookup_replicate_2. lia.
- exists (merge d empty_tool_call). split.
  + rewrite list_lookup_alter_eq, lookup_replicate_2 by lia. done.
  + by rewrite merge_id, merge_name, Hid, Hname.
Qed.

Lemma converging_step (d : JValue) seen_id seen_name calls :
  (truthy (fragment_id d) = true -> fragment_id d = ID) ->
  (truthy (fragment_name d) = true -> fragment_name d = NAME) ->
  converging i ID NAME seen_id seen_name calls ->
  converging i ID NAME (seen_id || truthy (fragment_id d))
             (seen_name || truthy (fragment_name d))
             (apply_fragment merge i calls d).
Proof.
intros Hid Hname (Hlen & Hlow & tc & Htc & Htid & Htname).
unfold apply_fragment. rewrite grow_full by lia.
split; [by rewrite length_alter|]. split.
- intros j Hj. rewrite list_lookup_alter_ne by lia. by apply Hlow.
- exists (merge d tc). split; [by rewrite list_lookup_alter_eq, Htc|].
  rewrite merge_id, merge_name, Htid, Htname.
  split.
  + destruct (truthy (fragment_id d));
      rewrite ?orb_true_r, ?orb_false_r; [by apply Hid|done].
  + destruct (truthy (fragment_name d));
      rewrite ?orb_true_r, ?orb_false_r; [by apply Hname|done].
Qed.

Lemma converging_fold (ds : list JValue) seen_id seen_name calls :
  Forall (fun d => truthy (fragment_id d) = true -> fragment_id d = ID) ds ->
  Forall (fun d => truthy (fragment_name d) = true -> fragment_name d = NAME) ds ->
  converging i ID NAME seen_id seen_name calls ->
  converging i ID NAME (seen_id || existsb (fun d => truthy (fragment_id d)) ds)
             (seen_name || existsb (fun d => truthy (fragment_name d)) ds)
             (fold_left (apply_fragment merge i) ds calls).
Proof.
revert seen_id seen_name calls.
induction ds as [|d ds IH]; intros seen_id seen_name calls Hids Hnames Hc; simpl.
- by rewrite !orb_false_r.
- inversion Hids; inversion Hnames; subst.
  rewrite !orb_assoc. apply IH; [done|done|]. by apply converging_step.
Qed.

(** The fragments converge to one invocation with the id and the
    name. *)
Lemma fragments_converge (first : JValue) (rest : list JValue) :
  truthy (fragment_id first) = false -> truthy (fragment_name first) = false ->
  truthy ID = true -> truthy NAME = true ->
  Forall (fun d => truthy (fragment_id d) = true -> fragment_id d = ID) rest ->
  Exists (fun d => fragment_id d = ID) rest ->
  Forall (fun d => truthy (fragment_name d) = true -> fragment_name d = NAME) rest ->
  Exists (fun d => fragment_name d = NAME) rest ->
  converging i ID NAME true true (fold_left (apply_fragment merge i) (first :: rest) []).
Proof.
intros Hid Hname HID HNAME Hids Heid Hnames Hename. simpl.
assert (existsb (fun d => truthy (fragment_id d)) rest = true) as Hsid.
{ apply existsb_exists. apply Exists_exists in Heid as (d & Hin & Hd).
  exists d. split; [by apply list_elem_of_In|]. by rewrite Hd. }
assert (existsb (fun d => truthy (fragment_name d)) rest = true) as Hsname.
{ apply existsb_exists. apply Exists_exists in Hename as (d & Hin & Hd).
  exists d. split; [by apply list_elem_of_In|]. by rewrite Hd. }
pose proof (converging_fold rest false false (apply_fragment merge i [] first)
              Hids Hnames (converging_first first Hid Hname)) as H.
by rewrite Hsid, Hsname in H.
Qed.

End Converge.

(** ** The assembler on well-formed fragments *)

Lemma get_field (d : JValue) (k : string) :
  d <> JNull -> get (Some d) (js k) = Ok (field d k).
Proof. unfold field. by destruct d. Qed.

Lemma fragment_not_null i d : fragment_index d = Ok i -> d <> JNull.
Proof. by intros H ->. Qed.

Lemma truthy_not_null (v : JValue) : truthy (Some v) = true -> v <> JNull.
Proof. by intros H ->. Qed.

Lemma on_tool_calls_compose f g a :
  on_tool_calls f (on_tool_calls g a) = on_tool_calls (fun calls => f (g calls)) a.
Proof. done. Qed.

Lemma alter_twice {A} (f g : A -> A) (i : nat) (l : list A) :
  alter f i (alter g i l) = alter (fun x => f (g x)) i l.
Proof.
  revert i. induction l as [|x l IH]; intros [|i]; simpl; try done.
  f_equal. apply IH.
Qed.

Lemma on_tool_calls_ext f g a :
  f (accumulatedToolCalls a) = g (accumulatedToolCalls a) ->
  on_tool_calls f a = on_tool_calls g a.
Proof. intros H. unfold on_tool_calls. by rewrite H. Qed.

Lemma on_tool_calls_alter_id i a :
  on_tool_calls (alter (fun tc => tc) i) a = a.
Proof.
  destruct a. unfold on_tool_calls. simpl. f_equal. by apply list_alter_id.
Qed.

Lemma when_update_call (b : bool) i f a :
  when b (update_call i f) a
  = (on_tool_calls (alter (if b then f else fun tc => tc) i) a, Ok tt).
Proof.
  destruct b; simpl; [done|]. unfold ret. by rewrite on_tool_calls_alter_id.
Qed.

Lemma grok_merge_id d tc :
  tc_id (grok_merge d tc)
  = if truthy (fragment_id d) then fragment_id d else tc_id tc.
Proof.
  unfold grok_merge, grok_arguments_merge, name_merge, id_merge.
  repeat case_match; done.
Qed.

Lemma grok_merge_name d tc :
  tc_name (grok_merge d tc)
  = if truthy (fragment_name d) then fragment_name d else tc_name tc.
Proof.
  unfold grok_merge, grok_arguments_merge, name_merge, id_merge.
  repeat case_match; done.
Qed.

Lemma text_or_absent_cases (v : value) :
  text_or_absent v = true ->
  truthy v = false \/ exists s, v = Some (JStr s) /\ s <> [].
Proof.
  unfold text_or_absent. destruct v as [[| | |s| |]|]; simpl; try done;
    try (intros H%negb_true_iff; by left); try by left.
  intros _. destruct (decide (s = [])) as [->|Hs]; [by left|].
  right. by exists s.
Qed.

Lemma grok_function_phase i d a :
  text_or_absent (fragment_arguments d) = true ->
  when (truthy (field d "function"))
    (bind (lift (get (field d "function") (js "name")))
       (fun name =>
          bind (when (truthy name) (update_call i (with_name name)))
            (fun _ =>
               bind (lift (get (field d "function") (js "arguments")))
                 (fun arguments =>
                    when (truthy arguments)
                      (bind (lift (as_string arguments))
                         (fun fragment =>
                            match JSON_parse fragment with
                            | Some args =>
                                update_call i
                                  (fun tc =>
                                     with_args (spread (tc_args tc) args) tc)
                            | None =>
                                update_call i
                                  (fun tc =>
                                     let argsString :=
                                       default [] (tc_argsString tc) ++ fragment in
                                     let tc' := with_argsString argsString tc in
                                     match JSON_parse argsString with
                                     | Some args => with_args args tc'
                                     | None => tc'
                                     end)
                            end)))))) a
  = (on_tool_calls
       (alter (fun tc => grok_arguments_merge d (name_merge d tc)) i) a, Ok tt).
Proof.
  intros Ha. unfold grok_arguments_merge, name_merge, fragment_name,
    fragment_arguments in *. unfold fragment_function in *.
  destruct (field d "function") as [fn|] eqn:Hfn.
  2:{ simpl. unfold ret. by rewrite on_tool_calls_alter_id. }
  destruct (truthy (Some fn)) eqn:Hfnt.
  2:{ simpl. unfold ret. by rewrite on_tool_calls_alter_id. }
  pose proof (truthy_not_null fn Hfnt) as Hnn.
  unfold when at 1.
  unfold bind at 1. unfold lift at 1. rewrite (get_field fn "name") by done.
  unfold bind at 1. rewrite when_update_call.
  unfold bind at 1. unfold lift at 1. rewrite (get_field fn "arguments") by done.
  destruct (text_or_absent_cases _ Ha) as [Hfalse|(s & Hs & Hne)].
  - rewrite Hfalse. simpl. unfold ret. f_equal.
    apply on_tool_calls_ext, list_alter_ext; [|done]. intros tc _.
    destruct (field fn "arguments") as [[| | |s| |]|];
      try by destruct (truthy (field fn "name")).
    simpl in Hfalse. apply negb_false_iff in Hfalse. rewrite Hfalse.
    by destruct (truthy (field fn "name")).
  - rewrite Hs. simpl truthy. rewrite bool_decide_eq_false_2 by done.
    simpl when. unfold bind at 1. unfold lift at 1. simpl as_string. cbv iota beta.
    destruct (JSON_parse s) eqn:Hp; unfold update_call, modify;
      rewrite on_tool_calls_compose; f_equal;
      apply on_tool_calls_ext;
      rewrite alter_twice; apply list_alter_ext; try done;
      intros tc _; simpl; by destruct (truthy (field fn "name")).
Qed.

Lemma grok_process_fragment i d a :
  fragment_at i d ->
  GrokPatch.process_tool_call_delta (Some d) a
  = (on_tool_calls (fun calls => alter (grok_merge d) i (grow i calls)) a, Ok tt).
Proof.
  intros [Hi Ha]. pose proof (fragment_not_null i d Hi) as Hd.
  unfold GrokPatch.process_tool_call_delta.
  unfold fragment_index in Hi. rewrite (get_field d "index") in Hi |- * by done.
  unfold bind at 1. unfold lift at 1.
  unfold bind at 1. unfold lift at 1. rewrite Hi.
  unfold bind at 1. unfold modify at 1.
  unfold bind at 1. unfold lift at 1. rewrite (get_field d "id") by done.
  unfold bind at 1. rewrite when_update_call.
  unfold bind at 1. unfold lift at 1. rewrite (get_field d "function") by done.
  rewrite (grok_function_phase i d _ Ha). rewrite !on_tool_calls_compose.
  f_equal. apply on_tool_calls_ext.
  rewrite !alter_twice. apply list_alter_ext; [|done].
  intros tc _. unfold grok_merge, id_merge, fragment_id. simpl.
  by destruct (truthy (field d "id")).
Qed.

Lemma field_some_not_null (d : JValue) (k : string) (v : JValue) :
  field d k = Some v -> d <> JNull.
Proof. by intros H ->. Qed.

Lemma when_modify {S} (b : bool) (f : S -> S) (s : S) :
  when b (modify f) s = (if b then f s else s, Ok tt).
Proof. by destruct b. Qed.

Lemma event_line_not_sentinel line ev :
  event_line line ev -> jsstring_eqb (payload line) (js "[DONE]") = false.
Proof.
  intros (_ & _ & Hparse). unfold jsstring_eqb.
  apply bool_decide_eq_false_2. intros Heq.
  rewrite Heq, JSON_parse_sentinel in Hparse. done.
Qed.

(** The text of some lines, each closed by a newline, splits into
    these lines. *)
Lemma split_lines (lines : list jsstring) :
  Forall (fun l => 10 ∉ l) lines ->
  split 10 (concat (map (fun l => l ++ [10]) lines)) = lines ++ [[]].
Proof.
  induction 1 as [|l ls Hl Hls IH]; [done|].
  simpl. rewrite <- app_assoc. simpl. by rewrite split_line_app, IH.
Qed.

Lemma grok_process_line_no_break cb line st st' :
  sentinel_line line = false ->
  GrokPatch.process_line cb line st <> Some (st', Break).
Proof.
  unfold sentinel_line, GrokPatch.process_line. fold (payload line).
  destruct (startsWith (trim line) (js "data: ")); [|done]. simpl.
  intros ->. by repeat case_match.
Qed.

Lemma grok_for_lines_app cb ls1 ls2 st :
  Forall (fun l => sentinel_line l = false) ls1 ->
  GrokPatch.for_lines cb (ls1 ++ ls2) st
  = GrokPatch.for_lines cb ls1 st ≫= GrokPatch.for_lines cb ls2.
Proof.
  intros H. revert st. induction H as [|l ls Hl Hls IH]; intros st; [done|].
  simpl. pose proof (grok_process_line_no_break cb l st) as Hnb.
  destruct (GrokPatch.process_line cb l st) as [[st' [|]]|]; [apply IH| |done].
  by destruct (Hnb st' Hl).
Qed.

Lemma last_split_no_sep sep s : sep ∉ List.last (split sep s) [].
Proof.
  induction s as [|c s IH]; simpl; [by apply not_elem_of_nil|].
  pose proof (split_nonempty sep s) as Hne.
  destruct (N.eqb_spec c sep) as [->|Hc].
  - destruct (split sep s); [done|]. by rewrite last_cons2.
  - destruct (split sep s) as [|l [|l2 ls]]; [done| |].
    + simpl in *. by apply not_elem_of_cons.
    + by rewrite last_cons2 in *.
Qed.

(** Without a sentinel the read loop is the line loop over the
    complete lines of the whole text, however it is cut in chunks. *)
Lemma grok_read_loop_lines cb chunks buffer st :
  10 ∉ buffer ->
  Forall (fun l => sentinel_line l = false)
         (removelast (split 10 (buffer ++ concat chunks))) ->
  GrokPatch.read_loop cb chunks buffer st
  = GrokPatch.for_lines cb (removelast (split 10 (buffer ++ concat chunks))) st.
Proof.
  revert buffer st. induction chunks as [|c cs IH]; intros buffer st Hbuf Hall.
  - simpl. rewrite app_nil_r, split_line by done. done.
  - simpl concat in *. rewrite app_assoc, split_app in Hall |- *.
    pose proof (split_nonempty 10
                  (List.last (split 10 (buffer ++ c)) [] ++ concat cs)) as Hne.
    rewrite removelast_app_nonempty in Hall |- * by done.
    apply Forall_app in Hall as [Hall1 Hall2].
    rewrite grok_for_lines_app by done. simpl.
    destruct (GrokPatch.for_lines cb _ st) as [st'|]; [|done]. simpl.
    apply IH; [apply last_split_no_sep|done].
Qed.

(** *** The generator of the streaming client on the same fragments *)

Lemma client_merge_id d tc :
  tc_id (client_merge d tc)
  = if truthy (fragment_id d) then fragment_id d else tc_id tc.
Proof.
  unfold client_merge, client_arguments_merge, name_merge, id_merge.
  repeat case_match; done.
Qed.

Lemma client_merge_name d tc :
  tc_name (client_merge d tc)
  = if truthy (fragment_name d) then fragment_name d else tc_name tc.
Proof.
  unfold client_merge, client_arguments_merge, name_merge, id_merge.
  repeat case_match; done.
Qed.

Lemma client_function_phase i d a :
  text_or_absent (fragment_arguments d) = true ->
  when (truthy (field d "function"))
    (bind (lift (get (field d "function") (js "name")))
       (fun name =>
          bind (when (truthy name) (update_call i (with_name name)))
            (fun _ =>
               bind (lift (get (field d "function") (js "arguments")))
                 (fun arguments =>
                    when (truthy arguments)
                      (bind (lift (as_string arguments))
                         (fun fragment =>
                            match JSON_parse fragment with
                            | Some args =>
                                update_call i
                                  (fun tc =>
                                     with_args (spread (tc_args tc) args) tc)
                            | None => lift (Throw SyntaxError)
                            end)))))) a
  = (on_tool_calls
       (alter (fun tc => client_arguments_merge d (name_merge d tc)) i) a,
     client_outcome d).
Proof.
  intros Ha. unfold client_arguments_merge, client_outcome, name_merge,
    fragment_name, fragment_arguments in *. unfold fragment_function in *.
  destruct (field d "function") as [fn|] eqn:Hfn.
  2:{ simpl. unfold ret. by rewrite on_tool_calls_alter_id. }
  destruct (truthy (Some fn)) eqn:Hfnt.
  2:{ simpl. unfold ret. by rewrite on_tool_calls_alter_id. }
  pose proof (truthy_not_null fn Hfnt) as Hnn.
  unfold when at 1.
  unfold bind at 1. unfold lift at 1. rewrite (get_field fn "name") by done.
  unfold bind at 1. rewrite when_update_call.
  unfold bind at 1. unfold lift at 1. rewrite (get_field fn "arguments") by done.
  destruct (text_or_absent_cases _ Ha) as [Hfalse|(s & Hs & Hne)].
  - rewrite Hfalse. simpl. unfold ret.
    destruct (field fn "arguments") as [[| | |s| |]|] eqn:Hargs; simpl in *;
      try (f_equal; apply on_tool_calls_ext, list_alter_ext; [|done];
           intros tc _; by destruct (truthy (field fn "name"))).
    apply negb_false_iff in Hfalse. rewrite Hfalse.
    f_equal; apply on_tool_calls_ext, list_alter_ext; [|done].
    intros tc _; by destruct (truthy (field fn "name")).
  - rewrite Hs. simpl truthy. rewrite bool_decide_eq_false_2 by done.
    simpl when. unfold bind at 1. unfold lift at 1. simpl as_string. cbv iota beta.
    destruct (JSON_parse s) eqn:Hp; unfold update_call, modify, lift;
      rewrite ?on_tool_calls_compose; f_equal;
      apply on_tool_calls_ext;
      rewrite ?alter_twice; apply list_alter_ext; try done;
      intros tc _; simpl; by destruct (truthy (field fn "name")).
Qed.

Lemma client_process_fragment i d a :
  fragment_at i d ->
  StreamingClient.process_tool_call_delta (Some d) a
  = (on_tool_calls (fun calls => alter (client_merge d) i (grow i calls)) a,
     client_outcome d).
Proof.
  intros [Hi Ha]. pose proof (fragment_not_null i d Hi) as Hd.
  unfold StreamingClient.process_tool_call_delta.
  unfold fragment_index in Hi. rewrite (get_field d "index") in Hi |- * by done.
  unfold bind at 1. unfold lift at 1.
  unfold bind at 1. unfold lift at 1. rewrite Hi.
  unfold bind at 1. unfold modify at 1.
  unfold bind at 1. unfold lift at 1. rewrite (get_field d "id") by done.
  unfold bind at 1. rewrite when_update_call.
  unfold bind at 1. unfold lift at 1. rewrite (get_field d "function") by done.
  rewrite (client_function_phase i d _ Ha). rewrite !on_tool_calls_compose.
  f_equal. apply on_tool_calls_ext.
  rewrite !alter_twice. apply list_alter_ext; [|done].
  intros tc _. unfold client_merge, id_merge, fragment_id. simpl.
  by destruct (truthy (field d "id")).
Qed.

Lemma yield_snapshot_calls a :
  exists a',
    StreamingClient.yield_snapshot a = (a', Ok tt)
    /\ accumulatedToolCalls a' = accumulatedToolCalls a.
Proof. by eexists. Qed.

Lemma client_for_lines_app ls1 ls2 st :
  StreamingClient.for_lines (ls1 ++ ls2) st
  = match StreamingClient.for_lines ls1 st with
    | Some (st', Continue) => StreamingClient.for_lines ls2 st'
    | r => r
    end.
Proof.
  revert st. induction ls1 as [|l ls IH]; intros st; [done|]. simpl.
  destruct (StreamingClient.process_line l st) as [[st' [|]]|]; [apply IH|done|done].
Qed.

(** The generator reads the complete lines of the whole text, however
    it is cut in chunks. *)
Lemma client_read_chunks_lines chunks buffer st :
  10 ∉ buffer ->
  read_chunks chunks buffer st
  = StreamingClient.for_lines
      (removelast (split 10 (buffer ++ concat chunks))) st.
Proof.
  revert buffer st. induction chunks as [|c cs IH]; intros buffer st Hbuf.
  - simpl. rewrite app_nil_r, split_line by done. done.
  - simpl concat. rewrite app_assoc, split_app.
    pose proof (split_nonempty 10
                  (List.last (split 10 (buffer ++ c)) [] ++ concat cs)) as Hne.
    rewrite removelast_app_nonempty by done.
    rewrite client_for_lines_app. simpl.
    destruct (StreamingClient.for_lines _ st) as [[st' [|]]|]; [|done|done].
    apply IH, last_split_no_sep.
Qed.

Lemma screenshot_one_call :
  match screenshot_fragments with
  | first :: rest =>
      one_call_fragments first rest (Some (str "c1")) (Some (str "computer_use"))
  | [] => False
  end.
Proof.
  simpl. repeat split; try reflexivity.
  - repeat constructor; try reflexivity; by intros [=].
  - apply Exists_cons_hd. reflexivity.
  - repeat constructor; try reflexivity; by intros [=].
  - apply Exists_cons_tl, Exists_cons_hd. reflexivity.
Qed.

(** The scenario of the specification: id, name and the arguments in
    two pieces, then the sentinel. *)
Example scenario_final_message :
  (fun r => map (fun tc => (tc_id tc, tc_name tc, tc_args tc)) (tool_calls r.1))
    <$> GrokPatch.assemble true
          [tool_call_line "{'index':0,'id':'c1'}";
           tool_call_line "{'index':0,'function':{'name':'computer_use'}}";
           tool_call_line "{'index':0,'function':{'arguments':'{\'action\':{\'typ'}}";
           tool_call_line "{'index':0,'function':{'arguments':'e\':\'screenshot\'}}'}}";
           js "data: [DONE]" ++ [10]]
  = Some [(Some (str "c1"), Some (str "computer_use"), screenshot_args)].
Proof. reflexivity. Qed.

(** * Further properties *)

(** ** Lines the assemblers pass over *)

Lemma grok_read_loop_same cb c1 c2 chunks buffer st :
  List.last (split 10 (buffer ++ c1)) [] = List.last (split 10 (buffer ++ c2)) [] ->
  GrokPatch.for_lines cb (removelast (split 10 (buffer ++ c1))) st
  = GrokPatch.for_lines cb (removelast (split 10 (buffer ++ c2))) st ->
  GrokPatch.read_loop cb (c1 :: chunks) buffer st
  = GrokPatch.read_loop cb (c2 :: chunks) buffer st.
Proof. intros Hlast Hlines. simpl. by rewrite Hlast, Hlines. Qed.

Lemma client_read_chunks_same c1 c2 chunks buffer st :
  List.last (split 10 (buffer ++ c1)) [] = List.last (split 10 (buffer ++ c2)) [] ->
  StreamingClient.for_lines (removelast (split 10 (buffer ++ c1))) st
  = StreamingClient.for_lines (removelast (split 10 (buffer ++ c2))) st ->
  read_chunks (c1 :: chunks) buffer st = read_chunks (c2 :: chunks) buffer st.
Proof. intros Hlast Hlines. simpl. by rewrite Hlast, Hlines. Qed.

Lemma grok_for_lines_silent cb before line after st :
  (forall s, GrokPatch.process_line cb line s = Some (s, Continue)) ->
  GrokPatch.for_lines cb (before ++ line :: after) st
  = GrokPatch.for_lines cb (before ++ after) st.
Proof.
  intros Hsilent. revert st. induction before as [|l ls IH]; intros st; simpl.
  - by rewrite Hsilent.
  - destruct (GrokPatch.process_line cb l st) as [[s [|]]|]; [apply IH|done|done].
Qed.

Lemma client_for_lines_silent before line after st :
  (forall s, StreamingClient.process_line line s = Some (s, Continue)) ->
  StreamingClient.for_lines (before ++ line :: after) st
  = StreamingClient.for_lines (before ++ after) st.
Proof.
  intros Hsilent. revert st. induction before as [|l ls IH]; intros st; simpl.
  - by rewrite Hsilent.
  - destruct (StreamingClient.process_line l st) as [[s [|]]|]; [apply IH|done|done].
Qed.

(** A line that leaves every state as it is can be taken out of the
    stream. *)
Lemma grok_assemble_silent cb line cs1 a b cs2 :
  10 ∉ line -> at_line_start (concat cs1 ++ a) ->
  (forall s, GrokPatch.process_line cb line s = Some (s, Continue)) ->
  GrokPatch.assemble cb (cs1 ++ (a ++ line ++ [10] ++ b) :: cs2)
  = GrokPatch.assemble cb (cs1 ++ (a ++ b) :: cs2).
Proof.
  intros Hline Hstart%at_line_start_buffer Hsilent. unfold GrokPatch.assemble.
  rewrite !GrokPatchFacts.read_loop_app.
  destruct (GrokPatch.read_loop cb cs1 [] _) as [st1|]; [|done].
  cbn [mbind option_bind].
  destruct (split_insert_line (buffer_after [] cs1) a line b) as (H1 & H2 & H3 & H4);
    [done|done|].
  rewrite (grok_read_loop_same cb (a ++ line ++ [10] ++ b) (a ++ b)); [done| |].
  - by rewrite H3, H4.
  - rewrite H1, H2. by apply grok_for_lines_silent.
Qed.

Lemma client_stream_silent line cs1 a b cs2 :
  10 ∉ line -> at_line_start (concat cs1 ++ a) ->
  (forall s, StreamingClient.process_line line s = Some (s, Continue)) ->
  StreamingClient.streamChatCompletion (cs1 ++ (a ++ line ++ [10] ++ b) :: cs2)
  = StreamingClient.streamChatCompletion (cs1 ++ (a ++ b) :: cs2).
Proof.
  intros Hline Hstart%at_line_start_buffer Hsilent.
  unfold StreamingClient.streamChatCompletion.
  rewrite !StreamingClientFacts.read_loop_chunks.
  rewrite !StreamingClientFacts.read_chunks_app.
  destruct (read_chunks cs1 [] _) as [[st1 [|]]|]; [|done|done].
  destruct (split_insert_line (buffer_after [] cs1) a line b) as (H1 & H2 & H3 & H4);
    [done|done|].
  rewrite (client_read_chunks_same (a ++ line ++ [10] ++ b) (a ++ b)); [done| |].
  - by rewrite H3, H4.
  - rewrite H1, H2. by apply client_for_lines_silent.
Qed.

(** X1: a line that is not a data line (a comment, an [event:] field, a
    blank line, [data:] without the space) is passed over by both
    assemblers: the result, warnings included, is that of the stream
    without the line. *)
Theorem non_data_line_is_ignored cb line cs1 a b cs2 :
  10 ∉ line -> startsWith (trim line) (js "data: ") = false ->
  at_line_start (concat cs1 ++ a) ->
  GrokPatch.assemble cb (cs1 ++ (a ++ line ++ [10] ++ b) :: cs2)
  = GrokPatch.assemble cb (cs1 ++ (a ++ b) :: cs2)
  /\ StreamingClient.streamChatCompletion (cs1 ++ (a ++ line ++ [10] ++ b) :: cs2)
     = StreamingClient.streamChatCompletion (cs1 ++ (a ++ b) :: cs2).
Proof.
  intros Hline Hdata Hstart. split.
  - apply grok_assemble_silent; [done|done|].
    intros s. unfold GrokPatch.process_line. by rewrite Hdata.
  - apply client_stream_silent; [done|done|].
    intros s. unfold StreamingClient.process_line. by rewrite Hdata.
Qed.

Lemma no_newline (s : jsstring) : bool_decide (10 ∉ s) = true -> 10 ∉ s.
Proof. apply bool_decide_eq_true_1. Qed.

Lemma non_data_line_is_ignored_witness :
  GrokPatch.assemble true
    ([] ++ ((content_line "Hel" ++ [10]) ++ js "data:{}" ++ [10]
            ++ (content_line "lo" ++ [10])) :: [])
  = GrokPatch.assemble true
      ([] ++ ((content_line "Hel" ++ [10]) ++ (content_line "lo" ++ [10])) :: []).
Proof.
  apply (non_data_line_is_ignored true (js "data:{}") []
           (content_line "Hel" ++ [10]) (content_line "lo" ++ [10]) []).
  - apply no_newline. vm_compute. reflexivity.
  - reflexivity.
  - reflexivity.
Defined.

Lemma choiceless_first_steps (ev : JValue) :
  ev <> JNull -> truthy (event_choice ev) = false ->
  exists choices choice,
    get (Some ev) (js "choices") = Ok choices
    /\ (if truthy choices then get_idx choices 0 else Ok choices) = Ok choice
    /\ truthy choice = false.
Proof.
  intros Hev Hno. exists (field ev "choices").
  rewrite (get_field ev "choices") by done.
  unfold event_choice in Hno.
  destruct (field ev "choices") as [choices|] eqn:Hch.
  - destruct (truthy (Some choices)) eqn:Ht.
    + destruct choices as [| | | | |]; simpl in *; try done; eauto.
    + eauto.
  - eauto.
Qed.

Lemma grok_on_event_choiceless cb (ev : JValue) a :
  ev <> JNull -> truthy (event_choice ev) = false ->
  GrokPatch.on_event cb (Some ev) a = (a, Ok tt).
Proof.
  intros Hev Hno.
  destruct (choiceless_first_steps ev Hev Hno) as (choices & choice & H1 & H2 & H3).
  unfold GrokPatch.on_event. unfold bind at 1. unfold lift at 1. rewrite H1.
  unfold bind at 1.
  destruct (truthy choices).
  - unfold lift at 1. rewrite H2. by rewrite H3.
  - unfold ret at 1. simplify_eq. by rewrite H3.
Qed.

Lemma client_on_event_choiceless (ev : JValue) a :
  ev <> JNull -> truthy (event_choice ev) = false ->
  StreamingClient.on_event (Some ev) a = (a, Ok tt).
Proof.
  intros Hev Hno.
  destruct (choiceless_first_steps ev Hev Hno) as (choices & choice & H1 & H2 & H3).
  unfold StreamingClient.on_event. unfold bind at 1. unfold lift at 1. rewrite H1.
  unfold bind at 1.
  destruct (truthy choices).
  - unfold lift at 1. rewrite H2. by rewrite H3.
  - unfold ret at 1. simplify_eq. by rewrite H3.
Qed.

(** X2: a data event that parses to a JSON value other than [null]
    and has no first choice (no [choices], an empty array, a falsy
    first element) is ignored whole by both assemblers: its [id],
    [model] and [usage] are not recorded and nothing is logged.  The
    payload [null] has no first choice either, but reading it fails:
    both assemblers log a warning for it and leave their accumulators
    as they are. *)
Theorem event_without_choice_is_ignored
        cb line (ev : JValue) cs1 a b cs2
        (gst : GrokPatch.State) (st : StreamingClient.State) :
  event_line line ev -> truthy (event_choice ev) = false ->
  (ev <> JNull -> at_line_start (concat cs1 ++ a) ->
   GrokPatch.assemble cb (cs1 ++ (a ++ line ++ [10] ++ b) :: cs2)
   = GrokPatch.assemble cb (cs1 ++ (a ++ b) :: cs2)
   /\ StreamingClient.streamChatCompletion (cs1 ++ (a ++ line ++ [10] ++ b) :: cs2)
      = StreamingClient.streamChatCompletion (cs1 ++ (a ++ b) :: cs2))
  /\ (ev = JNull ->
      GrokPatch.process_line cb line gst
      = Some ({| GrokPatch.acc := GrokPatch.acc gst;
                 GrokPatch.warnings :=
                   GrokPatch.warnings gst ++ [(payload line, TypeError)] |},
              Continue)
      /\ StreamingClient.process_line line st
         = Some ({| StreamingClient.acc := StreamingClient.acc st;
                    StreamingClient.warnings :=
                      StreamingClient.warnings st ++ [(payload line, TypeError)] |},
                 Continue)).
Proof.
  intros Hline Hno.
  pose proof (event_line_not_sentinel line ev Hline) as Hdone.
  destruct Hline as (Hnl & Hdata & Hparse). split.
  - intros Hev Hstart. split.
    + apply grok_assemble_silent; [done|done|].
      intros s. unfold GrokPatch.process_line. fold (payload line).
      rewrite Hdata, Hdone. unfold GrokPatch.try_event.
      rewrite Hparse, grok_on_event_choiceless by done. by destruct s.
    + apply client_stream_silent; [done|done|].
      intros s. unfold StreamingClient.process_line. fold (payload line).
      rewrite Hdata, Hdone. unfold StreamingClient.try_event.
      rewrite Hparse, client_on_event_choiceless by done. by destruct s.
  - intros ->. split.
    + unfold GrokPatch.process_line. fold (payload line).
      rewrite Hdata, Hdone. unfold GrokPatch.try_event. by rewrite Hparse.
    + unfold StreamingClient.process_line. fold (payload line).
      rewrite Hdata, Hdone. unfold StreamingClient.try_event. by rewrite Hparse.
Qed.

Lemma usage_only_line_event : event_line usage_only_line usage_only_event.
Proof.
  split; [|split]; [|reflexivity|reflexivity].
  apply no_newline. vm_compute. reflexivity.
Qed.

Lemma event_without_choice_is_ignored_witness :
  GrokPatch.assemble true
    ([] ++ ((content_line "Hel" ++ [10]) ++ usage_only_line ++ [10]
            ++ (content_line "lo" ++ [10])) :: [])
  = GrokPatch.assemble true
      ([] ++ ((content_line "Hel" ++ [10]) ++ (content_line "lo" ++ [10])) :: []).
Proof.
  destruct (event_without_choice_is_ignored true usage_only_line usage_only_event
              [] (content_line "Hel" ++ [10]) (content_line "lo" ++ [10]) []
              grok_start client_start usage_only_line_event eq_refl) as [H _].
  apply H; [discriminate|reflexivity].
Defined.

(** ** The end of the stream *)

Lemma buffer_after_no_sep buffer chunks :
  10 ∉ buffer -> 10 ∉ buffer_after buffer chunks.
Proof.
  revert buffer. induction chunks as [|c cs IH]; intros buffer Hb; [done|].
  simpl. apply IH, last_split_no_sep.
Qed.

Lemma lines_of_partial buffer tail :
  10 ∉ buffer -> 10 ∉ tail ->
  removelast (split 10 (buffer ++ tail)) = []
  /\ List.last (split 10 (buffer ++ tail)) [] = buffer ++ tail.
Proof.
  intros Hb Ht. rewrite split_line; [done|].
  intros [H|H]%elem_of_app; done.
Qed.

(** X3: text after the last newline is never read as a line: when the
    stream ends, an event that is not closed by a newline is dropped by
    both assemblers. *)
Theorem unterminated_last_line_is_dropped cb chunks tail :
  10 ∉ tail ->
  GrokPatch.assemble cb (chunks ++ [tail]) = GrokPatch.assemble cb chunks
  /\ StreamingClient.streamChatCompletion (chunks ++ [tail])
     = StreamingClient.streamChatCompletion chunks.
Proof.
  intros Htail.
  pose proof (buffer_after_no_sep [] chunks (not_elem_of_nil 10)) as Hbuf.
  destruct (lines_of_partial _ _ Hbuf Htail) as [Hlines Hlast]. split.
  - unfold GrokPatch.assemble. rewrite GrokPatchFacts.read_loop_app.
    destruct (GrokPatch.read_loop cb chunks [] _) as [st|]; [|done].
    cbn [mbind option_bind]. simpl GrokPatch.read_loop. by rewrite Hlines.
  - unfold StreamingClient.streamChatCompletion.
    rewrite !StreamingClientFacts.read_loop_chunks,
      StreamingClientFacts.read_chunks_app.
    destruct (read_chunks chunks [] _) as [[st [|]]|]; [|done|done].
    simpl read_chunks. by rewrite Hlines.
Qed.

Lemma unterminated_last_line_is_dropped_witness :
  GrokPatch.assemble true ([content_line "Hel" ++ [10]] ++ [content_line "lo"])
  = GrokPatch.assemble true [content_line "Hel" ++ [10]].
Proof.
  apply (unterminated_last_line_is_dropped true [content_line "Hel" ++ [10]]
           (content_line "lo")).
  apply no_newline. vm_compute. reflexivity.
Defined.

(** X4: the messages the generator of the streaming client yields
    depend on the text of the body alone, not on the chunks it arrives
    in; the same holds for the result of [_streamGenerate] when no
    line of the text is the sentinel. *)
Theorem chunking_is_irrelevant cb chunks :
  StreamingClient.streamChatCompletion chunks
  = StreamingClient.streamChatCompletion [concat chunks]
  /\ (Forall (fun l => sentinel_line l = false)
             (removelast (split 10 (concat chunks))) ->
      GrokPatch.assemble cb chunks = GrokPatch.assemble cb [concat chunks]).
Proof.
  split.
  - unfold StreamingClient.streamChatCompletion.
    rewrite !StreamingClientFacts.read_loop_chunks.
    rewrite !client_read_chunks_lines by apply not_elem_of_nil.
    simpl concat. by rewrite app_nil_r.
  - intros Hns. unfold GrokPatch.assemble.
    rewrite !grok_read_loop_lines; try apply not_elem_of_nil.
    + simpl concat. by rewrite app_nil_r.
    + simpl concat. by rewrite app_nil_r.
    + done.
Qed.

Lemma chunking_is_irrelevant_witness :
  GrokPatch.assemble true screenshot_chunks
  = GrokPatch.assemble true [concat screenshot_chunks].
Proof.
  apply (chunking_is_irrelevant true screenshot_chunks).
  apply (bool_decide_eq_true_1 _). vm_compute. reflexivity.
Defined.

Lemma client_for_lines_sentinel before line after st :
  sentinel_line line = true ->
  StreamingClient.for_lines (before ++ line :: after) st
  = StreamingClient.for_lines (before ++ [line]) st.
Proof.
  intros Hs. revert st. induction before as [|l ls IH]; intros st; simpl.
  - unfold StreamingClient.process_line. fold (payload line).
    unfold sentinel_line in Hs. apply andb_true_iff in Hs as [-> ->]. done.
  - destruct (StreamingClient.process_line l st) as [[s [|]]|]; [apply IH|done|done].
Qed.

(** X5: the generator of the streaming client ends at the sentinel
    line: whatever follows it in the body, in the same chunk or in
    later ones, is not read, and the messages are those of the body
    cut after the sentinel. *)
Theorem sentinel_ends_the_generator chunks a line b :
  sentinel_line line = true -> 10 ∉ line -> at_line_start a ->
  concat chunks = a ++ line ++ [10] ++ b ->
  StreamingClient.streamChatCompletion chunks
  = StreamingClient.streamChatCompletion [a ++ line ++ [10]].
Proof.
  intros Hs Hline Hstart Htext.
  unfold StreamingClient.streamChatCompletion.
  rewrite !StreamingClientFacts.read_loop_chunks.
  rewrite !client_read_chunks_lines by apply not_elem_of_nil.
  simpl concat. rewrite Htext.
  destruct (split_insert_line [] a line b Hline Hstart) as (H1 & _).
  destruct (split_insert_line [] a line [] Hline Hstart) as (H2 & _).
  rewrite !app_nil_r in *. rewrite H1, H2.
  by rewrite (client_for_lines_sentinel _ line (removelast (split 10 b))).
Qed.

Lemma sentinel_ends_the_generator_witness :
  StreamingClient.streamChatCompletion
    [content_line "Hel" ++ [10] ++ done_line; [10] ++ content_line "lo" ++ [10]]
  = StreamingClient.streamChatCompletion
      [(content_line "Hel" ++ [10]) ++ done_line ++ [10]].
Proof.
  apply (sentinel_ends_the_generator
           [content_line "Hel" ++ [10] ++ done_line;
            [10] ++ content_line "lo" ++ [10]]
           (content_line "Hel" ++ [10]) done_line (content_line "lo" ++ [10])).
  - reflexivity.
  - apply no_newline. vm_compute. reflexivity.
  - reflexivity.
  - reflexivity.
Defined.

Lemma grok_for_lines_sentinel cb before line after st :
  sentinel_line line = true ->
  GrokPatch.for_lines cb (before ++ line :: after) st
  = GrokPatch.for_lines cb before st.
Proof.
  intros Hs. revert st. induction before as [|l ls IH]; intros st; simpl.
  - unfold GrokPatch.process_line. fold (payload line).
    unfold sentinel_line in Hs. apply andb_true_iff in Hs as [-> ->]. done.
  - destruct (GrokPatch.process_line cb l st) as [[s [|]]|]; [apply IH|done|done].
Qed.

(** X6: in [_streamGenerate] the sentinel does not end the assembly:
    it makes the loop skip the complete lines that follow it in the
    same chunk, and reading goes on with the unfinished line of that
    chunk and with the chunks after it. *)
Theorem sentinel_skips_the_rest_of_its_chunk cb cs1 a line b cs2 :
  sentinel_line line = true -> 10 ∉ line -> at_line_start (concat cs1 ++ a) ->
  GrokPatch.assemble cb (cs1 ++ (a ++ line ++ [10] ++ b) :: cs2)
  = GrokPatch.assemble cb (cs1 ++ (a ++ List.last (split 10 b) []) :: cs2).
Proof.
  intros Hs Hline Hstart%at_line_start_buffer. unfold GrokPatch.assemble.
  rewrite !GrokPatchFacts.read_loop_app.
  destruct (GrokPatch.read_loop cb cs1 [] _) as [st1|]; [|done].
  cbn [mbind option_bind].
  pose proof (last_split_no_sep 10 b) as Hrest.
  destruct (split_insert_line (buffer_after [] cs1) a line b Hline Hstart)
    as (H1 & _ & H3 & _).
  destruct (split_insert_line (buffer_after [] cs1) a line
              (List.last (split 10 b) []) Hline Hstart) as (_ & H2 & _ & H4).
  rewrite (split_line 10 (List.last (split 10 b) [])) in H2, H4 by done.
  simpl in H2, H4. rewrite app_nil_r in H2.
  rewrite (grok_read_loop_same cb (a ++ line ++ [10] ++ b)
             (a ++ List.last (split 10 b) [])); [done| |].
  - by rewrite H3, H4.
  - rewrite H1, H2. by apply grok_for_lines_sentinel.
Qed.

Lemma sentinel_skips_the_rest_of_its_chunk_witness :
  (content <$> (fst <$> GrokPatch.assemble true
     ([] ++ ((content_line "Hel" ++ [10]) ++ done_line ++ [10]
             ++ (content_line "XX" ++ [10]))
         :: [content_line "lo" ++ [10]])))
  = Some (str "Hello").
Proof.
  pose proof (sentinel_skips_the_rest_of_its_chunk true []
                (content_line "Hel" ++ [10]) done_line
                (content_line "XX" ++ [10]) [content_line "lo" ++ [10]]
                eq_refl) as H.
  rewrite H; [reflexivity| |reflexivity].
  apply no_newline. vm_compute. reflexivity.
Defined.

(** ** Invariants of the accumulators *)

Lemma keeps_ret {A} I (x : A) : keeps I (ret x).
Proof. by intros a Ha. Qed.

Lemma keeps_lift {A} I (r : Res A) : keeps I (lift r).
Proof. by intros a Ha. Qed.

Lemma keeps_bind {A B} I (m : M Acc A) (k : A -> M Acc B) :
  keeps I m -> (forall x, keeps I (k x)) -> keeps I (bind m k).
Proof.
  intros Hm Hk a Ha. unfold bind. specialize (Hm a Ha).
  destruct (m a) as [a' [x|e|]]; simpl in *; [by apply Hk|done|done].
Qed.

Lemma keeps_when I (b : bool) (m : M Acc unit) : keeps I m -> keeps I (when b m).
Proof. intros Hm. destruct b; [done|apply keeps_ret]. Qed.

Lemma keeps_for_of {X} I (xs : list X) (body : X -> M Acc unit) :
  (forall x, keeps I (body x)) -> keeps I (for_of xs body).
Proof.
  intros Hbody. induction xs as [|x xs IH]; [apply keeps_ret|].
  simpl. apply keeps_bind; [apply Hbody|by intros _].
Qed.

Lemma keeps_modify I (f : Acc -> Acc) :
  (forall a, I a -> I (f a)) -> keeps I (modify f).
Proof. intros Hf a Ha. by apply Hf. Qed.

(** The steps of a computation, down to its primitives, which [prim]
    settles. *)
Ltac keeps_steps prim :=
  repeat first
    [ apply keeps_ret
    | apply keeps_lift
    | prim
    | apply keeps_bind; [|intros ?]
    | apply keeps_when
    | apply keeps_for_of; intros ?
    | case_match ].

Lemma grok_process_line_keeps I cb line st st' c :
  (forall ev, keeps I (GrokPatch.on_event cb (Some ev))) ->
  I (GrokPatch.acc st) ->
  GrokPatch.process_line cb line st = Some (st', c) ->
  I (GrokPatch.acc st').
Proof.
  intros Hev Ha. unfold GrokPatch.process_line, GrokPatch.try_event.
  destruct (startsWith _ _); [|by intros [= <- <-]].
  destruct (jsstring_eqb _ _); [by intros [= <- <-]|].
  destruct (JSON_parse _) as [ev|].
  - specialize (Hev ev _ Ha).
    destruct (GrokPatch.on_event cb (Some ev) (GrokPatch.acc st)) as [a' [[]|e|]];
      [| |done]; by intros [= <- <-].
  - by intros [= <- <-].
Qed.

Lemma grok_for_lines_keeps I cb lines st st' :
  (forall ev, keeps I (GrokPatch.on_event cb (Some ev))) ->
  I (GrokPatch.acc st) ->
  GrokPatch.for_lines cb lines st = Some st' ->
  I (GrokPatch.acc st').
Proof.
  intros Hev. revert st. induction lines as [|l ls IH]; intros st Ha; simpl.
  - by intros [= <-].
  - destruct (GrokPatch.process_line cb l st) as [[s c]|] eqn:Hl; [|done].
    pose proof (grok_process_line_keeps I cb l st s c Hev Ha Hl) as Hs.
    destruct c; [by apply IH|by intros [= <-]].
Qed.

Lemma grok_read_loop_keeps I cb chunks buffer st st' :
  (forall ev, keeps I (GrokPatch.on_event cb (Some ev))) ->
  I (GrokPatch.acc st) ->
  GrokPatch.read_loop cb chunks buffer st = Some st' ->
  I (GrokPatch.acc st').
Proof.
  intros Hev. revert buffer st.
  induction chunks as [|c cs IH]; intros buffer st Ha; simpl.
  - by intros [= <-].
  - destruct (GrokPatch.for_lines cb _ st) as [s|] eqn:Hl; [|done].
    cbn [mbind option_bind]. apply IH.
    by apply (grok_for_lines_keeps I cb _ st s Hev Ha Hl).
Qed.

Lemma tokens_match_content cb text :
  text <> [] ->
  keeps (tokens_match cb)
    (bind (modify (on_content (fun c => c ++ text)))
       (fun _ => when cb (modify (on_tokens (fun t => t ++ [text]))))).
Proof.
  intros Htext a Ha. unfold tokens_match in *. destruct cb; simpl in *; [|done].
  destruct Ha as [Hc Hne]. split.
  - rewrite concat_app. simpl. by rewrite app_nil_r, Hc.
  - apply Forall_app. split; [done|]. by constructor.
Qed.

Lemma tokens_match_tool_calls cb f : keeps (tokens_match cb) (modify (on_tool_calls f)).
Proof. by intros a Ha. Qed.

Lemma tokens_match_update_call cb i f : keeps (tokens_match cb) (update_call i f).
Proof. by intros a Ha. Qed.

Lemma tokens_match_metadata cb f : keeps (tokens_match cb) (modify (on_metadata f)).
Proof. by intros a Ha. Qed.

Lemma truthy_text (v : value) (s : jsstring) :
  truthy v = true -> as_string v = Ok s -> s <> [].
Proof.
  destruct v as [[| | |t| |]|]; simpl; try done.
  intros Ht [= <-]. by destruct t.
Qed.

Lemma tokens_match_on_event cb (ev : JValue) :
  keeps (tokens_match cb) (GrokPatch.on_event cb (Some ev)).
Proof.
  unfold GrokPatch.on_event, update_metadata, GrokPatch.process_tool_call_delta.
  apply keeps_bind; [apply keeps_lift|intros choices].
  apply keeps_bind; [case_match; [apply keeps_lift|apply keeps_ret]|intros choice].
  apply keeps_when.
  apply keeps_bind; [apply keeps_lift|intros delta].
  apply keeps_bind.
  { keeps_steps ltac:(apply tokens_match_metadata). }
  intros _. apply keeps_bind; [apply keeps_lift|intros content].
  apply keeps_bind.
  - destruct (truthy content) eqn:Ht; [|apply keeps_ret]. simpl.
    intros a Ha. unfold bind at 1, lift at 1.
    destruct (as_string content) as [text| |] eqn:Hs; [|done|done].
    apply tokens_match_content; [|done]. by eapply truthy_text.
  - intros _.
    keeps_steps ltac:(first [ apply tokens_match_tool_calls
                            | apply tokens_match_update_call ]).
Qed.

(** X7: in [_streamGenerate] the tokens handed to the token callback
    are non-empty and concatenate to the content of the final
    message, whatever the stream holds; without a callback no token
    is produced. *)
Theorem streamed_tokens_make_the_content cb chunks m st :
  GrokPatch.assemble cb chunks = Some (m, st) ->
  (cb = true ->
   content m = JStr (concat (tokens (GrokPatch.acc st)))
   /\ Forall (fun t => t <> []) (tokens (GrokPatch.acc st)))
  /\ (cb = false -> tokens (GrokPatch.acc st) = []).
Proof.
  unfold GrokPatch.assemble.
  destruct (GrokPatch.read_loop cb chunks [] _) as [st'|] eqn:Hrun; [|done].
  intros [= <- <-].
  assert (H : tokens_match cb (GrokPatch.acc st')).
  { apply (grok_read_loop_keeps _ cb chunks [] grok_start st'
             (tokens_match_on_event cb)); [|done].
    by destruct cb. }
  unfold tokens_match in H. split; intros ->.
  - destruct H as [H1 H2]. split; [|done]. simpl. by rewrite H1.
  - done.
Qed.

Lemma streamed_tokens_make_the_content_witness :
  exists st,
    GrokPatch.assemble true [content_line "Hel" ++ [10] ++ content_line "lo" ++ [10]]
    = Some (GrokPatch.final_message (GrokPatch.acc st), st)
    /\ tokens (GrokPatch.acc st) = [js "Hel"; js "lo"]
    /\ content (GrokPatch.final_message (GrokPatch.acc st))
       = JStr (concat (tokens (GrokPatch.acc st))).
Proof.
  eexists. split; [reflexivity|]. split; [reflexivity|].
  eapply (streamed_tokens_make_the_content true
            [content_line "Hel" ++ [10] ++ content_line "lo" ++ [10]]);
    reflexivity.
Defined.

Lemma client_process_line_ended I line st r :
  (forall ev, keeps I (StreamingClient.on_event (Some ev))) ->
  I (StreamingClient.acc st) ->
  StreamingClient.process_line line st = Some r ->
  ended I r.
Proof.
  intros Hev Ha. unfold StreamingClient.process_line, StreamingClient.try_event.
  destruct (startsWith _ _); [|by intros [= <-]].
  destruct (jsstring_eqb _ _).
  { intros [= <-]. by exists (StreamingClient.acc st). }
  destruct (JSON_parse _) as [ev|].
  - specialize (Hev ev _ Ha).
    destruct (StreamingClient.on_event (Some ev) (StreamingClient.acc st))
      as [a' [[]|e|]]; [| |done]; by intros [= <-].
  - by intros [= <-].
Qed.

Lemma client_for_lines_ended I lines st r :
  (forall ev, keeps I (StreamingClient.on_event (Some ev))) ->
  I (StreamingClient.acc st) ->
  StreamingClient.for_lines lines st = Some r ->
  ended I r.
Proof.
  intros Hev. revert st. induction lines as [|l ls IH]; intros st Ha; simpl.
  - by intros [= <-].
  - destruct (StreamingClient.process_line l st) as [[s c]|] eqn:Hl; [|done].
    pose proof (client_process_line_ended I l st (s, c) Hev Ha Hl) as Hs.
    destruct c; [by apply IH|by intros [= <-]].
Qed.

Lemma read_chunks_ended I chunks buffer st r :
  (forall ev, keeps I (StreamingClient.on_event (Some ev))) ->
  I (StreamingClient.acc st) ->
  read_chunks chunks buffer st = Some r ->
  ended I r.
Proof.
  intros Hev. revert buffer st.
  induction chunks as [|c cs IH]; intros buffer st Ha; simpl.
  - by intros [= <-].
  - destruct (StreamingClient.for_lines _ st) as [[s k]|] eqn:Hl; [|done].
    pose proof (client_for_lines_ended I _ st (s, k) Hev Ha Hl) as Hs.
    destruct k; [by apply IH|by intros [= <-]].
Qed.

(** Whatever way the loop is left, the last thing the generator does
    is to yield a snapshot. *)
Lemma read_loop_final_yield I chunks buffer st st' :
  (forall ev, keeps I (StreamingClient.on_event (Some ev))) ->
  I (StreamingClient.acc st) ->
  StreamingClient.read_loop chunks buffer st = Some st' ->
  exists a, I a /\ StreamingClient.acc st' = (StreamingClient.yield_snapshot a).1.
Proof.
  intros Hev Ha. rewrite StreamingClientFacts.read_loop_chunks.
  destruct (read_chunks chunks buffer st) as [[s k]|] eqn:Hrun; [|done].
  intros [= <-].
  pose proof (read_chunks_ended I chunks buffer st (s, k) Hev Ha Hrun) as He.
  unfold ended in He. unfold finish. destruct k; simpl in *; [|done].
  by exists (StreamingClient.acc s).
Qed.

Lemma extends_later (m : Message) (a a' : Acc) :
  extends m (snapshot a) ->
  accumulatedContent a `prefix_of` accumulatedContent a' ->
  (length (accumulatedToolCalls a) <= length (accumulatedToolCalls a'))%nat ->
  extends m (snapshot a').
Proof.
  intros (p & q & Hp & Hq & Hpq & Hlen) Hc Hl. simpl in *. simplify_eq.
  exists p, (accumulatedContent a'). repeat split; [done| |simpl; lia].
  by etrans.
Qed.

Lemma yields_grow_later (f : Acc -> Acc) :
  (forall a, yielded (f a) = yielded a) ->
  (forall a, accumulatedContent a `prefix_of` accumulatedContent (f a)) ->
  (forall a, (length (accumulatedToolCalls a)
              <= length (accumulatedToolCalls (f a)))%nat) ->
  keeps yields_grow (modify f).
Proof.
  intros Hy Hc Hl a [Hg Hb]. unfold modify. simpl. split; rewrite Hy; [done|].
  eapply Forall_impl; [exact Hb|]. intros m Hm.
  apply (extends_later m a (f a)); [done|apply Hc|apply Hl].
Qed.

Lemma yields_grow_content text :
  keeps yields_grow (modify (on_content (fun c => c ++ text))).
Proof.
  apply yields_grow_later; intros a; simpl; [done| |done].
  by apply prefix_app_r.
Qed.

Lemma yields_grow_placeholders i :
  keeps yields_grow (modify (on_tool_calls (grow i))).
Proof.
  apply yields_grow_later; intros a; simpl; [done|done|].
  unfold grow. rewrite length_app. lia.
Qed.

Lemma yields_grow_update_call i f : keeps yields_grow (update_call i f).
Proof.
  apply yields_grow_later; intros a; simpl; [done|done|].
  by rewrite length_alter.
Qed.

Lemma yields_grow_metadata f : keeps yields_grow (modify (on_metadata f)).
Proof. apply yields_grow_later; intros a; simpl; done. Qed.

Lemma extends_snapshot (a : Acc) : extends (snapshot a) (snapshot a).
Proof. by exists (accumulatedContent a), (accumulatedContent a). Qed.

Lemma yields_grow_yield : keeps yields_grow StreamingClient.yield_snapshot.
Proof.
  intros a [Hg Hb]. unfold StreamingClient.yield_snapshot, modify. simpl.
  fold (snapshot a). split.
  - intros i j m1 m2 Hij H1 H2. simpl in H1, H2.
    destruct (decide (j < length (yielded a))%nat) as [Hj|Hj].
    + rewrite lookup_app_l in H1, H2 by lia. exact (Hg i j m1 m2 Hij H1 H2).
    + rewrite (lookup_app_r _ _ j) in H2 by lia.
      apply list_lookup_singleton_Some in H2 as [_ <-].
      destruct (decide (i < length (yielded a))%nat) as [Hi|Hi].
      * rewrite lookup_app_l in H1 by lia.
        rewrite Forall_lookup in Hb. exact (Hb i m1 H1).
      * rewrite lookup_app_r in H1 by lia.
        apply list_lookup_singleton_Some in H1 as [_ <-].
        apply extends_snapshot.
  - change (Forall (fun m => extends m (snapshot a)) (yielded a ++ [snapshot a])).
    apply Forall_app. split; [done|].
    constructor; [apply extends_snapshot|done].
Qed.

Ltac yields_grow_prim :=
  first [ apply yields_grow_content
        | apply yields_grow_placeholders
        | apply yields_grow_update_call
        | apply yields_grow_metadata
        | apply yields_grow_yield ].

Lemma yields_grow_on_event (ev : JValue) :
  keeps yields_grow (StreamingClient.on_event (Some ev)).
Proof.
  unfold StreamingClient.on_event, update_metadata,
    StreamingClient.process_tool_call_delta.
  keeps_steps yields_grow_prim.
Qed.

(** X8: the generator of the streaming client always yields at least
    one message before it returns, and every message it yields
    extends the ones before it: the content continues the earlier
    content and no invocation disappears. *)
Theorem yielded_messages_grow chunks ms :
  StreamingClient.streamChatCompletion chunks = Some ms ->
  ms <> [] /\ growing ms.
Proof.
  unfold StreamingClient.streamChatCompletion.
  destruct (StreamingClient.read_loop chunks [] _) as [st|] eqn:Hrun; [|done].
  intros [= <-].
  destruct (read_loop_final_yield yields_grow chunks [] client_start st
              yields_grow_on_event) as (a & Ha & ->); [|done|].
  { split; [by intros i j m1 m2 _ H|by constructor]. }
  pose proof (yields_grow_yield a Ha) as [Hg _]. split; [|done].
  unfold StreamingClient.yield_snapshot, modify. simpl.
  by destruct (yielded a).
Qed.

Lemma yielded_messages_grow_witness :
  exists ms,
    StreamingClient.streamChatCompletion
      [content_line "Hel" ++ [10] ++ content_line "lo" ++ [10]] = Some ms
    /\ map content ms = [str "Hel"; str "Hello"; str "Hello"]
    /\ growing ms.
Proof.
  eexists. split; [reflexivity|]. split; [reflexivity|].
  eapply (yielded_messages_grow
            [content_line "Hel" ++ [10] ++ content_line "lo" ++ [10]]).
  reflexivity.
Defined.

(** ** The arguments of a streamed invocation *)

Lemma grow_lookup i calls :
  grow i calls !! i = Some (default empty_tool_call (calls !! i)).
Proof.
  unfold grow. destruct (decide (i < length calls)%nat) as [Hi|Hi].
  - rewrite lookup_app_l by lia.
    destruct (calls !! i) eqn:E; [done|]. apply lookup_ge_None in E. lia.
  - rewrite lookup_app_r by lia. rewrite (lookup_ge_None_2 calls i) by lia.
    simpl. apply lookup_replicate_2. lia.
Qed.

Lemma apply_fragment_lookup merge i calls d :
  apply_fragment merge i calls d !! i
  = Some (merge d (default empty_tool_call (calls !! i))).
Proof.
  unfold apply_fragment. by rewrite list_lookup_alter_eq, grow_lookup.
Qed.

(** The invocation at the index of the fragments is the fold of the
    fragments over the placeholder. *)
Lemma fold_fragments_lookup merge i (ds : list JValue) calls :
  ds <> [] ->
  fold_left (apply_fragment merge i) ds calls !! i
  = Some (fold_left (fun tc d => merge d tc) ds
            (default empty_tool_call (calls !! i))).
Proof.
  revert calls. induction ds as [|d ds IH]; intros calls Hne; [done|]. simpl.
  destruct ds as [|d' ds'].
  - apply apply_fragment_lookup.
  - rewrite IH by done. by rewrite apply_fragment_lookup.
Qed.

Lemma fragment_text_cases (d : JValue) :
  text_or_absent (fragment_arguments d) = true ->
  (truthy (fragment_arguments d) = false /\ fragment_text d = [])
  \/ (exists s, fragment_arguments d = Some (JStr s) /\ s <> []
               /\ fragment_text d = s).
Proof.
  intros H. unfold fragment_text.
  destruct (text_or_absent_cases _ H) as [Hf|(s & Hs & Hne)].
  - left. split; [done|].
    destruct (fragment_arguments d) as [[| | |s| |]|]; try done.
    simpl in Hf. apply negb_false_iff, bool_decide_eq_true_1 in Hf. done.
  - right. exists s. by rewrite Hs.
Qed.

Lemma grok_arguments_merge_absent d tc :
  truthy (fragment_arguments d) = false -> grok_arguments_merge d tc = tc.
Proof.
  unfold grok_arguments_merge.
  destruct (fragment_arguments d) as [[| | |s| |]|]; try done.
  simpl. intros Hf. apply negb_false_iff, bool_decide_eq_true_1 in Hf.
  subst. done.
Qed.

Lemma client_arguments_merge_absent d tc :
  truthy (fragment_arguments d) = false -> client_arguments_merge d tc = tc.
Proof.
  unfold client_arguments_merge.
  destruct (fragment_arguments d) as [[| | |s| |]|]; try done.
  simpl. intros Hf. apply negb_false_iff, bool_decide_eq_true_1 in Hf.
  subst. done.
Qed.

Lemma id_name_merge_args d tc :
  tc_args (name_merge d (id_merge d tc)) = tc_args tc
  /\ tc_argsString (name_merge d (id_merge d tc)) = tc_argsString tc.
Proof.
  unfold name_merge, id_merge.
  by destruct (truthy (fragment_name d)), (truthy (fragment_id d)).
Qed.

(** A fragment that is not JSON by itself goes to the buffer, and the
    arguments follow the buffer. *)
Lemma grok_merge_buffer d tc :
  text_or_absent (fragment_arguments d) = true ->
  JSON_parse (fragment_text d) = None ->
  buffer_parsed tc ->
  args_buffer (grok_merge d tc) = args_buffer tc ++ fragment_text d
  /\ buffer_parsed (grok_merge d tc).
Proof.
  intros Ha Hparse Hp. unfold grok_merge.
  destruct (id_name_merge_args d tc) as [Hargs Hbuf].
  set (tc1 := name_merge d (id_merge d tc)) in *.
  assert (Hp1 : buffer_parsed tc1).
  { intros v. unfold args_buffer. rewrite Hbuf, Hargs. apply Hp. }
  assert (Hb1 : args_buffer tc1 = args_buffer tc).
  { unfold args_buffer. by rewrite Hbuf. }
  clearbody tc1. rewrite <- Hb1. clear Hargs Hbuf Hb1 Hp.
  destruct (fragment_text_cases d Ha) as [[Hf Ht]|(s & Hs & Hne & Ht)].
  - rewrite grok_arguments_merge_absent, Ht, app_nil_r by done. done.
  - rewrite Ht in *. unfold grok_arguments_merge. rewrite Hs.
    rewrite bool_decide_eq_false_2 by done. rewrite Hparse.
    fold (args_buffer tc1).
    destruct (JSON_parse (args_buffer tc1 ++ s)) as [v|] eqn:Hjoin.
    + split; [done|]. intros v'. unfold args_buffer in *. simpl.
      rewrite Hjoin. by intros [= <-].
    + split; [done|]. intros v'. unfold args_buffer in *. simpl.
      by rewrite Hjoin.
Qed.

Lemma grok_fold_buffer (ds : list JValue) tc :
  Forall (fun d => text_or_absent (fragment_arguments d) = true) ds ->
  Forall (fun d => JSON_parse (fragment_text d) = None) ds ->
  buffer_parsed tc ->
  args_buffer (fold_left (fun tc d => grok_merge d tc) ds tc)
  = args_buffer tc ++ concat (map fragment_text ds)
  /\ buffer_parsed (fold_left (fun tc d => grok_merge d tc) ds tc).
Proof.
  intros Ha. revert tc. induction Ha as [|d ds Hd Hds IH]; intros tc Hn Hp.
  - simpl. by rewrite app_nil_r.
  - apply Forall_cons in Hn as [Hn Hns]. simpl.
    destruct (grok_merge_buffer d tc Hd Hn Hp) as [Hb Hp'].
    destruct (IH _ Hns Hp') as [Hb' Hp'']. split; [|done].
    by rewrite Hb', Hb, <- app_assoc.
Qed.

Lemma elem_of_filter_list {A} (P : A -> bool) (l : list A) (x : A) :
  x ∈ l -> P x = true -> x ∈ List.filter P l.
Proof.
  intros Hin%list_elem_of_In HP. apply list_elem_of_In, filter_In. done.
Qed.

Lemma spread_object kvs (v : JValue) :
  spread (JObj kvs) v = JObj (kvs ++ own_props v).
Proof. done. Qed.

(** A fragment that is JSON by itself adds its own properties to the
    arguments; in the streaming client any other fragment adds
    nothing. *)
Lemma client_merge_props d tc kvs :
  text_or_absent (fragment_arguments d) = true ->
  tc_args tc = JObj kvs ->
  tc_args (client_merge d tc) = JObj (kvs ++ fragment_props d).
Proof.
  intros Ha Hargs. unfold client_merge.
  destruct (id_name_merge_args d tc) as [Hargs1 _].
  set (tc1 := name_merge d (id_merge d tc)) in *. clearbody tc1.
  rewrite <- Hargs1 in Hargs. unfold fragment_props.
  destruct (fragment_text_cases d Ha) as [[Hf Ht]|(s & Hs & Hne & Ht)].
  - rewrite client_arguments_merge_absent, Ht, JSON_parse_empty, app_nil_r by done.
    done.
  - rewrite Ht. unfold client_arguments_merge. rewrite Hs.
    rewrite bool_decide_eq_false_2 by done.
    destruct (JSON_parse s) as [v|]; simpl.
    + by rewrite Hargs, spread_object.
    + by rewrite app_nil_r.
Qed.

Lemma grok_merge_props d tc kvs :
  text_or_absent (fragment_arguments d) = true ->
  fragment_text d = [] \/ is_Some (JSON_parse (fragment_text d)) ->
  tc_args tc = JObj kvs ->
  tc_args (grok_merge d tc) = JObj (kvs ++ fragment_props d).
Proof.
  intros Ha Halone Hargs. unfold grok_merge.
  destruct (id_name_merge_args d tc) as [Hargs1 _].
  set (tc1 := name_merge d (id_merge d tc)) in *. clearbody tc1.
  rewrite <- Hargs1 in Hargs. unfold fragment_props.
  destruct (fragment_text_cases d Ha) as [[Hf Ht]|(s & Hs & Hne & Ht)].
  - rewrite grok_arguments_merge_absent, Ht, JSON_parse_empty, app_nil_r by done.
    done.
  - rewrite Ht in *. destruct Halone as [->|[v Hv]]; [done|].
    unfold grok_arguments_merge. rewrite Hs.
    rewrite bool_decide_eq_false_2 by done. rewrite Hv. simpl.
    by rewrite Hargs, spread_object.
Qed.

Lemma fold_merge_props (merge : JValue -> ToolCall -> ToolCall)
      (P : JValue -> Prop) (ds : list JValue) tc kvs :
  (forall d tc kvs, P d -> tc_args tc = JObj kvs ->
                    tc_args (merge d tc) = JObj (kvs ++ fragment_props d)) ->
  Forall P ds ->
  tc_args tc = JObj kvs ->
  tc_args (fold_left (fun tc d => merge d tc) ds tc)
  = JObj (kvs ++ concat (map fragment_props ds)).
Proof.
  intros Hstep Hds. revert tc kvs.
  induction Hds as [|d ds Hd Hds IH]; intros tc kvs Hargs; simpl.
  - by rewrite app_nil_r.
  - rewrite (IH _ (kvs ++ fragment_props d)) by by apply Hstep.
    by rewrite <- app_assoc.
Qed.

(** ** The chat model: failures, demo answers and roles *)

(** X11: when [_generate] streams (a token callback is given and
    [options.stream] is not [false]) a failed call is not answered
    with the fallback message: a rejected request, a non-success
    status, a missing body and a transport failure make it throw.
    When the body is delivered whole, the result holds the message
    the assembler builds from it, with the content as its text, the
    usage of the stream (zeros when the stream reports none) and the
    model name of the adapter. *)
Theorem streaming_generate_outcomes net now self msgs options cb log :
  GrokChatModel.demo_mode self = false ->
  GrokChatModel.useStreaming options cb = true ->
  let request :=
    GrokChatModel.chat_request self
      (GrokChatModel.chat_body (map GrokChatModel.xaiMessage msgs)
         (GrokChatModel.grokTools self options) options true) in
  let run := GrokChatModel._generate net now self msgs options cb log in
  run.1 = log ++ [POST request]
  /\ (http_post net request = None -> run.2 = Throw NetworkError)
  /\ (forall r, http_post net request = Some r -> ok r = false ->
                run.2 = Throw (GrokChatModel.api_error r))
  /\ (forall r, http_post net request = Some r -> ok r = true -> body r = None ->
                run.2 = Throw (Error (js "No response body available for streaming")))
  /\ (forall r reader,
         http_post net request = Some r -> ok r = true ->
         body r = Some reader -> aborted reader = true ->
         forall res, run.2 <> Ok res)
  /\ (forall r reader m st,
         http_post net request = Some r -> ok r = true ->
         body r = Some reader -> aborted reader = false ->
         GrokPatch.assemble cb (chunks reader) = Some (m, st) ->
         exists res,
           run.2 = Ok res
           /\ GrokChatModel.message res = m
           /\ GrokChatModel.text res = content m
           /\ GrokChatModel.llm_model res = Some (JStr grok_model)
           /\ GrokChatModel.tokenUsage res
              = Some (or_default (md_usage (response_metadata m)) (usage 0 0 0))).
Proof.
  intros Hdemo Hstream request run. subst run.
  unfold GrokChatModel._generate. rewrite Hdemo, Hstream.
  split; [apply streamGenerate_log|].
  unfold GrokChatModel._streamGenerate, bind, fetch_post, lift. fold request.
  repeat split.
  - by intros ->.
  - intros r -> Hok. by rewrite Hok.
  - intros r -> Hok Hbody. by rewrite Hok, Hbody.
  - intros r reader -> Hok Hbody Hab res. rewrite Hok, Hbody. simpl.
    destruct (GrokPatch.read_loop _ _ _ _); [|done]. by rewrite Hab.
  - intros r reader m st -> Hok Hbody Hab. rewrite Hok, Hbody. simpl.
    unfold GrokPatch.assemble.
    destruct (GrokPatch.read_loop _ _ _ _) as [st'|]; [|done].
    rewrite Hab. simpl. intros [= <- <-]. by eexists.
Qed.

Lemma streaming_generate_outcomes_witness :
  (GrokChatModel._generate network_500 0 grok_self [human_request]
     default_options true []).2
  = Throw (Error (js "Grok API error: 500 - Internal Server Error")).
Proof.
  pose proof (streaming_generate_outcomes network_500 0 grok_self [human_request]
                default_options true [] eq_refl eq_refl) as (_ & _ & H & _).
  exact (H _ eq_refl eq_refl).
Defined.

(** X12: without a real API key (none or an empty one, or the
    placeholder key) the first copy of the model answers every call
    with the demo message and sends nothing, and so does the patched
    [ChatOpenAI] whatever it was configured with; the key of the
    environment goes before the one of the configuration.  The second
    copy refuses to be constructed when there is no key at all. *)
Theorem no_key_sends_nothing net now env config bound msgs options cb log :
  let absent (k : option jsstring) := k = None \/ k = Some [] in
  let placeholder (k : option jsstring) := k = Some (js "xai-demo-key-placeholder") in
  let demo (run : list NetCall * Res GrokChatModel.ChatResult) :=
    run.1 = log
    /\ exists res,
        run.2 = Ok res
        /\ GrokChatModel.message res = GrokChatModel.demo_message now in
  absent (CustomCallModel.XAI_API_KEY env)
  \/ placeholder (CustomCallModel.XAI_API_KEY env) ->
  demo (OpenAIPatch.patched_generate net now env bound msgs options cb log)
  /\ (placeholder (CustomCallModel.XAI_API_KEY env)
      \/ absent (OpenAIPatch.config_xaiApiKey config)
      \/ placeholder (OpenAIPatch.config_xaiApiKey config) ->
      demo (GrokChatModel._generate net now
              (OpenAIPatch.new_GrokChatModel env config bound) msgs options cb log))
  /\ (absent (CustomCallModel.XAI_API_KEY env) ->
      absent (OpenAIPatch.config_xaiApiKey config) ->
      OpenAIPatch.new_GrokChatModel_strict env config bound
      = Throw (Error (js "XAI_API_KEY is required for Grok model"))).
Proof.
  intros absent placeholder demo Henv.
  assert (Hdemo : forall self,
            GrokChatModel.demo_mode self = true ->
            demo (GrokChatModel._generate net now self msgs options cb log)).
  { intros self Hd. unfold demo, GrokChatModel._generate. rewrite Hd. simpl.
    split; [done|]. by eexists. }
  split; [|split].
  - unfold OpenAIPatch.patched_generate. apply Hdemo.
    unfold GrokChatModel.demo_mode, OpenAIPatch.new_GrokChatModel.
    simpl. by destruct Henv as [[-> | ->] | ->].
  - intros Hcfg. apply Hdemo.
    unfold GrokChatModel.demo_mode, OpenAIPatch.new_GrokChatModel. simpl.
    destruct Hcfg as [-> | [[-> | ->] | ->]]; try done;
      by destruct Henv as [[-> | ->] | ->].
  - unfold OpenAIPatch.new_GrokChatModel_strict, OpenAIPatch.new_GrokChatModel.
    simpl. by intros [-> | ->] [-> | ->].
Qed.

Lemma no_key_sends_nothing_witness :
  (OpenAIPatch.patched_generate network_500 7 env_without_key None
     [human_request] default_options false []).1 = [].
Proof.
  pose proof (no_key_sends_nothing network_500 7 env_without_key
                OpenAIPatch.no_config None [human_request] default_options
                false [] (or_introl (or_introl eq_refl))) as [[H _] _].
  exact H.
Defined.

Lemma xaiMessage_plain_turn (msg : Message) : plain_turn (GrokChatModel.xaiMessage msg).
Proof.
  unfold GrokChatModel.xaiMessage, plain_turn.
  repeat case_match; simpl; repeat split; try done;
    rewrite !elem_of_cons; auto.
Qed.

Lemma generate_log net now self msgs options cb log :
  (GrokChatModel._generate net now self msgs options cb log).1 = log
  \/ exists streaming,
      (GrokChatModel._generate net now self msgs options cb log).1
      = log ++ [POST (GrokChatModel.chat_request self
                        (GrokChatModel.chat_body (map GrokChatModel.xaiMessage msgs)
                           (GrokChatModel.grokTools self options) options
                           streaming))].
Proof.
  unfold GrokChatModel._generate.
  destruct (GrokChatModel.demo_mode self); [by left|]. right.
  destruct (GrokChatModel.useStreaming options cb).
  - exists true. apply streamGenerate_log.
  - exists false. rewrite try_catch_log by (intros e; apply stateless_ret).
    apply generate_once_log.
Qed.

(** X13: whatever the history holds, a request of [_generate] carries
    one wire message per message of the history, each with the role
    [system], [user] or [assistant] and without [tool_calls] or
    [tool_call_id]: the tool invocations of assistant messages and
    the call ids of tool results are not sent. *)
Theorem chat_model_sends_plain_turns net now self msgs options cb log r :
  POST r ∈ (GrokChatModel._generate net now self msgs options cb log).1 ->
  POST r ∈ log
  \/ (length (messages (request_body r)) = length msgs
      /\ Forall plain_turn (messages (request_body r))).
Proof.
  intros Hin.
  destruct (generate_log net now self msgs options cb log) as [H|[streaming H]];
    rewrite H in Hin; [by left|].
  apply elem_of_app in Hin as [Hin|Hin]; [by left|]. right.
  apply list_elem_of_singleton in Hin. injection Hin as ->. simpl. split.
  - by rewrite length_map.
  - apply Forall_map, Forall_forall. intros m _. apply xaiMessage_plain_turn.
Qed.

Lemma chat_model_sends_plain_turns_witness :
  Forall plain_turn
    (messages
       (request_body
          (GrokChatModel.chat_request grok_self
             (GrokChatModel.chat_body
                (map GrokChatModel.xaiMessage [click_result; screenshot_result])
                [] default_options false)))).
Proof.
  destruct (chat_model_sends_plain_turns network_500 0 grok_self
              [click_result; screenshot_result] default_options false []
              (GrokChatModel.chat_request grok_self
                 (GrokChatModel.chat_body
                    (map GrokChatModel.xaiMessage [click_result; screenshot_result])
                    [] default_options false)))
    as [H|[_ H]].
  - apply list_elem_of_In. left. reflexivity.
  - by apply elem_of_nil in H.
  - exact H.
Defined.

(** ** Decoding a well-formed response *)

Lemma arguments_text_parsed (tc : JValue) :
  arguments_are_text tc = true ->
  as_string (js_or (call_arguments tc) (Some (JStr (js "{}"))))
  = Ok (arguments_text tc).
Proof.
  unfold arguments_are_text, arguments_text, text_or_absent, js_or.
  destruct (call_arguments tc) as [[| b | q | t | |]|]; simpl; try done.
  - by destruct b.
  - by destruct (Qnum q =? 0)%Z.
  - by destruct t.
Qed.

Lemma decode_tool_call_decodable {S} (tc : JValue) (s : S) :
  decodable tc ->
  exists inv, decode_tool_call (Some tc) s = (s, Ok inv) /\ decoded tc inv.
Proof.
  intros ((fn & Hfn & Hnn) & Htext & [v Hv]).
  pose proof (arguments_text_parsed tc Htext) as Hstr.
  unfold decoded, call_name, field. unfold call_arguments in Hstr.
  unfold decode_tool_call, bind, lift, ret.
  destruct tc as [| | | | |kvs]; simpl in *; try done.
  injection Hfn as Hfn. rewrite Hfn in *.
  destruct fn as [| | | | |fkvs]; simpl in *; try done;
    try (injection Hstr as Hstr; rewrite <- Hstr; by eexists).
  rewrite Hstr, Hv. by eexists.
Qed.

Lemma map_M_decodable {S} (calls : list JValue) (s : S) :
  Forall decodable calls ->
  exists invs,
    map_M decode_tool_call (map Some calls) s = (s, Ok invs)
    /\ Forall2 decoded calls invs.
Proof.
  induction 1 as [|tc calls Htc Hcalls (invs & Hrun & Hall)].
  - by exists [].
  - destruct (decode_tool_call_decodable tc s Htc) as (inv & Hone & Hdec).
    exists (inv :: invs). split; [|by constructor].
    simpl. unfold bind at 1. rewrite Hone.
    unfold bind at 1. by rewrite Hrun.
Qed.

(** The path to the tool calls of a response that has them. *)
Lemma response_path (data : JValue) (calls : list JValue) :
  response_tool_calls data = Some calls ->
  exists dkvs choices ckvs mkvs,
    data = JObj dkvs
    /\ own dkvs (js "choices") = choices
    /\ get_idx choices 0 = Ok (Some (JObj ckvs))
    /\ own ckvs (js "message") = Some (JObj mkvs)
    /\ own mkvs (js "tool_calls") = Some (JArr calls).
Proof.
  unfold response_tool_calls. intros H.
  destruct data as [| | | | |dkvs]; simpl in H; try done.
  destruct (get_idx (own dkvs (js "choices")) 0) as [choice| |] eqn:Hc; try done.
  destruct choice as [[| | | | |ckvs]|]; simpl in H; try done.
  destruct (own ckvs (js "message")) as [[| | | | |mkvs]|] eqn:Hm;
    simpl in H; try done.
  destruct (own mkvs (js "tool_calls")) as [[| | | |calls'|]|] eqn:Ht; try done.
  injection H as ->. by exists dkvs, (own dkvs (js "choices")), ckvs, mkvs.
Qed.

Lemma generate_once_decoded net self msgs tls options log r data calls :
  http_post net (GrokChatModel.chat_request self
                   (GrokChatModel.chat_body msgs tls options false)) = Some r ->
  ok r = true -> response_json r = Ok data ->
  response_tool_calls data = Some calls -> Forall decodable calls ->
  exists res,
    (GrokChatModel.generate_once net self msgs tls options log).2 = Ok res
    /\ Forall2 decoded calls (tool_calls (GrokChatModel.message res))
    /\ GrokChatModel.tokenUsage res = field data "usage"
    /\ GrokChatModel.llm_model res = field data "model".
Proof.
  intros Hpost Hok Hjson Hpath Hall.
  destruct (response_path data calls Hpath)
    as (dkvs & choices & ckvs & mkvs & -> & Hch & Hidx & Hmsg & Hcalls).
  unfold GrokChatModel.generate_once.
  unfold bind at 1. unfold fetch_post. rewrite Hpost, Hok. cbn [negb].
  unfold bind at 1. unfold lift at 1. rewrite Hjson.
  unfold bind at 1. unfold lift at 1. simpl get. rewrite Hch.
  unfold bind at 1. unfold lift at 1. rewrite Hidx.
  unfold bind at 1. unfold lift at 1. simpl get. rewrite Hmsg.
  unfold bind at 1. unfold lift at 1. simpl get.
  unfold bind at 1. unfold lift at 1. simpl get. rewrite Hcalls.
  unfold bind at 1. simpl decode_tool_calls.
  destruct (map_M_decodable calls
              (log ++ [POST (GrokChatModel.chat_request self
                               (GrokChatModel.chat_body msgs tls options false))])
              Hall) as (invs & Hrun & Hdec).
  rewrite Hrun. simpl. by eexists.
Qed.

Lemma createChatCompletion_decoded net client msgs tls log r data calls :
  http_post net (CustomCallModel.post_request client (js "chat/completions")
                   (CustomCallModel.chat_data msgs tls)) = Some r ->
  ok r = true -> response_json r = Ok data ->
  response_tool_calls data = Some calls -> Forall decodable calls ->
  exists m,
    (CustomCallModel.createChatCompletion net client msgs tls log).2 = Ok m
    /\ Forall2 decoded calls (tool_calls m).
Proof.
  intros Hpost Hok Hjson Hpath Hall.
  destruct (response_path data calls Hpath)
    as (dkvs & choices & ckvs & mkvs & -> & Hch & Hidx & Hmsg & Hcalls).
  unfold CustomCallModel.createChatCompletion, try_catch.
  unfold bind at 1. unfold CustomCallModel.makeRequest.
  unfold bind at 1. unfold fetch_post. rewrite Hpost, Hok. cbn [negb].
  unfold lift at 1. rewrite Hjson.
  unfold bind at 1. unfold lift at 1. simpl get. rewrite Hch.
  unfold bind at 1. unfold lift at 1. rewrite Hidx.
  unfold bind at 1. unfold lift at 1. simpl get. rewrite Hmsg.
  unfold bind at 1. unfold lift at 1. simpl get.
  unfold bind at 1. unfold lift at 1. simpl get. rewrite Hcalls.
  unfold bind at 1. simpl decode_tool_calls.
  destruct (map_M_decodable calls
              (log ++ [POST (CustomCallModel.post_request client
                               (js "chat/completions")
                               (CustomCallModel.chat_data msgs tls))])
              Hall) as (invs & Hrun & Hdec).
  rewrite Hrun. simpl. by eexists.
Qed.

(** X14: on a successful response whose tool calls each have a
    [function] and arguments that are absent or a JSON text, the
    non-streaming decoders return one invocation per tool call, in
    the order of the response, with its id, its function name and its
    parsed arguments (the empty object when the arguments are absent
    or empty); [_generate] reports the usage and the model of the
    response. *)
Theorem tool_calls_are_decoded_in_order
        net now self msgs options cb client wmsgs tls log r data calls :
  GrokChatModel.demo_mode self = false ->
  GrokChatModel.useStreaming options cb = false ->
  ok r = true -> response_json r = Ok data ->
  response_tool_calls data = Some calls -> Forall decodable calls ->
  let request :=
    GrokChatModel.chat_request self
      (GrokChatModel.chat_body (map GrokChatModel.xaiMessage msgs)
         (GrokChatModel.grokTools self options) options false) in
  let request' :=
    CustomCallModel.post_request client (js "chat/completions")
      (CustomCallModel.chat_data wmsgs tls) in
  (http_post net request = Some r ->
   exists res,
     (GrokChatModel._generate net now self msgs options cb log).2 = Ok res
     /\ (GrokChatModel._generate_strict net self msgs options log).2 = Ok res
     /\ Forall2 decoded calls (tool_calls (GrokChatModel.message res))
     /\ GrokChatModel.tokenUsage res = field data "usage"
     /\ GrokChatModel.llm_model res = field data "model")
  /\ (http_post net request' = Some r ->
      exists m,
        (CustomCallModel.createChatCompletion net client wmsgs tls log).2 = Ok m
        /\ Forall2 decoded calls (tool_calls m)).
Proof.
  intros Hdemo Hstream Hok Hjson Hpath Hall request request'. split.
  - intros Hpost.
    destruct (generate_once_decoded net self _ _ options log r data calls
                Hpost Hok Hjson Hpath Hall) as (res & Hrun & Hdec & Hu & Hm).
    exists res. unfold GrokChatModel._generate, GrokChatModel._generate_strict.
    rewrite Hdemo, Hstream. unfold try_catch.
    destruct (GrokChatModel.generate_once _ _ _ _ _ _) as [log' res'].
    simpl in Hrun. subst res'. done.
  - intros Hpost.
    by apply (createChatCompletion_decoded net client wmsgs tls log r data calls).
Qed.

Lemma tool_call_calls_decodable : Forall decodable tool_call_calls.
Proof.
  repeat constructor; try (by eexists); try done.
  all: eexists; split; [reflexivity|done].
Qed.

Lemma tool_calls_are_decoded_in_order_witness :
  exists res,
    (GrokChatModel._generate network_tool_call 0 grok_self [human_request]
       default_options false []).2 = Ok res
    /\ map tc_args (tool_calls (GrokChatModel.message res))
       = [screenshot_args; JObj []]
    /\ Forall2 decoded tool_call_calls (tool_calls (GrokChatModel.message res)).
Proof.
  destruct (tool_calls_are_decoded_in_order network_tool_call 0 grok_self
              [human_request] default_options false
              (CustomCallModel.new_GrokClient (js "xai-key") None) [] [] []
              tool_call_response tool_call_data tool_call_calls
              eq_refl eq_refl eq_refl eq_refl eq_refl tool_call_calls_decodable)
    as [H _].
  destruct (H eq_refl) as (res & Hrun & _ & Hdec & _).
  exists res. split; [exact Hrun|]. split; [|exact Hdec].
  vm_compute in Hrun. injection Hrun as <-. reflexivity.
Defined.

(** ** The outcomes of [callModelCustom] *)

Lemma update_throws isUrl net (m : Message) log e :
  (CustomCallModel.conditionallyUpdateToolMessageContent isUrl net m log).2
  = Throw e ->
  e = NetworkError
  /\ exists s,
      content m = JStr s /\ computer_call_url isUrl m = true
      /\ http_get net s = None.
Proof.
  destruct (computer_call_url isUrl m) eqn:Hg.
  - pose proof Hg as Hg'. unfold computer_call_url in Hg'.
    destruct (content m) as [| | |s| |] eqn:Hc;
      try by rewrite andb_false_r in Hg'.
    rewrite (update_resolves isUrl net m s log Hg Hc). simpl.
    destruct (http_get net s) eqn:Hget; [done|]. intros [= <-].
    split; [done|]. by exists s.
  - by rewrite update_keeps.
Qed.

Lemma update_log isUrl net (m : Message) log :
  (CustomCallModel.conditionallyUpdateToolMessageContent isUrl net m log).1
  = log ++ map GET (resolved_urls isUrl [m]).
Proof.
  pose proof (invoke_all_log isUrl net [m] log) as H. simpl in H.
  destruct (CustomCallModel.conditionallyUpdateToolMessageContent isUrl net m log)
    as [log1 r]. exact H.
Qed.

Lemma update_ok isUrl net (m fm : Message) log :
  (CustomCallModel.conditionallyUpdateToolMessageContent isUrl net m log).2 = Ok fm ->
  Forall (fun u => is_Some (http_get net u)) (resolved_urls isUrl [m]).
Proof.
  unfold resolved_urls. simpl.
  destruct (computer_call_url isUrl m) eqn:Hg; [|by constructor].
  pose proof Hg as Hg'. unfold computer_call_url in Hg'.
  destruct (content m) as [| | |s| |] eqn:Hc; try by rewrite andb_false_r in Hg'.
  rewrite (update_resolves isUrl net m s log Hg Hc). simpl.
  destruct (http_get net s) eqn:Hget; [|done]. intros _.
  constructor; [by rewrite Hget|constructor].
Qed.

Lemma invoke_all_outcome isUrl net (ms : list Message) log :
  match (CustomCallModel.invoke_all isUrl net ms log).2 with
  | Ok fs => Forall (fun u => is_Some (http_get net u)) (resolved_urls isUrl ms)
  | Throw e =>
      e = NetworkError
      /\ exists u, u ∈ resolved_urls isUrl ms /\ http_get net u = None
  | Unmodelled => False
  end.
Proof.
  revert log. induction ms as [|m ms IH]; intros log; [by constructor|].
  rewrite resolved_urls_cons. cbn [CustomCallModel.invoke_all].
  pose proof (update_throws isUrl net m log) as Hthrow.
  pose proof (fun fm => update_ok isUrl net m fm log) as Hok.
  pose proof (update_result isUrl net m log) as Hres.
  destruct (CustomCallModel.conditionallyUpdateToolMessageContent isUrl net m log)
    as [log1 r]. simpl in *.
  specialize (IH log1).
  destruct (CustomCallModel.invoke_all isUrl net ms log1) as [log2 rs]. simpl in *.
  destruct r as [fm|e|].
  - destruct rs as [fs|e|]; [| |done].
    + apply Forall_app. split; [by eapply Hok|done].
    + destruct IH as (-> & u & Hu & Hget). split; [done|].
      exists u. split; [|done]. apply elem_of_app. by right.
  - destruct (Hthrow e eq_refl) as (-> & s & Hc & Hg & Hget). split; [done|].
    exists s. split; [|done]. apply elem_of_app. left.
    unfold resolved_urls. simpl. rewrite Hg, Hc. apply elem_of_cons. by left.
  - by destruct Hres as [[fm Hfm]|Hfm].
Qed.

Lemma createChatCompletion_failed net client msgs tls log :
  call_failed
    (http_post net (CustomCallModel.post_request client (js "chat/completions")
                      (CustomCallModel.chat_data msgs tls))) = true ->
  (CustomCallModel.createChatCompletion net client msgs tls log).2
  = Ok CustomCallModel.fallback_message.
Proof.
  intros Hf. unfold CustomCallModel.createChatCompletion.
  apply try_catch_fallback.
  destruct (makeRequest_failed net client _ log Hf) as [e He].
  exists e. unfold bind at 1.
  destruct (CustomCallModel.makeRequest _ _ _ _ _) as [log' r].
  simpl in He. by subst.
Qed.

Lemma callModelCustom_throw_or_return isUrl isCC net env msgs config log :
  let run := CustomCallModel.callModelCustom isUrl isCC net env msgs config log in
  (forall e,
      run.2 = Throw e ->
      (e = Error (js "XAI_API_KEY environment variable is required")
       /\ run.1 = log)
      \/ (e = TypeError /\ msgs = [] /\ run.1 = log)
      \/ (e = NetworkError
          /\ exists urls u,
              run.1 = log ++ map GET urls /\ u ∈ urls /\ http_get net u = None))
  /\ (forall m,
        run.2 = Ok m ->
        exists urls r,
          run.1 = log ++ map GET urls ++ [POST r]
          /\ Forall (fun u => is_Some (http_get net u)) urls
          /\ (call_failed (http_post net r) = true ->
              m = CustomCallModel.fallback_message)).
Proof.
  intros run. subst run.
  unfold CustomCallModel.callModelCustom.
  destruct (CustomCallModel.XAI_API_KEY env) as [[|c key]|].
  1, 3: split; [intros e [= <-]; by left|done].
  rewrite last_map_Some.
  destruct (last msgs) as [lastMessage|] eqn:Hlast.
  2: { apply last_None in Hlast. subst.
       split; [|done]. intros e [= <-]. right. by left. }
  destruct (isCC lastMessage && _).
  - pose proof (update_throws isUrl net lastMessage log) as Hthrow.
    pose proof (fun fm => update_ok isUrl net lastMessage fm log) as Hok.
    pose proof (update_log isUrl net lastMessage log) as Hlog.
    unfold bind.
    destruct (CustomCallModel.conditionallyUpdateToolMessageContent
                isUrl net lastMessage log) as [log1 [fm|e|]]; simpl in *.
    + split.
      * intros e He. by apply try_catch_ret_no_throw in He.
      * intros m Hm. rewrite createChatCompletion_log, Hlog, <- app_assoc.
        eexists _, _. split; [reflexivity|]. split; [by eapply Hok|].
        intros Hf. apply createChatCompletion_failed with (log := log1) in Hf.
        congruence.
    + split; [|done]. intros e' [= <-]. right. right.
      destruct (Hthrow e eq_refl) as (-> & s & Hc & Hg & Hget). split; [done|].
      eexists _, s. split; [exact Hlog|]. split; [|done].
      unfold resolved_urls. simpl. rewrite Hg, Hc. apply elem_of_cons. by left.
    + done.
  - pose proof (invoke_all_outcome isUrl net msgs log) as Hout.
    pose proof (invoke_all_log isUrl net msgs log) as Hlog.
    unfold bind.
    destruct (CustomCallModel.invoke_all isUrl net msgs log)
      as [log1 [fs|e|]]; simpl in *.
    + split.
      * intros e He. by apply try_catch_ret_no_throw in He.
      * intros m Hm. rewrite createChatCompletion_log, Hlog, <- app_assoc.
        eexists _, _. split; [reflexivity|]. split; [done|].
        intros Hf. apply createChatCompletion_failed with (log := log1) in Hf.
        congruence.
    + split; [|done]. intros e' [= <-]. right. right.
      destruct Hout as (-> & u & Hu & Hget). split; [done|].
      by exists (resolved_urls isUrl msgs), u.
    + done.
Qed.

(** X15: [callModelCustom] throws in three cases only: the API key
    is missing (absent or empty), and nothing is sent; the key is
    there and the history is empty, and nothing is sent; or the
    download of a screenshot fails, and no chat request is sent.  A
    failure of the chat request never surfaces: the fallback message
    is returned for it.  When the call returns, it has sent exactly
    one chat request, after all the downloads, which all succeeded. *)
Theorem callModelCustom_outcomes isUrl isCC net env msgs config log :
  let run := CustomCallModel.callModelCustom isUrl isCC net env msgs config log in
  (forall e,
      run.2 = Throw e ->
      (e = Error (js "XAI_API_KEY environment variable is required")
       /\ run.1 = log)
      \/ (e = TypeError /\ msgs = [] /\ run.1 = log)
      \/ (e = NetworkError
          /\ exists urls u,
              run.1 = log ++ map GET urls /\ u ∈ urls /\ http_get net u = None))
  /\ (forall m,
        run.2 = Ok m ->
        exists urls r,
          run.1 = log ++ map GET urls ++ [POST r]
          /\ Forall (fun u => is_Some (http_get net u)) urls
          /\ (call_failed (http_post net r) = true ->
              m = CustomCallModel.fallback_message))
  /\ (CustomCallModel.XAI_API_KEY env = None
      \/ CustomCallModel.XAI_API_KEY env = Some [] ->
      run = (log, Throw (Error (js "XAI_API_KEY environment variable is required"))))
  /\ (forall c key,
        CustomCallModel.XAI_API_KEY env = Some (c :: key) -> msgs = [] ->
        run = (log, Throw TypeError)).
Proof.
  intros run. subst run.
  destruct (callModelCustom_throw_or_return isUrl isCC net env msgs config log)
    as [Hthrow Hok].
  split; [exact Hthrow|]. split; [exact Hok|].
  unfold CustomCallModel.callModelCustom. split.
  - by intros [-> | ->].
  - by intros c key -> ->.
Qed.

Lemma callModelCustom_outcomes_witness :
  exists urls u,
    (CustomCallModel.callModelCustom https_url is_computer_call network_down
       env_with_key [human_request; computer_call_result] default_config []).1
    = [] ++ map GET urls
    /\ u ∈ urls /\ http_get network_down u = None.
Proof.
  destruct (callModelCustom_outcomes https_url is_computer_call network_down
              env_with_key [human_request; computer_call_result] default_config [])
    as (H & _ & _).
  destruct (H NetworkError eq_refl) as [[Hkey _]|[[Hempty _]|[_ Hget]]];
    [discriminate|discriminate|].
  exact Hget.
Defined.

(** ** The streaming model call *)

Lemma streaming_message_plain (msg : Message) :
  plain_turn (StreamingCallModel.streaming_message msg)
  /\ exists c, wire_content (StreamingCallModel.streaming_message msg) = Plain c.
Proof.
  unfold StreamingCallModel.streaming_message, plain_turn.
  repeat case_match; simpl; repeat split; try done; try (by eexists);
    rewrite !elem_of_cons; auto.
Qed.

Lemma with_prompt_plain p (ws : list WireMessage) :
  Forall (fun w => plain_turn w /\ exists c, wire_content w = Plain c) ws ->
  Forall (fun w => plain_turn w /\ exists c, wire_content w = Plain c)
         (StreamingCallModel.with_prompt p ws).
Proof.
  intros Hws. unfold StreamingCallModel.with_prompt.
  destruct p as [q|]; [|done].
  destruct (CustomCallModel.prompt_truthy (Some q)); [|done].
  constructor; [|done]. split; [|by eexists].
  unfold plain_turn. simpl. repeat split; try done.
  rewrite !elem_of_cons. auto.
Qed.

(** X16: with a key, [callModelStreamingCustom] sends one streaming
    request, authorised with the key, that offers the [computer_use]
    tool and carries the history after the system prompt, if one is
    configured; every message goes out as plain content with the role
    [system], [user] or [assistant]: a screenshot of a tool result is
    sent as text, not as an image part, and tool invocations and call
    ids are not sent. *)
Theorem streaming_call_request
        net env msgs (config : option CustomCallModel.Configurable) key log :
  CustomCallModel.XAI_API_KEY env = Some key -> key <> [] ->
  exists r,
    (StreamingCallModel.callModelStreamingCustom net env msgs config log).1
    = log ++ [POST r]
    /\ url r
       = default (js "https://api.x.ai/v1") (CustomCallModel.XAI_BASE_URL env)
         ++ js "/chat/completions"
    /\ authorization r = js "Bearer " ++ key
    /\ stream (request_body r) = true
    /\ (map tool_name <$> tools (request_body r)) = Some [js "computer_use"]
    /\ tool_choice (request_body r) = Some (js "auto")
    /\ (exists system,
          messages (request_body r)
          = system ++ map StreamingCallModel.streaming_message msgs
          /\ (length system <= 1)%nat
          /\ (system = [] <->
              CustomCallModel.prompt_truthy (config ≫= CustomCallModel.prompt)
              = false))
    /\ Forall (fun w => plain_turn w /\ exists c, wire_content w = Plain c)
              (messages (request_body r)).
Proof.
  intros Hkey Hne. unfold StreamingCallModel.callModelStreamingCustom.
  rewrite Hkey. destruct key as [|c key]; [done|].
  unfold GrokStreamingClient.streamChatCompletion. eexists. split; [reflexivity|].
  simpl. repeat split; try done.
  - unfold StreamingCallModel.with_prompt.
    destruct (config ≫= CustomCallModel.prompt) as [q|] eqn:Hp.
    + destruct (CustomCallModel.prompt_truthy (Some q)) eqn:Ht.
      * eexists [_]. repeat split; simpl; try done; lia.
      * exists []. repeat split; simpl; try done; lia.
    + exists []. repeat split; simpl; try done; lia.
  - apply with_prompt_plain, Forall_map, Forall_forall.
    intros m _. apply streaming_message_plain.
Qed.

Lemma streaming_call_request_witness :
  exists r,
    (StreamingCallModel.callModelStreamingCustom network_500 env_with_key
       [human_request; screenshot_result] None []).1 = [] ++ [POST r]
    /\ map role (messages (request_body r)) = [js "user"; js "user"]
    /\ map wire_content (messages (request_body r))
       = [Plain (str "open example.com");
          Plain (str "data:image/png;base64,AAAA")].
Proof.
  destruct (streaming_call_request network_500 env_with_key
              [human_request; screenshot_result] None (js "xai-key") [] eq_refl)
    as (r & Hlog & _); [discriminate|].
  exists r. split; [exact Hlog|].
  vm_compute in Hlog. injection Hlog as <-. split; reflexivity.
Defined.

(** X17: a streaming call has no fallback message: without an API
    key (absent or empty) [callModelStreamingCustom] throws before
    anything is sent; a rejected request, a non-success status and a
    missing body make it throw without a message yielded; when the
    response has a body that is delivered whole, the call yields the
    messages the assembler of the streaming client produces from it,
    and returns. *)
Theorem streaming_call_outcomes
        net env msgs (config : option CustomCallModel.Configurable) log :
  let run := StreamingCallModel.callModelStreamingCustom net env msgs config log in
  (CustomCallModel.XAI_API_KEY env = None
   \/ CustomCallModel.XAI_API_KEY env = Some [] ->
   run = (log,
          GrokStreamingClient.thrown
            (Error (js "XAI_API_KEY environment variable is required"))))
  /\ (forall key request,
        CustomCallModel.XAI_API_KEY env = Some key -> key <> [] ->
        run.1 = log ++ [POST request] ->
        (http_post net request = None ->
         run.2 = GrokStreamingClient.thrown NetworkError)
        /\ (forall r,
              http_post net request = Some r -> ok r = false ->
              run.2 = GrokStreamingClient.thrown
                        (Error (js "Grok API error: " ++ N_digits (status r)
                                ++ js " - " ++ statusText r)))
        /\ (forall r,
              http_post net request = Some r -> ok r = true -> body r = None ->
              run.2 = GrokStreamingClient.thrown
                        (Error (js "No response body available for streaming")))
        /\ (forall r reader ms,
              http_post net request = Some r -> ok r = true ->
              body r = Some reader -> aborted reader = false ->
              StreamingClient.streamChatCompletion (chunks reader) = Some ms ->
              run.2 = {| yields := ms; outcome := Ok tt |})).
Proof.
  intros run. subst run.
  unfold StreamingCallModel.callModelStreamingCustom. split.
  { by intros [-> | ->]. }
  intros key request Hkey Hne.
  rewrite Hkey. destruct key as [|c key]; [done|].
  unfold GrokStreamingClient.streamChatCompletion. simpl.
  intros Hlog%app_inv_head. injection Hlog as <-. repeat split.
  - by intros ->.
  - intros r -> Hok. by rewrite Hok.
  - intros r -> Hok Hbody. by rewrite Hok, Hbody.
  - intros r reader ms -> Hok Hbody Hab. rewrite Hok, Hbody, Hab. simpl.
    unfold StreamingClient.streamChatCompletion.
    rewrite StreamingClientFacts.read_loop_chunks. fold client_start.
    destruct (read_chunks (chunks reader) [] client_start) as [[st [|]]|];
      simpl; [|by intros [= <-]|done].
    by intros [= <-].
Qed.

Lemma streaming_call_outcomes_witness :
  (StreamingCallModel.callModelStreamingCustom network_500 env_with_key
     [human_request] None []).2
  = GrokStreamingClient.thrown
      (Error (js "Grok API error: 500 - Internal Server Error")).
Proof.
  destruct (streaming_call_outcomes network_500 env_with_key [human_request]
              None []) as [_ H].
  destruct (H (js "xai-key")
              (GrokStreamingClient.stream_request
                 (GrokStreamingClient.new_GrokStreamingClient (js "xai-key") None)
                 (GrokStreamingClient.stream_data
                    (map StreamingCallModel.streaming_message [human_request])
                    [StreamingCallModel.computer_use]))
              eq_refl) as (_ & H' & _).
  - discriminate.
  - reflexivity.
  - exact (H' _ eq_refl eq_refl).
Defined.

(** ** The environment: base URL and key *)

Lemma post_not_get (r : Request) (urls : list jsstring) : POST r ∉ map GET urls.
Proof. intros (u & Hu & _)%list_elem_of_fmap. done. Qed.

(** The chat requests of [callModelCustom] are built by a client
    made from the environment. *)
Lemma callModelCustom_posts isUrl isCC net env msgs config key log r :
  CustomCallModel.XAI_API_KEY env = Some key -> key <> [] ->
  POST r ∈ (CustomCallModel.callModelCustom isUrl isCC net env msgs config log).1 ->
  POST r ∈ log
  \/ exists data,
      r = CustomCallModel.post_request
            (CustomCallModel.new_GrokClient key (CustomCallModel.XAI_BASE_URL env))
            (js "chat/completions") data.
Proof.
  intros Hkey Hne. unfold CustomCallModel.callModelCustom.
  rewrite Hkey. destruct key as [|c key]; [done|].
  destruct (List.last (map Some msgs) None) as [lastMessage|]; [|by left].
  destruct (isCC lastMessage && _).
  - pose proof (update_log isUrl net lastMessage log) as Hlog.
    unfold bind.
    destruct (CustomCallModel.conditionallyUpdateToolMessageContent
                isUrl net lastMessage log) as [log1 [fm|e|]]; simpl in *.
    + rewrite createChatCompletion_log, Hlog.
      intros [[Hin|Hin]%elem_of_app|Hin%list_elem_of_singleton]%elem_of_app.
      * by left.
      * by apply post_not_get in Hin.
      * right. injection Hin as ->. by eexists.
    + rewrite Hlog. intros [Hin|Hin]%elem_of_app; [by left|].
      by apply post_not_get in Hin.
    + rewrite Hlog. intros [Hin|Hin]%elem_of_app; [by left|].
      by apply post_not_get in Hin.
  - pose proof (invoke_all_log isUrl net msgs log) as Hlog.
    unfold bind.
    destruct (CustomCallModel.invoke_all isUrl net msgs log)
      as [log1 [fs|e|]]; simpl in *.
    + rewrite createChatCompletion_log, Hlog.
      intros [[Hin|Hin]%elem_of_app|Hin%list_elem_of_singleton]%elem_of_app.
      * by left.
      * by apply post_not_get in Hin.
      * right. injection Hin as ->. by eexists.
    + rewrite Hlog. intros [Hin|Hin]%elem_of_app; [by left|].
      by apply post_not_get in Hin.
    + rewrite Hlog. intros [Hin|Hin]%elem_of_app; [by left|].
      by apply post_not_get in Hin.
Qed.

Lemma streaming_call_posts
      net env msgs (config : option CustomCallModel.Configurable) key log r :
  CustomCallModel.XAI_API_KEY env = Some key -> key <> [] ->
  POST r ∈ (StreamingCallModel.callModelStreamingCustom net env msgs config log).1 ->
  POST r ∈ log
  \/ exists data,
      r = GrokStreamingClient.stream_request
            (GrokStreamingClient.new_GrokStreamingClient key
               (CustomCallModel.XAI_BASE_URL env)) data.
Proof.
  intros Hkey Hne. unfold StreamingCallModel.callModelStreamingCustom.
  rewrite Hkey. destruct key as [|c key]; [done|].
  unfold GrokStreamingClient.streamChatCompletion. simpl.
  intros [Hin|Hin%list_elem_of_singleton]%elem_of_app; [by left|].
  right. injection Hin as ->. by eexists.
Qed.

Lemma patched_generate_posts net now env bound msgs options cb log r :
  POST r ∈ (OpenAIPatch.patched_generate net now env bound msgs options cb log).1 ->
  POST r ∈ log
  \/ exists data,
      r = GrokChatModel.chat_request
            (OpenAIPatch.new_GrokChatModel env OpenAIPatch.no_config bound) data.
Proof.
  unfold OpenAIPatch.patched_generate. intros Hin.
  destruct (generate_log net now
              (OpenAIPatch.new_GrokChatModel env OpenAIPatch.no_config bound)
              msgs options cb log) as [H|[streaming H]];
    rewrite H in Hin; [by left|].
  apply elem_of_app in Hin as [Hin|Hin%list_elem_of_singleton]; [by left|].
  right. injection Hin as ->. by eexists.
Qed.

(** X18: a blank [XAI_BASE_URL] is kept by the two clients, whose
    chat requests then go to the relative URL [/chat/completions],
    and is replaced by the xAI endpoint in the chat model. *)
Theorem blank_base_url
        isUrl isCC net now env bound msgs options cb config
        (sconfig : option CustomCallModel.Configurable) key log r :
  CustomCallModel.XAI_API_KEY env = Some key -> key <> [] ->
  CustomCallModel.XAI_BASE_URL env = Some [] ->
  (POST r ∈ (CustomCallModel.callModelCustom isUrl isCC net env msgs config log).1
   \/ POST r ∈ (StreamingCallModel.callModelStreamingCustom net env msgs sconfig
                  log).1 ->
   POST r ∈ log \/ url r = js "/chat/completions")
  /\ (POST r ∈ (OpenAIPatch.patched_generate net now env bound msgs options cb
                  log).1 ->
      POST r ∈ log \/ url r = js "https://api.x.ai/v1/chat/completions").
Proof.
  intros Hkey Hne Hbase. split.
  - intros [Hin|Hin].
    + destruct (callModelCustom_posts _ _ _ _ _ _ _ _ _ Hkey Hne Hin)
        as [H|[data ->]]; [by left|]. right. simpl. by rewrite Hbase.
    + destruct (streaming_call_posts _ _ _ _ _ _ _ Hkey Hne Hin)
        as [H|[data ->]]; [by left|]. right. simpl. by rewrite Hbase.
  - intros Hin.
    destruct (patched_generate_posts _ _ _ _ _ _ _ _ _ Hin) as [H|[data ->]];
      [by left|]. right. simpl. by rewrite Hbase.
Qed.

Lemma blank_base_url_witness :
  url (GrokStreamingClient.stream_request
         (GrokStreamingClient.new_GrokStreamingClient (js "xai-key") (Some []))
         (GrokStreamingClient.stream_data
            (map StreamingCallModel.streaming_message [human_request])
            [StreamingCallModel.computer_use]))
  = js "/chat/completions".
Proof.
  destruct (blank_base_url https_url is_computer_call network_500 0 env_blank_url
              None [human_request] default_options false default_config None
              (js "xai-key") []
              (GrokStreamingClient.stream_request
                 (GrokStreamingClient.new_GrokStreamingClient (js "xai-key")
                    (Some []))
                 (GrokStreamingClient.stream_data
                    (map StreamingCallModel.streaming_message [human_request])
                    [StreamingCallModel.computer_use]))
              eq_refl) as [H _]; [discriminate|reflexivity|].
  destruct H as [H|H].
  - right. apply list_elem_of_In. left. reflexivity.
  - by apply elem_of_nil in H.
  - exact H.
Defined.

(** X19: a key given to [createCustomCua] is stored in the
    environment, where it replaces the key found there, and every
    chat request the model calls send afterwards is authorised with
    it; without a key (absent or empty) the factory leaves the
    environment as it is. *)
Theorem factory_key_authenticates
        params isUrl isCC net now env bound msgs options cb config
        (sconfig : option CustomCallModel.Configurable) log r :
  let env' := (CustomCua.createCustomCua params env).1 in
  (forall key,
      CustomCua.xaiApiKey params = Some key -> key <> [] ->
      CustomCallModel.XAI_API_KEY env' = Some key
      /\ CustomCallModel.XAI_BASE_URL env' = CustomCallModel.XAI_BASE_URL env
      /\ (POST r ∈ (CustomCallModel.callModelCustom isUrl isCC net env' msgs
                      config log).1
          \/ POST r ∈ (StreamingCallModel.callModelStreamingCustom net env' msgs
                         sconfig log).1
          \/ POST r ∈ (OpenAIPatch.patched_generate net now env' bound msgs
                         options cb log).1 ->
          POST r ∈ log \/ authorization r = js "Bearer " ++ key))
  /\ (CustomCua.xaiApiKey params = None \/ CustomCua.xaiApiKey params = Some [] ->
      env' = env).
Proof.
  intros env'. subst env'. unfold CustomCua.createCustomCua. split.
  - intros key Hkey Hne. rewrite Hkey. destruct key as [|c key]; [done|].
    cbn [fst].
    set (env' := {| CustomCallModel.XAI_API_KEY := Some (c :: key);
                    CustomCallModel.XAI_BASE_URL :=
                      CustomCallModel.XAI_BASE_URL env |}).
    assert (Hk : CustomCallModel.XAI_API_KEY env' = Some (c :: key)) by done.
    repeat split.
    intros [Hin|[Hin|Hin]].
    + destruct (callModelCustom_posts _ _ _ _ _ _ _ _ _ Hk Hne Hin)
        as [H|[data ->]]; [by left|by right].
    + destruct (streaming_call_posts _ _ _ _ _ _ _ Hk Hne Hin)
        as [H|[data ->]]; [by left|by right].
    + destruct (patched_generate_posts _ _ _ _ _ _ _ _ _ Hin) as [H|[data ->]];
        [by left|by right].
  - by intros [-> | ->].
Qed.

Lemma factory_key_authenticates_witness :
  CustomCallModel.XAI_API_KEY (CustomCua.createCustomCua factory_params env_with_key).1
  = Some (js "new-key").
Proof.
  destruct (factory_key_authenticates factory_params https_url is_computer_call
              network_500 0 env_with_key None [human_request] default_options
              false default_config None []
              (GrokChatModel.chat_request grok_self
                 (GrokChatModel.chat_body [] [] default_options false)))
    as [H _].
  destruct (H (js "new-key") eq_refl) as [Hk _]; [discriminate|exact Hk].
Defined.

(** ** The slot of an index *)

Lemma call_at_apply_fragment merge i j calls d :
  call_at j (apply_fragment merge i calls d)
  = if bool_decide (i = j) then merge d (call_at j calls) else call_at j calls.
Proof.
  unfold call_at. case_bool_decide as Hij.
  - subst. by rewrite apply_fragment_lookup.
  - unfold apply_fragment. rewrite list_lookup_alter_ne by done. unfold grow.
    destruct (decide (j < length calls)%nat) as [Hj|Hj].
    + by rewrite lookup_app_l by lia.
    + rewrite lookup_app_r by lia. rewrite (lookup_ge_None_2 calls j) by lia.
      simpl. destruct (replicate _ _ !! _) as [tc|] eqn:Hr; [|done].
      by apply lookup_replicate in Hr as [-> _].
Qed.

Lemma length_apply_fragment merge i calls d :
  (length calls <= length (apply_fragment merge i calls d))%nat
  /\ (i < length (apply_fragment merge i calls d))%nat.
Proof.
  unfold apply_fragment. rewrite length_alter. unfold grow.
  rewrite length_app, length_replicate. lia.
Qed.

Lemma call_at_fold merge j (ids : list (nat * JValue)) calls :
  call_at j (fold_left (apply_indexed merge) ids calls)
  = fold_left (fun tc d => merge d tc) (fragments_for j ids) (call_at j calls).
Proof.
  revert calls. induction ids as [|[i d] ids IH]; intros calls; [done|].
  simpl. rewrite IH. unfold apply_indexed. simpl.
  rewrite call_at_apply_fragment. unfold fragments_for. simpl.
  by case_bool_decide.
Qed.

Lemma length_fold_indexed merge (ids : list (nat * JValue)) calls :
  (length calls <= length (fold_left (apply_indexed merge) ids calls))%nat.
Proof.
  revert calls. induction ids as [|[i d] ids IH]; intros calls; [done|].
  simpl. etrans; [|apply IH]. apply length_apply_fragment.
Qed.

Lemma addressed_length merge j (ids : list (nat * JValue)) calls :
  j ∈ map fst ids ->
  (j < length (fold_left (apply_indexed merge) ids calls))%nat.
Proof.
  revert calls. induction ids as [|[i d] ids IH]; intros calls Hin.
  - by apply elem_of_nil in Hin.
  - simpl in *. apply elem_of_cons in Hin as [->|Hin]; [|by apply IH].
    eapply Nat.lt_le_trans; [|apply length_fold_indexed].
    apply length_apply_fragment.
Qed.

Lemma addressed_lookup merge j (ids : list (nat * JValue)) :
  j ∈ map fst ids ->
  fold_left (apply_indexed merge) ids [] !! j
  = Some (fold_left (fun tc d => merge d tc) (fragments_for j ids) empty_tool_call).
Proof.
  intros Hin. pose proof (call_at_fold merge j ids []) as Hat.
  pose proof (addressed_length merge j ids [] Hin) as Hlen.
  unfold call_at in Hat. simpl in Hat.
  destruct (fold_left _ ids [] !! j) as [tc|] eqn:Hj.
  - simpl in Hat. by rewrite Hat.
  - apply lookup_ge_None in Hj. lia.
Qed.

(** ** A content that is a text, or absent *)

Lemma text_cases (v : value) (text : jsstring) :
  text_or_absent v = true ->
  match v with Some (JStr s) => s | _ => [] end = text ->
  (truthy v = false /\ text = [])
  \/ (v = Some (JStr text) /\ text <> []).
Proof.
  intros Hv Ht. destruct (text_or_absent_cases v Hv) as [Hf|(s & -> & Hne)].
  - left. split; [done|].
    destruct v as [[| | |s| |]|]; try done.
    simpl in Hf. apply negb_false_iff, bool_decide_eq_true_1 in Hf. by subst.
  - right. by subst.
Qed.

(** ** The tool the chat model offers *)

(** X22: a request of [_generate] offers exactly one tool,
    [computer_use_preview], when the tool list in force is not empty,
    and no tool otherwise; the definitions of the caller's tools are
    not sent.  The bound list is in force whenever there is one: an
    empty bound list hides the tools of the options. *)
Theorem chat_model_offers_one_tool net now self msgs options cb log r :
  POST r ∈ (GrokChatModel._generate net now self msgs options cb log).1 ->
  POST r ∈ log
  \/ (let in_force :=
        match GrokChatModel.bound_tools self with
        | Some t => t
        | None => default [] (GrokChatModel.options_tools options)
        end in
      (in_force = [] ->
       tools (request_body r) = None /\ tool_choice (request_body r) = None)
      /\ (in_force <> [] ->
          tools (request_body r) = Some [GrokChatModel.computer_use_preview]
          /\ tool_choice (request_body r) = Some (js "auto"))).
Proof.
  intros Hin.
  destruct (generate_log net now self msgs options cb log) as [H|[streaming H]];
    rewrite H in Hin; [by left|].
  apply elem_of_app in Hin as [Hin|Hin%list_elem_of_singleton]; [by left|].
  right. injection Hin as ->. simpl. unfold GrokChatModel.grokTools.
  destruct (match GrokChatModel.bound_tools self with
            | Some t => t
            | None => default [] (GrokChatModel.options_tools options)
            end) as [|t ts]; simpl; split; done.
Qed.

Lemma chat_model_offers_one_tool_witness :
  tools (request_body
           (GrokChatModel.chat_request bound_nothing
              (GrokChatModel.chat_body
                 (map GrokChatModel.xaiMessage [human_request])
                 (GrokChatModel.grokTools bound_nothing options_with_tool)
                 options_with_tool false)))
  = None.
Proof.
  destruct (chat_model_offers_one_tool network_500 0 bound_nothing [human_request]
              options_with_tool false []
              (GrokChatModel.chat_request bound_nothing
                 (GrokChatModel.chat_body
                    (map GrokChatModel.xaiMessage [human_request])
                    (GrokChatModel.grokTools bound_nothing options_with_tool)
                    options_with_tool false)))
    as [H|[H _]].
  - apply list_elem_of_In. left. reflexivity.
  - by apply elem_of_nil in H.
  - exact (proj1 (H eq_refl)).
Defined.

(** ** White space around a line *)

Lemma grok_for_lines_trimmed cb lines lines' st :
  Forall2 (fun l l' => trim l = trim l') lines lines' ->
  GrokPatch.for_lines cb lines st = GrokPatch.for_lines cb lines' st.
Proof.
  intros H. revert st. induction H as [|l l' ls ls' Hl Hls IH]; intros st; [done|].
  simpl. unfold GrokPatch.process_line. rewrite Hl.
  by repeat case_match.
Qed.

Lemma client_for_lines_trimmed lines lines' st :
  Forall2 (fun l l' => trim l = trim l') lines lines' ->
  StreamingClient.for_lines lines st = StreamingClient.for_lines lines' st.
Proof.
  intros H. revert st. induction H as [|l l' ls ls' Hl Hls IH]; intros st; [done|].
  simpl. unfold StreamingClient.process_line. rewrite Hl.
  by repeat case_match.
Qed.

Lemma sentinel_line_trimmed lines lines' :
  Forall2 (fun l l' => trim l = trim l') lines lines' ->
  Forall (fun l => sentinel_line l = false) lines ->
  Forall (fun l => sentinel_line l = false) lines'.
Proof.
  induction 1 as [|l l' ls ls' Hl Hls IH]; [done|].
  intros [H1 H2]%Forall_cons. constructor; [|by apply IH].
  unfold sentinel_line, payload in *. by rewrite <- Hl.
Qed.

(** X23: the assemblers read a line through its trimmed text only:
    white space before and after a line, the carriage return of a
    CRLF line end included, changes neither the result nor the
    warnings.  (For [_streamGenerate]: on a text without the sentinel,
    where the chunking does not matter.) *)
Theorem lines_are_read_trimmed cb chunks chunks' lines lines' :
  Forall (fun l => 10 ∉ l) lines -> Forall (fun l => 10 ∉ l) lines' ->
  Forall2 (fun l l' => trim l = trim l') lines lines' ->
  concat chunks = concat (map (fun l => l ++ [10]) lines) ->
  concat chunks' = concat (map (fun l => l ++ [10]) lines') ->
  StreamingClient.streamChatCompletion chunks
  = StreamingClient.streamChatCompletion chunks'
  /\ (Forall (fun l => sentinel_line l = false) lines ->
      GrokPatch.assemble cb chunks = GrokPatch.assemble cb chunks').
Proof.
  intros Hnl Hnl' Htrim Htext Htext'. split.
  - unfold StreamingClient.streamChatCompletion.
    rewrite !StreamingClientFacts.read_loop_chunks.
    rewrite !client_read_chunks_lines by apply not_elem_of_nil.
    simpl app. rewrite Htext, Htext', !split_lines, !removelast_last by done.
    by rewrite (client_for_lines_trimmed lines lines').
  - intros Hns. pose proof (sentinel_line_trimmed lines lines' Htrim Hns) as Hns'.
    unfold GrokPatch.assemble.
    rewrite !grok_read_loop_lines; try apply not_elem_of_nil.
    + simpl app. rewrite Htext, Htext', !split_lines, !removelast_last by done.
      by rewrite (grok_for_lines_trimmed cb lines lines').
    + simpl app. rewrite Htext', split_lines by done. by rewrite removelast_last.
    + simpl app. rewrite Htext, split_lines by done. by rewrite removelast_last.
Qed.

Lemma lines_are_read_trimmed_witness :
  StreamingClient.streamChatCompletion [hello_text]
  = StreamingClient.streamChatCompletion [hello_text_crlf].
Proof.
  apply (lines_are_read_trimmed true [hello_text] [hello_text_crlf]
           hello_lines hello_lines_crlf).
  - repeat constructor; apply no_newline; vm_compute; reflexivity.
  - repeat constructor; apply no_newline; vm_compute; reflexivity.
  - repeat constructor; vm_compute; reflexivity.
  - exact (app_nil_r hello_text).
  - exact (app_nil_r hello_text_crlf).
Defined.

(** ** The metadata of a stream *)

Lemma update_metadata_records (ev : JValue) (a : Acc) :
  ev <> JNull ->
  update_metadata (Some ev) a = (on_metadata (event_metadata ev) a, Ok tt).
Proof.
  intros Hev. unfold update_metadata.
  unfold bind at 1. unfold lift at 1. rewrite (get_field ev "id") by done.
  unfold bind at 1. rewrite when_modify.
  unfold bind at 1. unfold lift at 1. rewrite (get_field ev "model") by done.
  unfold bind at 1. rewrite when_modify.
  unfold bind at 1. unfold lift at 1. rewrite (get_field ev "usage") by done.
  rewrite when_modify. unfold event_metadata. destruct a.
  by destruct (truthy (field ev "id")), (truthy (field ev "model")),
       (truthy (field ev "usage")).
Qed.

(** The way to the first choice of an event that has one. *)
Lemma chosen_first_steps (ev : JValue) :
  truthy (event_choice ev) = true ->
  exists choices choice,
    ev <> JNull
    /\ get (Some ev) (js "choices") = Ok choices /\ truthy choices = true
    /\ get_idx choices 0 = Ok (Some choice) /\ truthy (Some choice) = true.
Proof.
  unfold event_choice. intros H.
  destruct (field ev "choices") as [choices|] eqn:Hch; [|done].
  pose proof (field_some_not_null ev _ _ Hch) as Hev.
  destruct (truthy (Some choices)) eqn:Hcht; [|done].
  destruct (get_idx (Some choices) 0) as [[choice|]| |] eqn:Hidx; try done.
  exists (Some choices), choice.
  rewrite (get_field ev "choices") by done. by rewrite Hch.
Qed.

Ltac metadata_kept :=
  match goal with
  | |- responseMetadata (?m ?s).1 = ?md =>
      cut (keeps (fun x => responseMetadata x = md) m);
      [intros Hk; by apply Hk|]
  end.

Lemma grok_on_event_metadata cb (ev : JValue) a :
  responseMetadata (GrokPatch.on_event cb (Some ev) a).1
  = record_event (responseMetadata a) ev.
Proof.
  unfold record_event.
  destruct (truthy (event_choice ev)) eqn:Hc.
  - destruct (chosen_first_steps ev Hc)
      as (choices & choice & Hnn & Hch & Hcht & Hidx & Hct).
    unfold GrokPatch.on_event.
    unfold bind at 1. unfold lift at 1. rewrite Hch.
    unfold bind at 1. rewrite Hcht. unfold lift at 1. rewrite Hidx, Hct.
    unfold when at 1.
    unfold bind at 1. unfold lift at 1.
    rewrite (get_field choice "delta") by by apply truthy_not_null.
    unfold bind at 1. rewrite update_metadata_records by done.
    metadata_kept. unfold GrokPatch.process_tool_call_delta, update_call.
    keeps_steps ltac:(apply keeps_modify; by intros ? ?).
  - assert (ev = JNull \/ ev <> JNull) as [->|Hnn];
      [destruct ev; first [by left|by right]|done|].
    by rewrite grok_on_event_choiceless.
Qed.

Lemma client_on_event_metadata (ev : JValue) a :
  responseMetadata (StreamingClient.on_event (Some ev) a).1
  = record_event (responseMetadata a) ev.
Proof.
  unfold record_event.
  destruct (truthy (event_choice ev)) eqn:Hc.
  - destruct (chosen_first_steps ev Hc)
      as (choices & choice & Hnn & Hch & Hcht & Hidx & Hct).
    unfold StreamingClient.on_event.
    unfold bind at 1. unfold lift at 1. rewrite Hch.
    unfold bind at 1. rewrite Hcht. unfold lift at 1. rewrite Hidx, Hct.
    unfold when at 1.
    unfold bind at 1. unfold lift at 1.
    rewrite (get_field choice "delta") by by apply truthy_not_null.
    unfold bind at 1. rewrite update_metadata_records by done.
    metadata_kept.
    unfold StreamingClient.process_tool_call_delta, update_call,
      StreamingClient.yield_snapshot.
    keeps_steps ltac:(apply keeps_modify; by intros ? ?).
  - assert (ev = JNull \/ ev <> JNull) as [->|Hnn];
      [destruct ev; first [by left|by right]|done|].
    by rewrite client_on_event_choiceless.
Qed.

Lemma fold_record_line md l ls :
  fold_left record_event (omap line_event (l :: ls)) md
  = fold_left record_event (omap line_event ls)
      (match line_event l with Some ev => record_event md ev | None => md end).
Proof. simpl. by destruct (line_event l). Qed.

Lemma grok_process_line_metadata cb line st st' c :
  GrokPatch.process_line cb line st = Some (st', c) ->
  responseMetadata (GrokPatch.acc st')
  = match line_event line with
    | Some ev => record_event (responseMetadata (GrokPatch.acc st)) ev
    | None => responseMetadata (GrokPatch.acc st)
    end.
Proof.
  unfold GrokPatch.process_line, GrokPatch.try_event, line_event, payload.
  destruct (startsWith _ _); [|by intros [= <- <-]].
  destruct (jsstring_eqb _ _) eqn:Hd.
  { unfold jsstring_eqb in Hd. apply bool_decide_eq_true in Hd. rewrite Hd.
    rewrite JSON_parse_sentinel. by intros [= <- <-]. }
  destruct (JSON_parse _) as [ev|]; [|by intros [= <- <-]].
  pose proof (grok_on_event_metadata cb ev (GrokPatch.acc st)) as H.
  destruct (GrokPatch.on_event cb (Some ev) (GrokPatch.acc st)) as [a' [[]|e|]];
    [| |done]; by intros [= <- <-].
Qed.

Lemma client_process_line_metadata line st st' c :
  StreamingClient.process_line line st = Some (st', c) ->
  responseMetadata (StreamingClient.acc st')
  = match line_event line with
    | Some ev => record_event (responseMetadata (StreamingClient.acc st)) ev
    | None => responseMetadata (StreamingClient.acc st)
    end.
Proof.
  unfold StreamingClient.process_line, StreamingClient.try_event, line_event, payload.
  destruct (startsWith _ _); [|by intros [= <- <-]].
  destruct (jsstring_eqb _ _) eqn:Hd.
  { unfold jsstring_eqb in Hd. apply bool_decide_eq_true in Hd. rewrite Hd.
    rewrite JSON_parse_sentinel. by intros [= <- <-]. }
  destruct (JSON_parse _) as [ev|]; [|by intros [= <- <-]].
  pose proof (client_on_event_metadata ev (StreamingClient.acc st)) as H.
  destruct (StreamingClient.on_event (Some ev) (StreamingClient.acc st))
    as [a' [[]|e|]]; [| |done]; by intros [= <- <-].
Qed.

Lemma grok_for_lines_metadata cb lines st st' :
  Forall (fun l => sentinel_line l = false) lines ->
  GrokPatch.for_lines cb lines st = Some st' ->
  responseMetadata (GrokPatch.acc st')
  = fold_left record_event (omap line_event lines)
      (responseMetadata (GrokPatch.acc st)).
Proof.
  intros Hall. revert st.
  induction Hall as [|l ls Hl Hall IH]; intros st; simpl GrokPatch.for_lines.
  - by intros [= <-].
  - destruct (GrokPatch.process_line cb l st) as [[s c]|] eqn:Hp; [|done].
    rewrite fold_record_line, <- (grok_process_line_metadata cb l st s c Hp).
    destruct c; [apply IH|].
    by destruct (grok_process_line_no_break cb l st s Hl).
Qed.

Lemma client_process_line_control line st st' c :
  StreamingClient.process_line line st = Some (st', c) ->
  c = if sentinel_line line then Break else Continue.
Proof.
  unfold sentinel_line, StreamingClient.process_line. fold (payload line).
  destruct (startsWith (trim line) (js "data: ")); [|by intros [= _ <-]]. simpl.
  destruct (jsstring_eqb _ _); [by intros [= _ <-]|].
  repeat case_match; by intros [= _ <-].
Qed.

Lemma sentinel_line_event line : sentinel_line line = true -> line_event line = None.
Proof.
  unfold sentinel_line, line_event, jsstring_eqb.
  intros [-> Hd%bool_decide_eq_true]%andb_true_iff.
  by rewrite Hd, JSON_parse_sentinel.
Qed.

Lemma client_for_lines_metadata lines st st' c :
  StreamingClient.for_lines lines st = Some (st', c) ->
  responseMetadata (StreamingClient.acc st')
  = fold_left record_event (omap line_event (until_sentinel lines))
      (responseMetadata (StreamingClient.acc st)).
Proof.
  revert st. induction lines as [|l ls IH]; intros st; simpl StreamingClient.for_lines.
  - by intros [= <- _].
  - destruct (StreamingClient.process_line l st) as [[s k]|] eqn:Hp; [|done].
    pose proof (client_process_line_control _ _ _ _ Hp) as Hk.
    pose proof (client_process_line_metadata _ _ _ _ Hp) as Hm.
    simpl until_sentinel. destruct (sentinel_line l) eqn:Hs; subst k.
    + intros [= <- _]. by rewrite Hm, sentinel_line_event.
    + intros Hrest. rewrite fold_record_line, <- Hm. by apply (IH s).
Qed.

Lemma recorded_finish_reason evs md :
  md_finish_reason (fold_left record_event evs md) = md_finish_reason md.
Proof.
  revert md. induction evs as [|ev evs IH]; intros md; [done|].
  simpl. rewrite IH. unfold record_event, event_metadata. by repeat case_match.
Qed.

(** X24: both assemblers record the metadata of a stream event by
    event.  An event that has a first choice overwrites the id, the
    model and the usage, each with its own value where that is truthy,
    also when the rest of the event is then rejected; an event without
    a first choice, a line that is not an event and everything else in
    the stream leave the metadata alone, and no finish reason is ever
    recorded.  The final message of [_streamGenerate] (for a stream
    without the sentinel) and the last message the generator of the
    streaming client yields (for the events before the sentinel)
    carry the metadata so recorded. *)
Theorem stream_metadata_is_recorded cb chunks :
  let lines := removelast (split 10 (concat chunks)) in
  (Forall (fun l => sentinel_line l = false) lines ->
   forall m st,
     GrokPatch.assemble cb chunks = Some (m, st) ->
     response_metadata m = stream_metadata lines)
  /\ (forall ms,
        StreamingClient.streamChatCompletion chunks = Some ms ->
        exists m,
          last ms = Some m
          /\ response_metadata m = stream_metadata (until_sentinel lines))
  /\ (forall ls, md_finish_reason (stream_metadata ls) = undefined).
Proof.
  intros lines. subst lines. split; [|split].
  - intros Hall m st. unfold GrokPatch.assemble.
    destruct (GrokPatch.read_loop cb chunks [] _) as [st'|] eqn:Hrun; [|done].
    intros [= <- <-]. simpl.
    rewrite grok_read_loop_lines in Hrun by (done || apply not_elem_of_nil).
    by apply (grok_for_lines_metadata cb _ _ _ Hall) in Hrun.
  - intros ms. unfold StreamingClient.streamChatCompletion.
    rewrite StreamingClientFacts.read_loop_chunks,
      client_read_chunks_lines by apply not_elem_of_nil.
    simpl app.
    destruct (StreamingClient.for_lines _ _) as [[s k]|] eqn:Hl; [|done].
    intros [= <-].
    pose proof (client_for_lines_metadata _ _ _ _ Hl) as Hm.
    pose proof (client_for_lines_ended (fun _ => True) _ _ _
                  (fun _ _ _ => I) I Hl) as He.
    change (fold_left _ _ _)
      with (stream_metadata (until_sentinel (removelast (split 10 (concat chunks)))))
      in Hm.
    unfold ended in He. unfold finish. rewrite <- Hm.
    destruct k; simpl in *.
    + eexists. split; [apply last_snoc|done].
    + destruct He as (a & _ & ->). eexists. split; [apply last_snoc|done].
  - intros ls. apply recorded_finish_reason.
Qed.

Lemma stream_metadata_is_recorded_witness :
  exists m st,
    GrokPatch.assemble true [metadata_text] = Some (m, st)
    /\ response_metadata m
       = {| md_id := Some (str "r2"); md_model := Some (str "grok-2");
            md_usage := Some (JObj [(js "total_tokens", num 5)]);
            md_finish_reason := undefined |}
    /\ length (GrokPatch.warnings st) = 1%nat.
Proof.
  eexists _, _. split; [reflexivity|]. split; [|reflexivity].
  destruct (stream_metadata_is_recorded true [metadata_text]) as (H & _ & _).
  etrans; [eapply H; [vm_compute; repeat constructor|reflexivity]|reflexivity].
Defined.

(** ** The fragments of one event, applied in order *)

Lemma grok_for_of_indexed (ids : list (nat * JValue)) a :
  Forall (fun q => fragment_at q.1 q.2) ids ->
  for_of (X := value) (map Some (map snd ids)) GrokPatch.process_tool_call_delta a
  = (on_tool_calls (fun calls => fold_left (apply_indexed grok_merge) ids calls) a,
     Ok tt).
Proof.
  intros Hds. revert a. induction Hds as [|[i d] ids Hd Hds IH]; intros a; simpl.
  - unfold ret. by destruct a.
  - unfold bind. simpl in Hd. by rewrite (grok_process_fragment i d a Hd), IH.
Qed.

(** ** Streams in general *)

(** *** One event *)

Lemma chosen_event_fields (ev : JValue) :
  truthy (event_choice ev) = true ->
  exists choices choice,
    ev <> JNull
    /\ get (Some ev) (js "choices") = Ok choices /\ truthy choices = true
    /\ get_idx choices 0 = Ok (Some choice) /\ truthy (Some choice) = true
    /\ event_delta_object ev = field choice "delta"
    /\ (forall k, event_delta ev k
                  = match field choice "delta" with
                    | Some delta => field delta k
                    | None => undefined
                    end).
Proof.
  intros H. pose proof H as H'. unfold event_choice in H'.
  unfold event_delta_object, event_delta, event_choice.
  destruct (field ev "choices") as [choices|] eqn:Hch; [|done].
  pose proof (field_some_not_null ev _ _ Hch) as Hev.
  destruct (truthy (Some choices)) eqn:Hcht; [|done].
  destruct (get_idx (Some choices) 0) as [[choice|]| |] eqn:Hidx; try done.
  exists (Some choices), choice.
  rewrite (get_field ev "choices") by done. rewrite Hch, H'. done.
Qed.

Lemma choiceless_event_fields (ev : JValue) :
  truthy (event_choice ev) = false ->
  event_text ev = [] /\ event_fragments ev = []
  /\ truthy (event_delta ev "tool_calls") = false.
Proof.
  intros H. unfold event_text, event_fragments, event_delta.
  destruct (event_choice ev) as [choice|]; [|done]. by rewrite H.
Qed.

Lemma fragment_ok_at d :
  fragment_ok d = true -> fragment_at (addressed d).1 (addressed d).2.
Proof.
  unfold fragment_ok, addressed, fragment_at. cbn [fst snd].
  destruct (fragment_index d) as [i| |]; [|done|done]. by intros H.
Qed.

Lemma fragments_ok_at (ds : list JValue) :
  forallb fragment_ok ds = true ->
  Forall (fun q => fragment_at q.1 q.2) (map addressed ds).
Proof.
  intros H. apply Forall_forall. intros q (d & -> & Hd)%list_elem_of_fmap.
  apply fragment_ok_at. rewrite forallb_forall in H. apply H.
  by apply list_elem_of_In.
Qed.

Lemma map_snd_addressed (ds : list JValue) : map snd (map addressed ds) = ds.
Proof. induction ds as [|d ds IH]; [done|]. simpl. by rewrite IH. Qed.

Lemma client_outcome_fail i d :
  fragment_at i d ->
  client_outcome d = if arguments_fail d then Throw SyntaxError else Ok tt.
Proof.
  intros [_ Ha]. unfold client_outcome, arguments_fail.
  destruct (fragment_text_cases d Ha) as [[Hf Ht]|(s & Hs & Hne & Ht)].
  - rewrite Ht, JSON_parse_empty. simpl.
    destruct (fragment_arguments d) as [[| | |s| |]|]; try done.
    simpl in Hf. apply negb_false_iff, bool_decide_eq_true_1 in Hf.
    by rewrite bool_decide_eq_true_2.
  - rewrite Hs, Ht, !bool_decide_eq_false_2 by done.
    by destruct (JSON_parse s).
Qed.

Lemma client_for_of_applied (ds : list JValue) a :
  forallb fragment_ok ds = true ->
  for_of (X := value) (map Some ds) StreamingClient.process_tool_call_delta a
  = (on_tool_calls
       (fun calls => fold_left (apply_indexed client_merge)
                               (map addressed (applied ds)) calls) a,
     if existsb arguments_fail ds then Throw SyntaxError else Ok tt).
Proof.
  revert a. induction ds as [|d ds IH]; intros a Hok; simpl.
  - unfold ret. by destruct a.
  - apply andb_true_iff in Hok as [Hd Hds].
    pose proof (fragment_ok_at d Hd) as Hat.
    change (fragment_at (addressed d).1 d) in Hat.
    unfold bind. rewrite (client_process_fragment _ _ a Hat).
    rewrite (client_outcome_fail _ _ Hat). simpl.
    destruct (arguments_fail d); simpl; [done|].
    by rewrite IH.
Qed.

Lemma grok_for_of_all (ds : list JValue) a :
  forallb fragment_ok ds = true ->
  for_of (X := value) (map Some ds) GrokPatch.process_tool_call_delta a
  = (on_tool_calls
       (fun calls => fold_left (apply_indexed grok_merge) (map addressed ds) calls) a,
     Ok tt).
Proof.
  intros Hok.
  rewrite <- (map_snd_addressed ds) at 1.
  by apply grok_for_of_indexed, fragments_ok_at.
Qed.

Lemma grok_content_phase cb (v : value) a :
  text_or_absent v = true ->
  when (truthy v)
    (bind (lift (as_string v))
       (fun text =>
          bind (modify (on_content (fun c => c ++ text)))
            (fun _ => when cb (modify (on_tokens (fun t => t ++ [text])))))) a
  = ({| accumulatedContent := accumulatedContent a ++ text_of v;
        accumulatedToolCalls := accumulatedToolCalls a;
        responseMetadata := responseMetadata a;
        tokens := tokens a ++ (if cb then token_of (text_of v) else []);
        yielded := yielded a |}, Ok tt).
Proof.
  intros Hv. destruct (text_cases v (text_of v) Hv eq_refl) as [[Hf Ht]|[Hs Hne]].
  - rewrite Hf, Ht. unfold token_of. simpl.
    destruct a, cb; simpl; by rewrite !app_nil_r.
  - rewrite Hs. unfold token_of. simpl. rewrite !bool_decide_eq_false_2 by done.
    destruct a, cb; simpl; by rewrite ?app_nil_r.
Qed.

Lemma grok_calls_phase (v : value) a :
  calls_ok v = true ->
  when (truthy v)
    (bind (lift (iterate v))
       (fun deltas => for_of deltas GrokPatch.process_tool_call_delta)) a
  = (on_tool_calls
       (fun calls => fold_left (apply_indexed grok_merge)
                               (map addressed (fragments_of v)) calls) a,
     Ok tt).
Proof.
  unfold calls_ok. intros Hv.
  destruct v as [[| | | |ds|]|];
    try (apply negb_true_iff in Hv; rewrite Hv; by destruct a).
  simpl truthy. unfold when, bind at 1, lift at 1. simpl iterate. cbv iota beta.
  by apply grok_for_of_all.
Qed.

Lemma grok_on_event_reference cb (ev : JValue) a :
  event_ok ev = true ->
  GrokPatch.on_event cb (Some ev) a = (grok_event cb a ev, grok_outcome ev).
Proof.
  intros Hok. unfold grok_event, grok_outcome, event_rejected.
  destruct (truthy (event_choice ev)) eqn:Hc.
  - destruct (chosen_event_fields ev Hc)
      as (choices & choice & Hnn & Hch & Hcht & Hidx & Hct & Hobj & Hdelta).
    assert (is_null ev = false) as -> by by destruct ev.
    unfold event_ok in Hok. rewrite Hc in Hok. cbn [negb orb andb] in Hok |- *.
    unfold GrokPatch.on_event.
    unfold bind at 1. unfold lift at 1. rewrite Hch.
    unfold bind at 1. rewrite Hcht. unfold lift at 1. rewrite Hidx, Hct.
    unfold when at 1.
    unfold bind at 1. unfold lift at 1.
    rewrite (get_field choice "delta") by by apply truthy_not_null.
    unfold bind at 1. rewrite update_metadata_records by done.
    unfold bind at 1. unfold lift at 1.
    unfold event_text, event_fragments, has_delta in *.
    rewrite !Hdelta in *. rewrite Hobj in *.
    destruct (field choice "delta") as [delta|] eqn:Hdl.
    2: { cbn. destruct cb; by rewrite !app_nil_r. }
    destruct (is_null delta) eqn:Hnull.
    { destruct delta; try done. cbn. destruct cb; by rewrite !app_nil_r. }
    assert (Hdn : delta <> JNull) by (by intros ->).
    cbn [negb orb] in Hok |- *. apply andb_true_iff in Hok as [Htext Hcalls].
    rewrite (get_field delta "content") by done.
    unfold bind at 1. rewrite (grok_content_phase cb _ _ Htext).
    unfold bind at 1. unfold lift at 1.
    rewrite (get_field delta "tool_calls") by done.
    by rewrite (grok_calls_phase _ _ Hcalls).
  - assert (ev = JNull \/ ev <> JNull) as [->|Hnn];
      [destruct ev; first [by left|by right]|done|].
    assert (is_null ev = false) as -> by by destruct ev.
    by rewrite grok_on_event_choiceless.
Qed.

Lemma client_content_phase (v : value) a :
  text_or_absent v = true ->
  when (truthy v)
    (bind (lift (as_string v))
       (fun text =>
          bind (modify (on_content (fun c => c ++ text)))
            (fun _ => StreamingClient.yield_snapshot))) a
  = ({| accumulatedContent := accumulatedContent a ++ text_of v;
        accumulatedToolCalls := accumulatedToolCalls a;
        responseMetadata := responseMetadata a;
        tokens := tokens a;
        yielded :=
          yielded a
          ++ (if bool_decide (text_of v = []) then []
              else [AIMessage (JStr (accumulatedContent a ++ text_of v))
                              (accumulatedToolCalls a) (responseMetadata a)]) |},
     Ok tt).
Proof.
  intros Hv. destruct (text_cases v (text_of v) Hv eq_refl) as [[Hf Ht]|[Hs Hne]].
  - rewrite Hf, Ht. simpl. destruct a; simpl; by rewrite !app_nil_r.
  - rewrite Hs. simpl. rewrite !bool_decide_eq_false_2 by done.
    by destruct a.
Qed.

Lemma client_calls_phase (v : value) a :
  calls_ok v = true ->
  when (truthy v)
    (bind (lift (iterate v))
       (fun deltas =>
          bind (for_of deltas StreamingClient.process_tool_call_delta)
            (fun _ => StreamingClient.yield_snapshot))) a
  = (let calls :=
       fold_left (apply_indexed client_merge)
                 (map addressed (applied (fragments_of v)))
                 (accumulatedToolCalls a) in
     {| accumulatedContent := accumulatedContent a;
        accumulatedToolCalls := calls;
        responseMetadata := responseMetadata a;
        tokens := tokens a;
        yielded :=
          yielded a
          ++ (if truthy v && negb (existsb arguments_fail (fragments_of v))
              then [AIMessage (JStr (accumulatedContent a)) calls
                              (responseMetadata a)]
              else []) |},
     if existsb arguments_fail (fragments_of v) then Throw SyntaxError else Ok tt).
Proof.
  unfold calls_ok. intros Hv.
  destruct v as [[| | | |ds|]|];
    try (apply negb_true_iff in Hv; rewrite Hv; simpl;
         destruct a; simpl; by rewrite app_nil_r).
  simpl truthy. unfold when, bind at 1, lift at 1. simpl iterate. cbv iota beta.
  unfold bind at 1. rewrite (client_for_of_applied ds a Hv). simpl fragments_of.
  destruct (existsb arguments_fail ds); simpl.
  - destruct a; simpl; by rewrite app_nil_r.
  - by destruct a.
Qed.

Lemma client_on_event_reference (ev : JValue) a :
  event_ok ev = true ->
  StreamingClient.on_event (Some ev) a = (client_event a ev, client_event_outcome ev).
Proof.
  intros Hok. unfold client_event, client_event_outcome, event_rejected.
  destruct (truthy (event_choice ev)) eqn:Hc.
  - destruct (chosen_event_fields ev Hc)
      as (choices & choice & Hnn & Hch & Hcht & Hidx & Hct & Hobj & Hdelta).
    assert (is_null ev = false) as -> by by destruct ev.
    unfold event_ok in Hok. rewrite Hc in Hok. cbn [negb orb andb] in Hok |- *.
    unfold StreamingClient.on_event.
    unfold bind at 1. unfold lift at 1. rewrite Hch.
    unfold bind at 1. rewrite Hcht. unfold lift at 1. rewrite Hidx, Hct.
    unfold when at 1.
    unfold bind at 1. unfold lift at 1.
    rewrite (get_field choice "delta") by by apply truthy_not_null.
    unfold bind at 1. rewrite update_metadata_records by done.
    unfold bind at 1. unfold lift at 1.
    unfold event_text, event_fragments, has_delta in *.
    rewrite !Hdelta in *. rewrite Hobj in *.
    destruct (field choice "delta") as [delta|] eqn:Hdl.
    2: { cbn. by rewrite !app_nil_r. }
    destruct (is_null delta) eqn:Hnull.
    { destruct delta; try done. cbn. by rewrite !app_nil_r. }
    assert (Hdn : delta <> JNull) by (by intros ->).
    cbn [negb orb] in Hok |- *. apply andb_true_iff in Hok as [Htext Hcalls].
    rewrite (get_field delta "content") by done.
    unfold bind at 1. rewrite (client_content_phase _ _ Htext).
    unfold bind at 1. unfold lift at 1.
    rewrite (get_field delta "tool_calls") by done.
    rewrite (client_calls_phase _ _ Hcalls). simpl. by rewrite <- app_assoc.
  - assert (ev = JNull \/ ev <> JNull) as [->|Hnn];
      [destruct ev; first [by left|by right]|done|].
    assert (is_null ev = false) as -> by by destruct ev.
    destruct (choiceless_event_fields ev Hc) as (_ & -> & _).
    by rewrite client_on_event_choiceless.
Qed.

(** *** The lines of a body *)

Lemma stream_events_cons line lines :
  stream_events (line :: lines)
  = if sentinel_line line then []
    else match line_event line with
         | Some ev => ev :: stream_events lines
         | None => stream_events lines
         end.
Proof.
  unfold stream_events. simpl. destruct (sentinel_line line); [done|].
  simpl. by destruct (line_event line).
Qed.

Lemma stream_warnings_cons outcome line lines :
  stream_warnings outcome (line :: lines)
  = if sentinel_line line then []
    else line_warnings outcome line ++ stream_warnings outcome lines.
Proof. unfold stream_warnings. simpl. by destruct (sentinel_line line). Qed.

Lemma stream_ok_cons line lines :
  sentinel_line line = false ->
  stream_ok (line :: lines) ->
  (forall ev, line_event line = Some ev -> event_ok ev = true) /\ stream_ok lines.
Proof.
  unfold stream_ok. rewrite stream_events_cons. intros ->.
  destruct (line_event line) as [ev|]; [|done].
  intros [Hev Hrest]%Forall_cons. split; [|done]. by intros ? [= <-].
Qed.

Lemma grok_process_line_reference cb line st :
  sentinel_line line = false ->
  (forall ev, line_event line = Some ev -> event_ok ev = true) ->
  GrokPatch.process_line cb line st
  = Some ({| GrokPatch.acc :=
               match line_event line with
               | Some ev => grok_event cb (GrokPatch.acc st) ev
               | None => GrokPatch.acc st
               end;
             GrokPatch.warnings :=
               GrokPatch.warnings st ++ line_warnings grok_outcome line |},
          Continue).
Proof.
  unfold sentinel_line, line_event, line_warnings, GrokPatch.process_line.
  fold (payload line). intros Hs Hok.
  destruct (startsWith (trim line) (js "data: ")).
  2: { destruct st; simpl; by rewrite app_nil_r. }
  simpl in Hs. rewrite Hs. unfold GrokPatch.try_event.
  destruct (JSON_parse (payload line)) as [ev|]; [|done].
  rewrite (grok_on_event_reference cb ev _ (Hok ev eq_refl)).
  unfold grok_outcome. destruct (event_rejected ev); [done|].
  simpl. by rewrite app_nil_r.
Qed.

Lemma grok_for_lines_reference cb lines st :
  stream_ok lines ->
  GrokPatch.for_lines cb lines st
  = Some {| GrokPatch.acc :=
              fold_left (grok_event cb) (stream_events lines) (GrokPatch.acc st);
            GrokPatch.warnings :=
              GrokPatch.warnings st ++ stream_warnings grok_outcome lines |}.
Proof.
  revert st. induction lines as [|l ls IH]; intros st Hok.
  - destruct st; simpl. by rewrite app_nil_r.
  - simpl GrokPatch.for_lines. rewrite stream_events_cons, stream_warnings_cons.
    destruct (sentinel_line l) eqn:Hs.
    + unfold sentinel_line in Hs. apply andb_true_iff in Hs as [Hd Hp].
      unfold GrokPatch.process_line. fold (payload l). rewrite Hd, Hp.
      destruct st; simpl. by rewrite app_nil_r.
    + destruct (stream_ok_cons l ls Hs Hok) as [Hl Hls].
      rewrite (grok_process_line_reference cb l st Hs Hl), (IH _ Hls). simpl.
      rewrite <- app_assoc. by destruct (line_event l).
Qed.

Lemma client_process_line_reference line st :
  sentinel_line line = false ->
  (forall ev, line_event line = Some ev -> event_ok ev = true) ->
  StreamingClient.process_line line st
  = Some ({| StreamingClient.acc :=
               match line_event line with
               | Some ev => client_event (StreamingClient.acc st) ev
               | None => StreamingClient.acc st
               end;
             StreamingClient.warnings :=
               StreamingClient.warnings st
               ++ line_warnings client_event_outcome line |},
          Continue).
Proof.
  unfold sentinel_line, line_event, line_warnings, StreamingClient.process_line.
  fold (payload line). intros Hs Hok.
  destruct (startsWith (trim line) (js "data: ")).
  2: { destruct st; simpl; by rewrite app_nil_r. }
  simpl in Hs. rewrite Hs. unfold StreamingClient.try_event.
  destruct (JSON_parse (payload line)) as [ev|]; [|done].
  rewrite (client_on_event_reference ev _ (Hok ev eq_refl)).
  unfold client_event_outcome. destruct (event_rejected ev); [done|].
  destruct (existsb _ _); [done|]. simpl. by rewrite app_nil_r.
Qed.

(** The accumulators of the generator after the lines, before the
    message it yields last. *)
Lemma client_for_lines_reference lines st :
  stream_ok lines ->
  exists st' c,
    StreamingClient.for_lines lines st = Some (st', c)
    /\ StreamingClient.warnings st'
       = StreamingClient.warnings st ++ stream_warnings client_event_outcome lines
    /\ StreamingClient.acc (finish (st', c))
       = (StreamingClient.yield_snapshot
            (fold_left client_event (stream_events lines)
                       (StreamingClient.acc st))).1.
Proof.
  revert st. induction lines as [|l ls IH]; intros st Hok.
  - eexists _, _. split; [reflexivity|]. simpl. by rewrite app_nil_r.
  - simpl StreamingClient.for_lines.
    rewrite stream_events_cons, stream_warnings_cons.
    destruct (sentinel_line l) eqn:Hs.
    + unfold sentinel_line in Hs. apply andb_true_iff in Hs as [Hd Hp].
      unfold StreamingClient.process_line. fold (payload l). rewrite Hd, Hp.
      eexists _, _. split; [reflexivity|]. simpl. by rewrite app_nil_r.
    + destruct (stream_ok_cons l ls Hs Hok) as [Hl Hls].
      rewrite (client_process_line_reference l st Hs Hl).
      destruct (IH {| StreamingClient.acc :=
                        match line_event l with
                        | Some ev => client_event (StreamingClient.acc st) ev
                        | None => StreamingClient.acc st
                        end;
                      StreamingClient.warnings :=
                        StreamingClient.warnings st
                        ++ line_warnings client_event_outcome l |} Hls)
        as (st' & c & Hrun & Hw & Hacc).
      exists st', c. split; [exact Hrun|]. split.
      * rewrite Hw. simpl. by rewrite <- app_assoc.
      * rewrite Hacc. simpl. by destruct (line_event l).
Qed.

(** *** The chunks of a body *)

Lemma grok_process_line_inert cb line st :
  inert_line line = true ->
  exists c, GrokPatch.process_line cb line st = Some (st, c).
Proof.
  unfold inert_line, sentinel_line, GrokPatch.process_line. fold (payload line).
  destruct (startsWith (trim line) (js "data: ")); simpl; [|by eexists].
  intros ->. by eexists.
Qed.

Lemma grok_for_lines_inert cb lines st :
  forallb inert_line lines = true -> GrokPatch.for_lines cb lines st = Some st.
Proof.
  induction lines as [|l ls IH]; [done|]. simpl.
  intros [Hl Hls]%andb_true_iff.
  destruct (grok_process_line_inert cb l st Hl) as [[|] ->]; [by apply IH|done].
Qed.

Lemma inert_quiet lines :
  forallb inert_line lines = true -> quiet_after_sentinel lines = true.
Proof.
  induction lines as [|l ls IH]; [done|]. simpl.
  intros [Hl Hls]%andb_true_iff. destruct (sentinel_line l); [done|by apply IH].
Qed.

Lemma quiet_app ls1 ls2 :
  quiet_after_sentinel (ls1 ++ ls2) = true -> quiet_after_sentinel ls2 = true.
Proof.
  induction ls1 as [|l ls IH]; [done|]. simpl.
  destruct (sentinel_line l); [|done].
  rewrite forallb_app. intros [_ H]%andb_true_iff. by apply inert_quiet.
Qed.

Lemma grok_for_lines_app_quiet cb ls1 ls2 st :
  quiet_after_sentinel (ls1 ++ ls2) = true ->
  GrokPatch.for_lines cb (ls1 ++ ls2) st
  = GrokPatch.for_lines cb ls1 st ≫= GrokPatch.for_lines cb ls2.
Proof.
  revert st. induction ls1 as [|l ls IH]; intros st Hq; [done|].
  simpl in *.
  destruct (GrokPatch.process_line cb l st) as [[st' [|]]|] eqn:Hl; [| |done].
  - apply IH. destruct (sentinel_line l); [|done]. by apply inert_quiet.
  - destruct (sentinel_line l) eqn:Hs.
    + rewrite forallb_app in Hq. apply andb_true_iff in Hq as [_ Hq]. simpl.
      by rewrite grok_for_lines_inert.
    + by destruct (grok_process_line_no_break cb l st st' Hs).
Qed.

Lemma grok_read_loop_quiet cb chunks buffer st :
  10 ∉ buffer ->
  quiet_after_sentinel (removelast (split 10 (buffer ++ concat chunks))) = true ->
  GrokPatch.read_loop cb chunks buffer st
  = GrokPatch.for_lines cb (removelast (split 10 (buffer ++ concat chunks))) st.
Proof.
  revert buffer st. induction chunks as [|c cs IH]; intros buffer st Hbuf Hq.
  - simpl. rewrite app_nil_r, split_line by done. done.
  - simpl concat in *. rewrite app_assoc, split_app in Hq |- *.
    pose proof (split_nonempty 10
                  (List.last (split 10 (buffer ++ c)) [] ++ concat cs)) as Hne.
    rewrite removelast_app_nonempty in Hq |- * by done.
    rewrite grok_for_lines_app_quiet by done. simpl GrokPatch.read_loop.
    destruct (GrokPatch.for_lines cb _ st) as [st'|]; [|done].
    cbn [mbind option_bind].
    apply IH; [apply last_split_no_sep|by eapply quiet_app].
Qed.

(** What [_streamGenerate] assembles from a body, and what the
    generator of the streaming client yields for it. *)
Lemma grok_assemble_reference cb chunks :
  let lines := complete_lines chunks in
  stream_ok lines -> quiet_after_sentinel lines = true ->
  let a := fold_left (grok_event cb) (stream_events lines) initial_acc in
  GrokPatch.assemble cb chunks
  = Some (GrokPatch.final_message a,
          {| GrokPatch.acc := a;
             GrokPatch.warnings := stream_warnings grok_outcome lines |}).
Proof.
  intros lines Hok Hlast a. unfold GrokPatch.assemble.
  rewrite grok_read_loop_quiet by (done || apply not_elem_of_nil).
  simpl app. fold (complete_lines chunks). fold lines.
  by rewrite (grok_for_lines_reference cb lines _ Hok).
Qed.

Lemma client_stream_reference chunks :
  let lines := complete_lines chunks in
  stream_ok lines ->
  let a := fold_left client_event (stream_events lines) initial_acc in
  StreamingClient.streamChatCompletion chunks = Some (yielded a ++ [snapshot a]).
Proof.
  intros lines Hok a. unfold StreamingClient.streamChatCompletion.
  rewrite StreamingClientFacts.read_loop_chunks,
    client_read_chunks_lines by apply not_elem_of_nil.
  simpl app. fold (complete_lines chunks). fold lines.
  destruct (client_for_lines_reference lines client_start Hok)
    as (st' & c & Hrun & _ & Hacc).
  unfold client_start in Hrun. rewrite Hrun. simpl. by rewrite Hacc.
Qed.

(** *** What the events leave in the accumulators *)

Lemma grok_fold_content cb evs a :
  accumulatedContent (fold_left (grok_event cb) evs a)
  = accumulatedContent a ++ concat (map event_text evs).
Proof.
  revert a. induction evs as [|ev evs IH]; intros a; simpl.
  - by rewrite app_nil_r.
  - rewrite IH. unfold grok_event.
    destruct (truthy (event_choice ev)) eqn:Hc; simpl.
    + by rewrite <- app_assoc.
    + by destruct (choiceless_event_fields ev Hc) as (-> & _).
Qed.

Lemma grok_fold_tokens cb evs a :
  tokens (fold_left (grok_event cb) evs a)
  = tokens a
    ++ (if cb then concat (map (fun ev => token_of (event_text ev)) evs) else []).
Proof.
  revert a. induction evs as [|ev evs IH]; intros a; simpl.
  - destruct cb; by rewrite app_nil_r.
  - rewrite IH. unfold grok_event.
    destruct (truthy (event_choice ev)) eqn:Hc; simpl.
    + destruct cb; simpl; by rewrite <- ?app_assoc, ?app_nil_r.
    + destruct (choiceless_event_fields ev Hc) as (-> & _). by destruct cb.
Qed.

Lemma grok_fold_calls cb evs a :
  accumulatedToolCalls (fold_left (grok_event cb) evs a)
  = fold_left (apply_indexed grok_merge)
      (concat (map (fun ev => map addressed (event_fragments ev)) evs))
      (accumulatedToolCalls a).
Proof.
  revert a. induction evs as [|ev evs IH]; intros a; simpl; [done|].
  rewrite IH, fold_left_app. unfold grok_event.
  destruct (truthy (event_choice ev)) eqn:Hc; simpl; [done|].
  by destruct (choiceless_event_fields ev Hc) as (_ & -> & _).
Qed.

Lemma client_fold_content evs a :
  accumulatedContent (fold_left client_event evs a)
  = accumulatedContent a ++ concat (map event_text evs).
Proof.
  revert a. induction evs as [|ev evs IH]; intros a; simpl.
  - by rewrite app_nil_r.
  - rewrite IH. unfold client_event.
    destruct (truthy (event_choice ev)) eqn:Hc; simpl.
    + by rewrite <- app_assoc.
    + by destruct (choiceless_event_fields ev Hc) as (-> & _).
Qed.

Lemma client_fold_calls evs a :
  accumulatedToolCalls (fold_left client_event evs a)
  = fold_left (apply_indexed client_merge)
      (concat (map (fun ev => map addressed (applied (event_fragments ev))) evs))
      (accumulatedToolCalls a).
Proof.
  revert a. induction evs as [|ev evs IH]; intros a; simpl; [done|].
  rewrite IH, fold_left_app. unfold client_event.
  destruct (truthy (event_choice ev)) eqn:Hc; simpl; [done|].
  by destruct (choiceless_event_fields ev Hc) as (_ & -> & _).
Qed.

Lemma client_fold_yielded evs a :
  map content (yielded (fold_left client_event evs a))
  = map content (yielded a) ++ yield_contents (accumulatedContent a) evs.
Proof.
  revert a. induction evs as [|ev evs IH]; intros a; simpl.
  - by rewrite app_nil_r.
  - rewrite IH. unfold client_event, calls_yielded.
    destruct (truthy (event_choice ev)) eqn:Hc; simpl.
    + rewrite !map_app, <- !app_assoc. do 2 f_equal.
      * by case_bool_decide.
      * f_equal. by destruct (_ && _).
    + destruct (choiceless_event_fields ev Hc) as (-> & _ & ->). simpl.
      by rewrite app_nil_r.
Qed.

(** The number of invocations and the invocation at an index. *)
Lemma length_fold_slots merge (ids : list (nat * JValue)) calls :
  length (fold_left (apply_indexed merge) ids calls)
  = fold_left (fun n p => Nat.max n (S p.1)) ids (length calls).
Proof.
  revert calls. induction ids as [|[i d] ids IH]; intros calls; [done|].
  simpl. rewrite IH. f_equal. unfold apply_indexed, apply_fragment, grow. simpl.
  rewrite length_alter, length_app, length_replicate. lia.
Qed.

Lemma fragments_for_elem j (ids : list (nat * JValue)) :
  fragments_for j ids <> [] -> j ∈ map fst ids.
Proof.
  unfold fragments_for. induction ids as [|[i d] ids IH]; [done|]. simpl.
  case_bool_decide as Hij; simpl.
  - intros _. subst. apply elem_of_cons. by left.
  - intros H. apply elem_of_cons. right. by apply IH.
Qed.

Lemma fragments_for_lookup merge j (ids : list (nat * JValue)) :
  fragments_for j ids <> [] ->
  fold_left (apply_indexed merge) ids [] !! j
  = Some (fold_left (fun tc d => merge d tc) (fragments_for j ids) empty_tool_call).
Proof. intros H. by apply addressed_lookup, fragments_for_elem. Qed.

(** The fragments of a body that is read without a coercion. *)
Lemma no_delta_fields (ev : JValue) (k : string) :
  has_delta ev = false -> event_delta ev k = undefined.
Proof.
  unfold has_delta, event_delta_object, event_delta.
  destruct (event_choice ev) as [choice|]; [|done].
  destruct (truthy (Some choice)); [|done].
  destruct (field choice "delta") as [[| | | | |]|]; done.
Qed.

Lemma event_fragments_ok (ev : JValue) :
  event_ok ev = true -> forallb fragment_ok (event_fragments ev) = true.
Proof.
  unfold event_ok, event_fragments.
  destruct (truthy (event_choice ev)) eqn:Hc; simpl.
  - destruct (has_delta ev) eqn:Hd; simpl.
    + intros [_ Hcalls]%andb_true_iff. unfold calls_ok in Hcalls.
      by destruct (event_delta ev "tool_calls") as [[| | | | |]|].
    + by rewrite no_delta_fields.
  - intros _. fold (event_fragments ev).
    by destruct (choiceless_event_fields ev Hc) as (_ & -> & _).
Qed.

Lemma applied_ok (ds : list JValue) :
  forallb fragment_ok ds = true -> forallb fragment_ok (applied ds) = true.
Proof.
  induction ds as [|d ds IH]; [done|]. simpl.
  intros [Hd Hds]%andb_true_iff.
  destruct (arguments_fail d); simpl; rewrite Hd; [done|]. by apply IH.
Qed.

Lemma stream_fragments_at lines :
  stream_ok lines ->
  Forall (fun q => fragment_at q.1 q.2) (stream_fragments lines)
  /\ Forall (fun q => fragment_at q.1 q.2) (client_fragments lines).
Proof.
  unfold stream_ok, stream_fragments, client_fragments.
  induction 1 as [|ev evs Hev Hevs [IH1 IH2]]; [done|]. simpl.
  pose proof (event_fragments_ok ev Hev) as Hds.
  split; apply Forall_app; (split; [|done]).
  - by apply fragments_ok_at.
  - by apply fragments_ok_at, applied_ok.
Qed.

Lemma fragments_for_at j (ids : list (nat * JValue)) :
  Forall (fun q => fragment_at q.1 q.2) ids ->
  Forall (fun d => text_or_absent (fragment_arguments d) = true)
         (fragments_for j ids).
Proof.
  unfold fragments_for. induction 1 as [|[i d] ids [_ Hd] Hids IH]; [done|].
  simpl. case_bool_decide; simpl; [by constructor|done].
Qed.

(** *** The final message of a body *)

Lemma stream_ok_check lines :
  forallb event_ok (stream_events lines) = true -> stream_ok lines.
Proof.
  unfold stream_ok. rewrite forallb_forall, Forall_forall.
  intros H ev Hev. by apply H, list_elem_of_In.
Qed.

Lemma grok_assemble_stream cb chunks :
  let lines := complete_lines chunks in
  stream_ok lines -> quiet_after_sentinel lines = true ->
  exists m st,
    GrokPatch.assemble cb chunks = Some (m, st)
    /\ m = GrokPatch.final_message (GrokPatch.acc st)
    /\ accumulatedContent (GrokPatch.acc st)
       = concat (map event_text (stream_events lines))
    /\ accumulatedToolCalls (GrokPatch.acc st)
       = fold_left (apply_indexed grok_merge) (stream_fragments lines) []
    /\ tokens (GrokPatch.acc st)
       = (if cb
          then concat (map (fun ev => token_of (event_text ev)) (stream_events lines))
          else [])
    /\ GrokPatch.warnings st = stream_warnings grok_outcome lines.
Proof.
  intros lines Hok Hq.
  rewrite (grok_assemble_reference cb chunks Hok Hq). fold lines.
  eexists _, _. split; [reflexivity|]. simpl.
  by rewrite grok_fold_content, grok_fold_calls, grok_fold_tokens.
Qed.

Lemma client_stream_stream chunks :
  let lines := complete_lines chunks in
  stream_ok lines ->
  exists ms m,
    StreamingClient.streamChatCompletion chunks = Some ms
    /\ last ms = Some m
    /\ content m = JStr (concat (map event_text (stream_events lines)))
    /\ tool_calls m
       = fold_left (apply_indexed client_merge) (client_fragments lines) []
    /\ map content ms
       = yield_contents [] (stream_events lines)
         ++ [JStr (concat (map event_text (stream_events lines)))].
Proof.
  intros lines Hok.
  rewrite (client_stream_reference chunks Hok). fold lines.
  eexists _, _. split; [reflexivity|]. split; [apply last_snoc|]. simpl.
  rewrite client_fold_content, client_fold_calls, map_app, client_fold_yielded.
  simpl. by rewrite client_fold_content.
Qed.

Lemma final_message_keeps (a : Acc) (tc : ToolCall) i :
  accumulatedToolCalls a !! i = Some tc ->
  truthy (tc_id tc) && truthy (tc_name tc) = true ->
  tc ∈ tool_calls (GrokPatch.final_message a).
Proof.
  intros Hi Hkeep. simpl. apply elem_of_filter_list; [|done].
  by eapply list_elem_of_lookup_2.
Qed.

(** ** Fragments of one tool call, in any body *)

Lemma merged_id_name (merge : JValue -> ToolCall -> ToolCall)
      (first : JValue) (rest : list JValue) ID NAME :
  (forall d tc,
      tc_id (merge d tc)
      = if truthy (fragment_id d) then fragment_id d else tc_id tc) ->
  (forall d tc,
      tc_name (merge d tc)
      = if truthy (fragment_name d) then fragment_name d else tc_name tc) ->
  one_call_fragments first rest ID NAME ->
  tc_id (fold_left (fun tc d => merge d tc) (first :: rest) empty_tool_call) = ID
  /\ tc_name (fold_left (fun tc d => merge d tc) (first :: rest) empty_tool_call)
     = NAME.
Proof.
  intros Hmid Hmname (Hid & Hname & HID & HNAME & Hids & Heid & Hnames & Hename).
  pose proof (fragments_converge merge Hmid Hmname 0 ID NAME first rest
                Hid Hname HID HNAME Hids Heid Hnames Hename)
    as (_ & _ & tc & Htc & Htid & Htname).
  rewrite fold_fragments_lookup in Htc by done.
  simpl in Htc. injection Htc as <-. done.
Qed.

(** X26: an index-only fragment followed by fragments for the same
    index that bring the id and the name leaves, at that index, one
    invocation with that id and name, whatever else the body holds
    (blank lines, text, fragments for other indices, the sentinel) and
    wherever it is cut into chunks; the list holds one invocation for
    every index up to the largest one addressed, and no more.  For
    [_streamGenerate] the fragments are all those of the body; for
    the streaming client they are the fragments it applies. *)
Theorem index_only_fragment_converges
        cb chunks i (first : JValue) (rest : list JValue) ID NAME :
  let lines := complete_lines chunks in
  stream_ok lines ->
  one_call_fragments first rest ID NAME ->
  (quiet_after_sentinel lines = true ->
   fragments_for i (stream_fragments lines) = first :: rest ->
   exists m st tc,
     GrokPatch.assemble cb chunks = Some (m, st)
     /\ accumulatedToolCalls (GrokPatch.acc st) !! i = Some tc
     /\ tc_id tc = ID /\ tc_name tc = NAME
     /\ tc ∈ tool_calls m
     /\ length (accumulatedToolCalls (GrokPatch.acc st))
        = slots (stream_fragments lines))
  /\ (fragments_for i (client_fragments lines) = first :: rest ->
      exists ms m tc,
        StreamingClient.streamChatCompletion chunks = Some ms
        /\ last ms = Some m
        /\ tool_calls m !! i = Some tc
        /\ tc_id tc = ID /\ tc_name tc = NAME
        /\ length (tool_calls m) = slots (client_fragments lines)).
Proof.
  intros lines Hok Hone. split.
  - intros Hq Hfor.
    destruct (grok_assemble_stream cb chunks Hok Hq)
      as (m & st & Hrun & -> & _ & Hcalls & _).
    fold lines in Hcalls.
    destruct (merged_id_name grok_merge first rest ID NAME
                grok_merge_id grok_merge_name Hone) as [Hid Hname].
    assert (Hi : accumulatedToolCalls (GrokPatch.acc st) !! i
                 = Some (fold_left (fun tc d => grok_merge d tc) (first :: rest)
                                   empty_tool_call)).
    { rewrite Hcalls, fragments_for_lookup by by rewrite Hfor. by rewrite Hfor. }
    eexists _, st, _. split; [done|]. split; [exact Hi|].
    split; [done|]. split; [done|]. split.
    + apply (final_message_keeps _ _ i Hi). rewrite Hid, Hname.
      by destruct Hone as (_ & _ & -> & -> & _).
    + by rewrite Hcalls, length_fold_slots.
  - intros Hfor.
    destruct (client_stream_stream chunks Hok)
      as (ms & m & Hrun & Hlast & _ & Hcalls & _).
    fold lines in Hcalls.
    destruct (merged_id_name client_merge first rest ID NAME
                client_merge_id client_merge_name Hone) as [Hid Hname].
    eexists ms, m, _. split; [done|]. split; [done|]. split.
    + rewrite Hcalls, fragments_for_lookup by by rewrite Hfor.
      by rewrite Hfor.
    + split; [done|]. split; [done|]. by rewrite Hcalls, length_fold_slots.
Qed.

Lemma index_only_fragment_converges_witness :
  (exists m st tc,
      GrokPatch.assemble true (sse_chunks mixed_lines) = Some (m, st)
      /\ accumulatedToolCalls (GrokPatch.acc st) !! 0%nat = Some tc
      /\ tc_id tc = Some (str "c1") /\ tc_name tc = Some (str "computer_use")
      /\ tc ∈ tool_calls m
      /\ length (accumulatedToolCalls (GrokPatch.acc st)) = 1%nat)
  /\ (exists ms m tc,
        StreamingClient.streamChatCompletion (sse_chunks mixed_lines) = Some ms
        /\ last ms = Some m
        /\ tool_calls m !! 0%nat = Some tc
        /\ tc_id tc = Some (str "c1") /\ tc_name tc = Some (str "computer_use")
        /\ length (tool_calls m) = 1%nat).
Proof.
  destruct (index_only_fragment_converges true (sse_chunks mixed_lines) 0%nat
              (hd JNull screenshot_fragments) (tl screenshot_fragments)
              (Some (str "c1")) (Some (str "computer_use"))
              (stream_ok_check (complete_lines (sse_chunks mixed_lines)) eq_refl)
              screenshot_one_call) as [Hg Hc].
  split.
  - exact (Hg eq_refl eq_refl).
  - exact (Hc eq_refl).
Defined.

(** C8 at a failing input: the index alone, then one event with a
    fragment that begins the arguments and the fragment that brings
    the id and the name.  The streaming client gives the event up at
    the arguments and never reads the id and the name: its last
    message holds the placeholder.  [_streamGenerate] reads them. *)
Theorem index_only_fragment_lost :
  (exists first rest,
      fragments_for 0 (stream_fragments (complete_lines [sse_body late_id_lines]))
      = first :: rest
      /\ one_call_fragments first rest (Some (str "c1"))
                            (Some (str "computer_use")))
  /\ (fun ms => map (fun tc => (tc_id tc, tc_name tc)) <$> (tool_calls <$> last ms))
       <$> StreamingClient.streamChatCompletion [sse_body late_id_lines]
     = Some (Some [(Some (JStr []), Some (JStr []))])
  /\ (fun r => map (fun tc => (tc_id tc, tc_name tc)) (tool_calls r.1))
       <$> GrokPatch.assemble true [sse_body late_id_lines]
     = Some [(Some (str "c1"), Some (str "computer_use"))].
Proof.
  split; [|split; reflexivity].
  eexists _, _. split; [reflexivity|].
  repeat split; try reflexivity.
  - repeat constructor; try reflexivity; by intros [=].
  - apply Exists_cons_tl, Exists_cons_hd. reflexivity.
  - repeat constructor; try reflexivity; by intros [=].
  - apply Exists_cons_tl, Exists_cons_hd. reflexivity.
Qed.

(** X20: the fragments of several invocations may arrive
    interleaved, in one event or in many: the invocation at an index
    is built from the fragments addressed to that index alone, in
    their order, starting from the placeholder.  For
    [_streamGenerate] these are all the fragments of the body for
    that index; for the streaming client they are the ones it
    applies: a fragment that comes after a failing one in its event is
    lost, whatever its index. *)
Theorem interleaved_fragments_are_assembled_per_index cb chunks j :
  let lines := complete_lines chunks in
  stream_ok lines ->
  (quiet_after_sentinel lines = true ->
   fragments_for j (stream_fragments lines) <> [] ->
   exists m st,
     GrokPatch.assemble cb chunks = Some (m, st)
     /\ accumulatedToolCalls (GrokPatch.acc st) !! j
        = Some (fold_left (fun tc d => grok_merge d tc)
                          (fragments_for j (stream_fragments lines))
                          empty_tool_call))
  /\ (fragments_for j (client_fragments lines) <> [] ->
      exists ms m,
        StreamingClient.streamChatCompletion chunks = Some ms
        /\ last ms = Some m
        /\ tool_calls m !! j
           = Some (fold_left (fun tc d => client_merge d tc)
                             (fragments_for j (client_fragments lines))
                             empty_tool_call)).
Proof.
  intros lines Hok. split.
  - intros Hq Hne.
    destruct (grok_assemble_stream cb chunks Hok Hq)
      as (m & st & Hrun & _ & _ & Hcalls & _).
    exists m, st. split; [done|]. fold lines in Hcalls.
    by rewrite Hcalls, fragments_for_lookup.
  - intros Hne.
    destruct (client_stream_stream chunks Hok)
      as (ms & m & Hrun & Hlast & _ & Hcalls & _).
    exists ms, m. split; [done|]. split; [done|]. fold lines in Hcalls.
    by rewrite Hcalls, fragments_for_lookup.
Qed.

Lemma interleaved_fragments_are_assembled_per_index_witness :
  exists m st tc,
    GrokPatch.assemble true (sse_chunks interleaved_lines) = Some (m, st)
    /\ accumulatedToolCalls (GrokPatch.acc st) !! 1%nat = Some tc
    /\ tc_id tc = Some (str "c2")
    /\ tc_args tc = JObj [(js "b", num 2)].
Proof.
  destruct (interleaved_fragments_are_assembled_per_index true
              (sse_chunks interleaved_lines) 1%nat
              (stream_ok_check (complete_lines (sse_chunks interleaved_lines))
                 eq_refl)) as [Hg _].
  destruct (Hg eq_refl) as (m & st & Hrun & Hcall); [discriminate|].
  exists m, st. eexists. split; [exact Hrun|]. split; [exact Hcall|].
  split; reflexivity.
Defined.

(** X9: in [_streamGenerate], when none of the fragments addressed
    to an index is valid JSON by itself and their texts together are,
    the arguments of the invocation at that index are the parse of
    the joined text, whatever else the body holds and wherever it is
    cut; the invocation is in the final message when it has an id and
    a name. *)
Theorem split_arguments_are_joined cb chunks i (v : JValue) :
  let lines := complete_lines chunks in
  let ds := fragments_for i (stream_fragments lines) in
  stream_ok lines -> quiet_after_sentinel lines = true ->
  Forall (fun d => JSON_parse (fragment_text d) = None) ds ->
  JSON_parse (concat (map fragment_text ds)) = Some v ->
  exists m st tc,
    GrokPatch.assemble cb chunks = Some (m, st)
    /\ accumulatedToolCalls (GrokPatch.acc st) !! i = Some tc
    /\ tc_args tc = v
    /\ (truthy (tc_id tc) && truthy (tc_name tc) = true -> tc ∈ tool_calls m).
Proof.
  intros lines ds Hok Hq Halone Hjoined.
  destruct (grok_assemble_stream cb chunks Hok Hq)
    as (m & st & Hrun & -> & _ & Hcalls & _).
  fold lines in Hcalls.
  assert (Hne : ds <> []).
  { intros Hds. rewrite Hds in Hjoined. simpl in Hjoined.
    by rewrite JSON_parse_empty in Hjoined. }
  assert (Hi : accumulatedToolCalls (GrokPatch.acc st) !! i
               = Some (fold_left (fun tc d => grok_merge d tc) ds empty_tool_call)).
  { by rewrite Hcalls, fragments_for_lookup. }
  destruct (grok_fold_buffer ds empty_tool_call) as [Hbuf Hparsed]; [|done| |].
  { apply fragments_for_at. by destruct (stream_fragments_at lines Hok). }
  { intros w. unfold args_buffer. simpl. by rewrite JSON_parse_empty. }
  eexists _, st, _. split; [done|]. split; [exact Hi|]. split.
  - apply Hparsed. by rewrite Hbuf.
  - intros Hkeep. by apply (final_message_keeps _ _ i Hi).
Qed.

Lemma split_arguments_are_joined_witness :
  exists m st tc,
    GrokPatch.assemble true (sse_chunks mixed_lines) = Some (m, st)
    /\ accumulatedToolCalls (GrokPatch.acc st) !! 0%nat = Some tc
    /\ tc_args tc = screenshot_args
    /\ (truthy (tc_id tc) && truthy (tc_name tc) = true -> tc ∈ tool_calls m).
Proof.
  apply (split_arguments_are_joined true (sse_chunks mixed_lines) 0%nat
           screenshot_args
           (stream_ok_check (complete_lines (sse_chunks mixed_lines)) eq_refl)
           eq_refl).
  - vm_compute. repeat constructor.
  - reflexivity.
Defined.

(** X10: the arguments of an invocation the streaming client
    assembles are the merge, in order, of the own properties of the
    fragments it applies for that index that are valid JSON by
    themselves (a later key replaces an earlier one when read); an
    applied fragment that is not adds nothing, and a fragment that
    follows a failing one in its event is not applied at all.
    [_streamGenerate] gives the merge over all the fragments of the
    body for that index when each of them is valid JSON by itself or
    has no text. *)
Theorem fragment_arguments_are_merged cb chunks i :
  let lines := complete_lines chunks in
  stream_ok lines ->
  (let ds := fragments_for i (client_fragments lines) in
   ds <> [] ->
   exists ms m tc,
     StreamingClient.streamChatCompletion chunks = Some ms
     /\ last ms = Some m
     /\ tool_calls m !! i = Some tc
     /\ tc_args tc = JObj (concat (map fragment_props ds)))
  /\ (let ds := fragments_for i (stream_fragments lines) in
      ds <> [] -> quiet_after_sentinel lines = true ->
      Forall arguments_alone ds ->
      exists m st tc,
        GrokPatch.assemble cb chunks = Some (m, st)
        /\ accumulatedToolCalls (GrokPatch.acc st) !! i = Some tc
        /\ tc_args tc = JObj (concat (map fragment_props ds))).
Proof.
  intros lines Hok.
  destruct (stream_fragments_at lines Hok) as [Hat Hcat]. split.
  - intros ds Hne.
    destruct (client_stream_stream chunks Hok)
      as (ms & m & Hrun & Hlast & _ & Hcalls & _).
    fold lines in Hcalls.
    eexists ms, m, _. split; [done|]. split; [done|]. split.
    + by rewrite Hcalls, fragments_for_lookup.
    + apply (fold_merge_props client_merge
               (fun d => text_or_absent (fragment_arguments d) = true) ds _ []);
        [|by apply fragments_for_at|done].
      intros d tc kvs Hd. by apply client_merge_props.
  - intros ds Hne Hq Halone.
    destruct (grok_assemble_stream cb chunks Hok Hq)
      as (m & st & Hrun & _ & _ & Hcalls & _).
    fold lines in Hcalls.
    eexists m, st, _. split; [done|]. split.
    + by rewrite Hcalls, fragments_for_lookup.
    + apply (fold_merge_props grok_merge
               (fun d => text_or_absent (fragment_arguments d) = true
                         /\ (fragment_text d = []
                             \/ is_Some (JSON_parse (fragment_text d)))) ds _ []);
        [| |done].
      * intros d tc kvs [Hd1 Hd2]. by apply grok_merge_props.
      * apply Forall_and. split; [by apply fragments_for_at|done].
Qed.

Lemma fragment_arguments_are_merged_witness :
  exists ms m tc,
    StreamingClient.streamChatCompletion (sse_chunks merge_lines) = Some ms
    /\ last ms = Some m
    /\ tool_calls m !! 0%nat = Some tc
    /\ tc_args tc = JObj [(js "a", num 1); (js "b", num 2)].
Proof.
  destruct (fragment_arguments_are_merged true (sse_chunks merge_lines) 0%nat
              (stream_ok_check (complete_lines (sse_chunks merge_lines)) eq_refl))
    as [Hc _].
  apply Hc. discriminate.
Defined.

(** ** The text of a body *)

Lemma yield_contents_text start evs :
  Forall (fun ev => truthy (event_delta ev "tool_calls") = false) evs ->
  yield_contents start evs = running start (map event_text evs).
Proof.
  intros H. revert start. induction H as [|ev evs Hev Hevs IH]; intros start; [done|].
  simpl. unfold calls_yielded, token_of. rewrite Hev, IH. simpl.
  by case_bool_decide.
Qed.

(** X21: the texts of the events of a body are appended in order.
    [_streamGenerate] returns them joined as the content of its
    message and hands each non-empty text to the token callback; the
    last message of the streaming client holds them joined, and its
    messages before that are, for every event in order, one message
    when the text of the event is not empty and one when its tool
    calls are applied, each with all the text so far.  In a body
    without tool calls that is one message per non-empty text. *)
Theorem content_is_appended_in_order cb chunks :
  let lines := complete_lines chunks in
  let events := stream_events lines in
  let texts := map event_text events in
  stream_ok lines ->
  (quiet_after_sentinel lines = true ->
   exists m st,
     GrokPatch.assemble cb chunks = Some (m, st)
     /\ content m = JStr (concat texts)
     /\ tokens (GrokPatch.acc st)
        = if cb then concat (map token_of texts) else [])
  /\ (exists ms,
        StreamingClient.streamChatCompletion chunks = Some ms
        /\ map content ms = yield_contents [] events ++ [JStr (concat texts)]
        /\ (Forall (fun ev => truthy (event_delta ev "tool_calls") = false) events ->
            map content ms = running [] texts ++ [JStr (concat texts)])).
Proof.
  intros lines events texts Hok. split.
  - intros Hq.
    destruct (grok_assemble_stream cb chunks Hok Hq)
      as (m & st & Hrun & -> & Hc & _ & Htok & _).
    exists (GrokPatch.final_message (GrokPatch.acc st)), st.
    split; [done|]. split.
    + simpl. by rewrite Hc.
    + rewrite Htok. subst texts. by rewrite map_map.
  - destruct (client_stream_stream chunks Hok)
      as (ms & m & Hrun & _ & _ & _ & Hy).
    exists ms. split; [done|]. split; [done|].
    intros Hplain. by rewrite Hy, yield_contents_text.
Qed.

Lemma content_is_appended_in_order_witness :
  (exists m st,
      GrokPatch.assemble true (sse_chunks mixed_lines) = Some (m, st)
      /\ content m = str "Hello"
      /\ tokens (GrokPatch.acc st) = [js "Hel"; js "lo"])
  /\ (exists ms,
        StreamingClient.streamChatCompletion (sse_chunks hello_lines) = Some ms
        /\ map content ms = [str "Hel"; str "Hello"; str "Hello"]).
Proof.
  split.
  - destruct (content_is_appended_in_order true (sse_chunks mixed_lines)
                (stream_ok_check (complete_lines (sse_chunks mixed_lines)) eq_refl))
      as [Hg _].
    exact (Hg eq_refl).
  - destruct (content_is_appended_in_order true (sse_chunks hello_lines)
                (stream_ok_check (complete_lines (sse_chunks hello_lines)) eq_refl))
      as [_ (ms & Hrun & Hy & _)].
    exists ms. split; [exact Hrun|exact Hy].
Defined.

(** ** An event with several fragments *)

Lemma applied_failing (before : list JValue) (p : JValue) (after : list JValue) :
  Forall (fun d => arguments_fail d = false) before ->
  arguments_fail p = true ->
  applied (before ++ p :: after) = before ++ [p]
  /\ existsb arguments_fail (before ++ p :: after) = true.
Proof.
  intros Hb Hp. induction Hb as [|d before Hd Hb [IH1 IH2]]; simpl.
  - by rewrite Hp.
  - by rewrite Hd, IH1, IH2.
Qed.

Lemma line_event_of line (ev : JValue) :
  event_line line ev ->
  sentinel_line line = false /\ line_event line = Some ev
  /\ forall outcome, line_warnings outcome line
                     = match outcome ev with
                       | Throw e => [(payload line, e)]
                       | _ => []
                       end.
Proof.
  intros Hline. pose proof (event_line_not_sentinel line ev Hline) as Hdone.
  destruct Hline as (_ & Hdata & Hparse).
  unfold sentinel_line, line_event, line_warnings.
  rewrite Hdata, Hdone, Hparse. by rewrite andb_false_r.
Qed.

(** X25: the streaming client gives up an event at the first
    fragment whose arguments are a text that is not JSON by itself.
    That fragment still brings its id and name, as the fragments
    before it did, but the fragments after it in the same event are
    not applied; no message is yielded for the tool calls of the
    event (only the one for its text, when it has text, which holds
    the invocations as they were before the event), and a warning is
    logged.  [_streamGenerate] applies every fragment of the same
    event and logs nothing. *)
Theorem failing_fragment_ends_its_event
        cb line (ev : JValue) (before : list JValue) (p : JValue)
        (after : list JValue) st gst :
  event_line line ev -> event_ok ev = true ->
  event_fragments ev = before ++ p :: after ->
  Forall (fun d => arguments_fail d = false) before ->
  arguments_fail p = true ->
  (exists st',
      StreamingClient.process_line line st = Some (st', Continue)
      /\ accumulatedToolCalls (StreamingClient.acc st')
         = fold_left (apply_indexed client_merge) (map addressed (before ++ [p]))
                     (accumulatedToolCalls (StreamingClient.acc st))
      /\ accumulatedContent (StreamingClient.acc st')
         = accumulatedContent (StreamingClient.acc st) ++ event_text ev
      /\ yielded (StreamingClient.acc st')
         = yielded (StreamingClient.acc st)
           ++ (if bool_decide (event_text ev = []) then []
               else [AIMessage
                       (JStr (accumulatedContent (StreamingClient.acc st)
                              ++ event_text ev))
                       (accumulatedToolCalls (StreamingClient.acc st))
                       (responseMetadata (StreamingClient.acc st'))])
      /\ StreamingClient.warnings st'
         = StreamingClient.warnings st ++ [(payload line, SyntaxError)])
  /\ (exists gst',
        GrokPatch.process_line cb line gst = Some (gst', Continue)
        /\ accumulatedToolCalls (GrokPatch.acc gst')
           = fold_left (apply_indexed grok_merge)
                       (map addressed (before ++ p :: after))
                       (accumulatedToolCalls (GrokPatch.acc gst))
        /\ GrokPatch.warnings gst' = GrokPatch.warnings gst).
Proof.
  intros Hline Hok Hds Hb Hp.
  destruct (line_event_of line ev Hline) as (Hs & Hev & Hw).
  destruct (applied_failing before p after Hb Hp) as [Happ Hex].
  assert (Hc : truthy (event_choice ev) = true).
  { destruct (truthy (event_choice ev)) eqn:Hc; [done|].
    destruct (choiceless_event_fields ev Hc) as (_ & Hnil & _).
    rewrite Hnil in Hds. by destruct before. }
  assert (Hd : has_delta ev = true).
  { destruct (has_delta ev) eqn:Hd; [done|].
    unfold event_fragments in Hds. rewrite no_delta_fields in Hds by done.
    by destruct before. }
  assert (Hrej : event_rejected ev = false).
  { unfold event_rejected. rewrite Hc, Hd. by destruct ev. }
  split.
  - rewrite client_process_line_reference;
      [|done|intros ev0 Hev0; rewrite Hev in Hev0; by injection Hev0 as <-].
    rewrite Hev, Hw. unfold client_event_outcome, client_event.
    rewrite Hrej, Hc, Hds, Hex, Happ. eexists. split; [reflexivity|].
    simpl. by rewrite andb_false_r, app_nil_r.
  - rewrite grok_process_line_reference;
      [|done|intros ev0 Hev0; rewrite Hev in Hev0; by injection Hev0 as <-].
    rewrite Hev, Hw. unfold grok_outcome, grok_event.
    rewrite Hrej, Hc, Hds. eexists. split; [reflexivity|].
    simpl. by rewrite app_nil_r.
Qed.

Lemma two_calls_line_event : event_line two_calls_line two_calls_event.
Proof.
  repeat split; try reflexivity. apply (bool_decide_unpack _). by vm_compute.
Qed.

Lemma failing_fragment_ends_its_event_witness :
  (exists st',
      StreamingClient.process_line two_calls_line client_start = Some (st', Continue)
      /\ map tc_id (accumulatedToolCalls (StreamingClient.acc st'))
         = [Some (str "c1")]
      /\ yielded (StreamingClient.acc st') = []
      /\ length (StreamingClient.warnings st') = 1%nat)
  /\ (exists gst',
        GrokPatch.process_line true two_calls_line grok_start = Some (gst', Continue)
        /\ map tc_id (accumulatedToolCalls (GrokPatch.acc gst'))
           = [Some (str "c1"); Some (str "c2")]).
Proof.
  destruct (failing_fragment_ends_its_event true two_calls_line two_calls_event
              [] (hd JNull (event_fragments two_calls_event))
              (tl (event_fragments two_calls_event)) client_start grok_start
              two_calls_line_event eq_refl eq_refl (Forall_nil_2 _) eq_refl)
    as [Hclient Hgrok].
  split.
  - destruct Hclient as (st' & Hrun & Hcalls & _ & Hy & Hw).
    exists st'. split; [exact Hrun|]. split; [|split].
    + rewrite Hcalls. reflexivity.
    + rewrite Hy. reflexivity.
    + rewrite Hw. reflexivity.
  - destruct Hgrok as (gst' & Hrun & Hcalls & _).
    exists gst'. split; [exact Hrun|]. rewrite Hcalls. reflexivity.
Defined.
